(** * amp-web-push publisher files: WindowMessenger and the helper frame

    A shallow embedding of [window-messenger.ts] (the promise based
    postMessage helper) and of the alternate-origin subscription checker of
    [amp-web-push-helper-frame.ts].

    The messenger is a JavaScript object that is mutated by its methods and by
    the event handlers it registers on the window and on a [MessagePort].  It
    is modelled by explicit state passing over a [World]: the messenger
    object, the arrays it shares with its subscription table, the receivers
    registered on the window and on ports, the promises it created and the
    effects it performed (posted messages, resolver calls, callback
    invocations, console output).  A method is a function [World -> Res A]
    that either returns, throws or exhausts its fuel, and in each case
    carries the world reached. *)

From Stdlib Require Import String Ascii ZArith List Bool Lia DecimalString.
From stdpp Require Import gmap strings list fin_maps.
Import ListNotations.

#[local] Open Scope string_scope.
#[local] Open Scope list_scope.
Set Warnings "-register-all".

(** ** JavaScript values carried as payloads *)

Inductive JsVal :=
| JUndefined
| JNull
| JBool (b : bool)
| JNum (z : Z)
| JStr (s : string)
| JObj (fields : list (string * JsVal)).

(** Lookup in an association list of properties: the first binding wins. *)
Fixpoint assoc (k : string) (fs : list (string * JsVal)) : option JsVal :=
  match fs with
  | [] => None
  | (k', v) :: rest => if String.eqb k k' then Some v else assoc k rest
  end.

(** [!v] is true for the falsy values. *)
Definition falsy (v : JsVal) : bool :=
  match v with
  | JUndefined | JNull => true
  | JBool b => negb b
  | JNum z => Z.eqb z 0
  | JStr s => String.eqb s ""
  | JObj _ => false
  end.

(** [v[k]] on a value that is neither null nor undefined; a primitive has
    none of the properties the code reads. *)
Definition prop (v : JsVal) (k : string) : JsVal :=
  match v with
  | JObj fs => match assoc k fs with Some x => x | None => JUndefined end
  | _ => JUndefined
  end.

Definition is_nullish (v : JsVal) : bool :=
  match v with JUndefined | JNull => true | _ => false end.

(** [v === s] for a string literal [s]. *)
Definition strict_eq_str (v : JsVal) (s : string) : bool :=
  match v with JStr x => String.eqb x s | _ => false end.

(** [v === true]. *)
Definition strict_eq_true (v : JsVal) : bool :=
  match v with JBool true => true | _ => false end.

(** [s.indexOf(frag)]: the position of the first occurrence, or -1. *)
Definition indexOf (s frag : string) : Z :=
  match String.index 0 frag s with
  | Some n => Z.of_nat n
  | None => (-1)%Z
  end.

Module WindowMessenger.

(** ** Data model *)

Definition PromiseId := nat.
Definition Callback := nat.
Definition PortId := nat.
Definition WindowRef := nat.

(** The payload built by [send] and [sendReply_]; [send] leaves [isReply]
    out, which reads as false. *)
Record Envelope := {
  env_id : string;
  env_topic : string;
  env_data : JsVal;
  env_isReply : bool
}.

(** An entry of [messages_]. *)
Record PendingExchange := {
  pe_message : JsVal;
  pe_topic : string;
  pe_promiseResolver : PromiseId
}.

(** The functions made by [bind] and registered as event listeners.  [fn] is
    the identity of the function object: every [bind] makes a new one. *)
Inductive Receiver :=
| ListenProc (fn : nat) (allowedOrigins : list string)
    (resolvePromise rejectPromise : PromiseId)
| ConnectProc (fn : nat) (messagePort : PortId)
    (expectedRemoteOrigin : option string) (resolvePromise : PromiseId)
| ChannelProc (fn : nat).

Definition recv_fn (r : Receiver) : nat :=
  match r with
  | ListenProc fn _ _ _ => fn
  | ConnectProc fn _ _ _ => fn
  | ChannelProc fn => fn
  end.

(** What a resolver is called with. *)
Inductive Settle :=
| SVoid
| SReply (data : JsVal) (reply_id reply_topic : string).

Inductive Effect :=
| ECallResolver (p : PromiseId) (v : Settle)
| ECallReject (p : PromiseId) (msg : string)
| EInvoke (cb : Callback) (data : JsVal) (reply_id reply_topic : string)
| EPortPost (port : PortId) (e : Envelope)
| EPortStart (port : PortId)
| EWindowPost (target : WindowRef) (topic : string) (targetOrigin : string)
    (transfer : PortId)
| EUncaught (err : string).

(** ** The prototype of the tables

    What a plain object inherits from [Object.prototype] under a name: a
    built-in function, of which the code can only see the [length], or,
    under [__proto__], the prototype object itself.  All of them are
    truthy, none has a property [push], [indexOf], [promiseResolver] or an
    element 0, and the prototype object has no [length]. *)
Inductive Inherited :=
| BuiltinFunction (length : nat)
| PrototypeObject.

Definition Object_prototype (name : string) : option Inherited :=
  if String.eqb name "constructor" then Some (BuiltinFunction 1)
  else if String.eqb name "hasOwnProperty" then Some (BuiltinFunction 1)
  else if String.eqb name "isPrototypeOf" then Some (BuiltinFunction 1)
  else if String.eqb name "propertyIsEnumerable" then Some (BuiltinFunction 1)
  else if String.eqb name "toLocaleString" then Some (BuiltinFunction 0)
  else if String.eqb name "toString" then Some (BuiltinFunction 0)
  else if String.eqb name "valueOf" then Some (BuiltinFunction 0)
  else if String.eqb name "__defineGetter__" then Some (BuiltinFunction 2)
  else if String.eqb name "__defineSetter__" then Some (BuiltinFunction 2)
  else if String.eqb name "__lookupGetter__" then Some (BuiltinFunction 1)
  else if String.eqb name "__lookupSetter__" then Some (BuiltinFunction 1)
  else if String.eqb name "__proto__" then Some PrototypeObject
  else None.

(** The fields of the class, under their names.  [messages_] and
    [listeners_] are plain objects used as tables from ids and topics: the
    maps below hold their own properties, and a read that finds no own
    property goes on to [Object_prototype].  [listeners_] maps a topic to a
    reference into [arrays], the store of the array objects.

    One id is outside the model: under [__proto__] the assignment of
    [sendReply_] would replace the prototype of [messages_], and the
    assignment to [existingMessage.message] would land on
    [Object.prototype] itself.  The ids that [send] draws are strings of
    digits. *)
Record Messenger := {
  messages_ : gmap string PendingExchange;
  listeners_ : gmap string nat;
  debug_ : bool;
  listening_ : bool;
  connecting_ : bool;
  connected_ : bool;
  channel_ : option nat;
  messagePort_ : option PortId;
  onListenConnectionMessageReceivedProc_ : option Receiver;
  onConnectConnectionMessageReceivedProc_ : option Receiver;
  onChannelMessageReceivedProc_ : option Receiver
}.

(** The messenger and the part of the page it acts on. *)
Record World := {
  self : Messenger;
  arrays : gmap nat (list Callback);
  window_receivers : list Receiver;
  port_receivers : list (PortId * Receiver);
  thens : list (PromiseId * bool);
  settled : list PromiseId;
  microtasks : list bool;
  fresh : nat;
  rand_idx : nat;
  trace : list Effect;
  console : list string
}.

(** What the body of a subscriber does with the messenger when it is called
    with a payload and a reply function. *)
Inductive Action :=
| ActOn (topic : string) (cb : Callback)
| ActOff (topic : string) (cb : option Callback)
| ActReply (data : JsVal)
| ActSend (topic : string) (data : JsVal)
| ActFinish
| ActThrow.

(** ** Field updates *)

Definition set_messages_ (v : gmap string PendingExchange) (m : Messenger) :=
  {| messages_ := v; listeners_ := listeners_ m; debug_ := debug_ m;
     listening_ := listening_ m; connecting_ := connecting_ m;
     connected_ := connected_ m; channel_ := channel_ m;
     messagePort_ := messagePort_ m;
     onListenConnectionMessageReceivedProc_ :=
       onListenConnectionMessageReceivedProc_ m;
     onConnectConnectionMessageReceivedProc_ :=
       onConnectConnectionMessageReceivedProc_ m;
     onChannelMessageReceivedProc_ := onChannelMessageReceivedProc_ m |}.

Definition set_listeners_ (v : gmap string nat) (m : Messenger) :=
  {| messages_ := messages_ m; listeners_ := v; debug_ := debug_ m;
     listening_ := listening_ m; connecting_ := connecting_ m;
     connected_ := connected_ m; channel_ := channel_ m;
     messagePort_ := messagePort_ m;
     onListenConnectionMessageReceivedProc_ :=
       onListenConnectionMessageReceivedProc_ m;
     onConnectConnectionMessageReceivedProc_ :=
       onConnectConnectionMessageReceivedProc_ m;
     onChannelMessageReceivedProc_ := onChannelMessageReceivedProc_ m |}.

Definition set_connected_ (v : bool) (m : Messenger) :=
  {| messages_ := messages_ m; listeners_ := listeners_ m; debug_ := debug_ m;
     listening_ := listening_ m; connecting_ := connecting_ m;
     connected_ := v; channel_ := channel_ m;
     messagePort_ := messagePort_ m;
     onListenConnectionMessageReceivedProc_ :=
       onListenConnectionMessageReceivedProc_ m;
     onConnectConnectionMessageReceivedProc_ :=
       onConnectConnectionMessageReceivedProc_ m;
     onChannelMessageReceivedProc_ := onChannelMessageReceivedProc_ m |}.

Definition set_channel_ (v : option nat) (m : Messenger) :=
  {| messages_ := messages_ m; listeners_ := listeners_ m; debug_ := debug_ m;
     listening_ := listening_ m; connecting_ := connecting_ m;
     connected_ := connected_ m; channel_ := v;
     messagePort_ := messagePort_ m;
     onListenConnectionMessageReceivedProc_ :=
       onListenConnectionMessageReceivedProc_ m;
     onConnectConnectionMessageReceivedProc_ :=
       onConnectConnectionMessageReceivedProc_ m;
     onChannelMessageReceivedProc_ := onChannelMessageReceivedProc_ m |}.

Definition set_messagePort_ (v : option PortId) (m : Messenger) :=
  {| messages_ := messages_ m; listeners_ := listeners_ m; debug_ := debug_ m;
     listening_ := listening_ m; connecting_ := connecting_ m;
     connected_ := connected_ m; channel_ := channel_ m;
     messagePort_ := v;
     onListenConnectionMessageReceivedProc_ :=
       onListenConnectionMessageReceivedProc_ m;
     onConnectConnectionMessageReceivedProc_ :=
       onConnectConnectionMessageReceivedProc_ m;
     onChannelMessageReceivedProc_ := onChannelMessageReceivedProc_ m |}.

Definition set_onListenProc_ (v : option Receiver) (m : Messenger) :=
  {| messages_ := messages_ m; listeners_ := listeners_ m; debug_ := debug_ m;
     listening_ := listening_ m; connecting_ := connecting_ m;
     connected_ := connected_ m; channel_ := channel_ m;
     messagePort_ := messagePort_ m;
     onListenConnectionMessageReceivedProc_ := v;
     onConnectConnectionMessageReceivedProc_ :=
       onConnectConnectionMessageReceivedProc_ m;
     onChannelMessageReceivedProc_ := onChannelMessageReceivedProc_ m |}.

Definition set_onConnectProc_ (v : option Receiver) (m : Messenger) :=
  {| messages_ := messages_ m; listeners_ := listeners_ m; debug_ := debug_ m;
     listening_ := listening_ m; connecting_ := connecting_ m;
     connected_ := connected_ m; channel_ := channel_ m;
     messagePort_ := messagePort_ m;
     onListenConnectionMessageReceivedProc_ :=
       onListenConnectionMessageReceivedProc_ m;
     onConnectConnectionMessageReceivedProc_ := v;
     onChannelMessageReceivedProc_ := onChannelMessageReceivedProc_ m |}.

Definition set_onChannelProc_ (v : option Receiver) (m : Messenger) :=
  {| messages_ := messages_ m; listeners_ := listeners_ m; debug_ := debug_ m;
     listening_ := listening_ m; connecting_ := connecting_ m;
     connected_ := connected_ m; channel_ := channel_ m;
     messagePort_ := messagePort_ m;
     onListenConnectionMessageReceivedProc_ :=
       onListenConnectionMessageReceivedProc_ m;
     onConnectConnectionMessageReceivedProc_ :=
       onConnectConnectionMessageReceivedProc_ m;
     onChannelMessageReceivedProc_ := v |}.

Definition upd_self (f : Messenger -> Messenger) (w : World) :=
  {| self := f (self w); arrays := arrays w;
     window_receivers := window_receivers w;
     port_receivers := port_receivers w; thens := thens w;
     settled := settled w; microtasks := microtasks w; fresh := fresh w;
     rand_idx := rand_idx w; trace := trace w; console := console w |}.

Definition set_arrays (v : gmap nat (list Callback)) (w : World) :=
  {| self := self w; arrays := v;
     window_receivers := window_receivers w;
     port_receivers := port_receivers w; thens := thens w;
     settled := settled w; microtasks := microtasks w; fresh := fresh w;
     rand_idx := rand_idx w; trace := trace w; console := console w |}.

Definition set_window_receivers (v : list Receiver) (w : World) :=
  {| self := self w; arrays := arrays w;
     window_receivers := v;
     port_receivers := port_receivers w; thens := thens w;
     settled := settled w; microtasks := microtasks w; fresh := fresh w;
     rand_idx := rand_idx w; trace := trace w; console := console w |}.

Definition set_port_receivers (v : list (PortId * Receiver)) (w : World) :=
  {| self := self w; arrays := arrays w;
     window_receivers := window_receivers w;
     port_receivers := v; thens := thens w;
     settled := settled w; microtasks := microtasks w; fresh := fresh w;
     rand_idx := rand_idx w; trace := trace w; console := console w |}.

Definition set_thens (v : list (PromiseId * bool)) (w : World) :=
  {| self := self w; arrays := arrays w;
     window_receivers := window_receivers w;
     port_receivers := port_receivers w; thens := v;
     settled := settled w; microtasks := microtasks w; fresh := fresh w;
     rand_idx := rand_idx w; trace := trace w; console := console w |}.

Definition set_settled (v : list PromiseId) (w : World) :=
  {| self := self w; arrays := arrays w;
     window_receivers := window_receivers w;
     port_receivers := port_receivers w; thens := thens w;
     settled := v; microtasks := microtasks w; fresh := fresh w;
     rand_idx := rand_idx w; trace := trace w; console := console w |}.

Definition set_microtasks (v : list bool) (w : World) :=
  {| self := self w; arrays := arrays w;
     window_receivers := window_receivers w;
     port_receivers := port_receivers w; thens := thens w;
     settled := settled w; microtasks := v; fresh := fresh w;
     rand_idx := rand_idx w; trace := trace w; console := console w |}.

Definition set_fresh (v : nat) (w : World) :=
  {| self := self w; arrays := arrays w;
     window_receivers := window_receivers w;
     port_receivers := port_receivers w; thens := thens w;
     settled := settled w; microtasks := microtasks w; fresh := v;
     rand_idx := rand_idx w; trace := trace w; console := console w |}.

Definition set_rand_idx (v : nat) (w : World) :=
  {| self := self w; arrays := arrays w;
     window_receivers := window_receivers w;
     port_receivers := port_receivers w; thens := thens w;
     settled := settled w; microtasks := microtasks w; fresh := fresh w;
     rand_idx := v; trace := trace w; console := console w |}.

Definition set_trace (v : list Effect) (w : World) :=
  {| self := self w; arrays := arrays w;
     window_receivers := window_receivers w;
     port_receivers := port_receivers w; thens := thens w;
     settled := settled w; microtasks := microtasks w; fresh := fresh w;
     rand_idx := rand_idx w; trace := v; console := console w |}.

Definition set_console (v : list string) (w : World) :=
  {| self := self w; arrays := arrays w;
     window_receivers := window_receivers w;
     port_receivers := port_receivers w; thens := thens w;
     settled := settled w; microtasks := microtasks w; fresh := fresh w;
     rand_idx := rand_idx w; trace := trace w; console := v |}.

(** ** The monad of methods *)

Inductive Res (A : Type) :=
| Ok (a : A) (w : World)
| Throw (err : string) (w : World)
| OutOfFuel (w : World).
Arguments Ok {A} a w.
Arguments Throw {A} err w.
Arguments OutOfFuel {A} w.

Definition M (A : Type) := World -> Res A.

Definition world_of {A} (r : Res A) : World :=
  match r with Ok _ w => w | Throw _ w => w | OutOfFuel w => w end.

Definition ret {A} (a : A) : M A := fun w => Ok a w.

Definition bind {A B} (m : M A) (k : A -> M B) : M B :=
  fun w =>
    match m w with
    | Ok a w' => k a w'
    | Throw e w' => Throw e w'
    | OutOfFuel w' => OutOfFuel w'
    end.

Definition get : M World := fun w => Ok w w.
Definition modify (f : World -> World) : M unit := fun w => Ok tt (f w).
Definition throw {A} (err : string) : M A := fun w => Throw err w.

Notation "'do' x <- m ; k" := (bind m (fun x => k))
  (at level 10, x name, m at level 100, k at level 200).
Notation "m ;; k" := (bind m (fun _ => k))
  (at level 100, k at level 200, right associativity).

Definition when (b : bool) (m : M unit) : M unit := if b then m else ret tt.

Definition TypeError : string := "TypeError".

(** ** Host operations *)

Definition log (site : string) : M unit :=
  modify (fun w => set_console (console w ++ [site]) w).

Definition emit (e : Effect) : M unit :=
  modify (fun w => set_trace (trace w ++ [e]) w).

Definition new_id : M nat :=
  do w <- get; modify (set_fresh (S (fresh w))) ;; ret (fresh w).

Definition this : M Messenger := do w <- get; ret (self w).

Definition debug_log (site : string) : M unit :=
  do m <- this; when (debug_ m) (log site).

(** Calling the [resolve] function of a promise.  The call is recorded; it
    settles the promise only the first time, and then queues the [then]
    callback that [listen] attached, if there is one. *)
Definition call_resolver (p : PromiseId) (v : Settle) : M unit :=
  emit (ECallResolver p v) ;;
  do w <- get;
  if existsb (Nat.eqb p) (settled w) then ret tt
  else
    modify (set_settled (settled w ++ [p])) ;;
    modify (fun w => set_microtasks
      (microtasks w ++
         map snd (List.filter (fun t => Nat.eqb (fst t) p) (thens w))) w).

(** Calling the [reject] function of a promise. *)
Definition call_reject (p : PromiseId) (msg : string) : M unit :=
  emit (ECallReject p msg) ;;
  do w <- get;
  if existsb (Nat.eqb p) (settled w) then ret tt
  else modify (set_settled (settled w ++ [p])).

(** [target.addEventListener('message', r)]: a listener that is already
    registered is not added again. *)
Definition add_receiver (r : Receiver) (l : list Receiver) : list Receiver :=
  if existsb (fun r' => Nat.eqb (recv_fn r') (recv_fn r)) l then l else l ++ [r].

(** [target.removeEventListener('message', r)]; [r] may be null. *)
Definition remove_receiver (r : option Receiver) (l : list Receiver) : list Receiver :=
  match r with
  | Some r => List.filter (fun r' => negb (Nat.eqb (recv_fn r') (recv_fn r))) l
  | None => l
  end.


Definition add_port_receiver (port : PortId) (r : Receiver)
    (l : list (PortId * Receiver)) : list (PortId * Receiver) :=
  if existsb (fun pr => Nat.eqb (fst pr) port && Nat.eqb (recv_fn (snd pr)) (recv_fn r)) l
  then l else l ++ [(port, r)].

Definition remove_port_receiver (port : PortId) (r : option Receiver)
    (l : list (PortId * Receiver)) : list (PortId * Receiver) :=
  match r with
  | Some r =>
      List.filter
        (fun pr => negb (Nat.eqb (fst pr) port && Nat.eqb (recv_fn (snd pr)) (recv_fn r))) l
  | None => l
  end.

(** An exception that leaves an event listener or a promise reaction is
    reported by the host and does not stop the page. *)
Definition uncaught (m : M unit) : M unit :=
  fun w =>
    match m w with
    | Throw e w' => emit (EUncaught e) w'
    | r => r
    end.

(** An exception that leaves the executor of [new Promise] rejects it. *)
Definition executor (p : PromiseId) (m : M unit) : M unit :=
  fun w =>
    match m w with
    | Throw e w' => call_reject p e w'
    | r => r
    end.

(** ** [WindowMessenger.Topics] *)

Record MessengerTopics := {
  CONNECT_HANDSHAKE : string;
  NOTIFICATION_PERMISSION_STATE : string;
  SERVICE_WORKER_STATE : string;
  SERVICE_WORKER_REGISTRATION : string;
  SERVICE_WORKER_QUERY : string;
  ORIGIN_SUBSCRIPTION_STATE : string
}.

Definition Topics : MessengerTopics := {|
  CONNECT_HANDSHAKE := "topic-connect-handshake";
  NOTIFICATION_PERMISSION_STATE := "topic-notification-permission-state";
  SERVICE_WORKER_STATE := "topic-service-worker-state";
  SERVICE_WORKER_REGISTRATION := "topic-service-worker-registration";
  SERVICE_WORKER_QUERY := "topic-service-worker-query";
  ORIGIN_SUBSCRIPTION_STATE := "topic-origin-subscription-state"
|}.

(** ** The constructor *)

Record MessengerOptions := { opt_debug : bool }.

Definition new_Messenger (options : option MessengerOptions) : Messenger := {|
  messages_ := ∅;
  listeners_ := ∅;
  debug_ := match options with Some o => opt_debug o | None => false end;
  listening_ := false;
  connecting_ := false;
  connected_ := false;
  channel_ := None;
  messagePort_ := None;
  onListenConnectionMessageReceivedProc_ := None;
  onConnectConnectionMessageReceivedProc_ := None;
  onChannelMessageReceivedProc_ := None
|}.

(** A page on which a messenger has just been constructed. *)
Definition new_World (options : option MessengerOptions) : World := {|
  self := new_Messenger options;
  arrays := ∅;
  window_receivers := [];
  port_receivers := [];
  thens := [];
  settled := [];
  microtasks := [];
  fresh := 0;
  rand_idx := 0;
  trace := [];
  console := []
|}.

(** The window event and what it carries. *)
Record MessageEvent := {
  ev_data : JsVal;
  ev_origin : string;
  ev_ports : list PortId
}.

(** [Uint8Array.join('')]: the decimal numerals of the bytes, one after the
    other. *)
Definition join_bytes (bs : list N) : string :=
  String.concat "" (map (fun b => NilZero.string_of_uint (N.to_uint b)) bs).

(** [arr.indexOf(cb)], [None] standing for -1. *)
Fixpoint array_indexOf (cb : Callback) (l : list Callback) : option nat :=
  match l with
  | [] => None
  | x :: rest => if Nat.eqb x cb then Some 0 else option_map S (array_indexOf cb rest)
  end.

(** The array a reference of [listeners_] points to. *)
Definition array_at (w : World) (r : nat) : list Callback :=
  default [] (arrays w !! r).

Section Methods.

(** [new URL(s).origin], [None] when the constructor throws. *)
Variable URL_origin : string -> option string.

(** [crypto.getRandomValues(new Uint8Array(10))] at its n-th call. *)
Variable getRandomValues : nat -> list N.

(** The bodies of the callbacks handed to [on]. *)
Variable body : Callback -> JsVal -> list Action.

Definition new_URL_origin (s : string) : M string :=
  match URL_origin s with
  | Some o => ret o
  | None => throw TypeError
  end.

Definition random_id : M string :=
  do w <- get;
  modify (set_rand_idx (S (rand_idx w))) ;;
  ret (join_bytes (getRandomValues (rand_idx w))).

(** [this.messagePort_.postMessage(payload)] *)
Definition postMessage (payload : Envelope) : M unit :=
  do m <- this;
  match messagePort_ m with
  | None => throw TypeError
  | Some port => emit (EPortPost port payload)
  end.

(** [new Promise(resolve => { this.messages_[id] = {...} })] *)
Definition register_exchange (id topic : string) (data : JsVal) : M PromiseId :=
  do p <- new_id;
  modify (upd_self (fun m =>
    set_messages_
      (<[id := {| pe_message := data; pe_topic := topic;
                  pe_promiseResolver := p |}]> (messages_ m)) m)) ;;
  ret p.

Definition sendReply_ (id topic : string) (data : JsVal) : M PromiseId :=
  let payload :=
    {| env_id := id; env_topic := topic; env_data := data; env_isReply := true |} in
  postMessage payload ;;
  register_exchange id topic data.

Definition send (topic : string) (data : JsVal) : M PromiseId :=
  do id <- random_id;
  let payload :=
    {| env_id := id; env_topic := topic; env_data := data; env_isReply := false |} in
  debug_log "Sending" ;;
  postMessage payload ;;
  register_exchange id topic data.

Definition finishListenHandshake : M unit :=
  send (CONNECT_HANDSHAKE Topics) JNull ;;
  modify (upd_self (set_connected_ true)).

(** [on]: a topic without a list of its own that finds a member of
    [Object.prototype] takes the first branch with it, and that member has
    no [push]. *)
Definition on (topic : string) (callback : Callback) : M unit :=
  do w <- get;
  match listeners_ (self w) !! topic with
  | Some r => modify (set_arrays (<[r := array_at w r ++ [callback]]> (arrays w)))
  | None =>
      match Object_prototype topic with
      | Some _ => throw TypeError
      | None =>
          do r <- new_id;
          modify (fun w => set_arrays (<[r := [callback]]> (arrays w)) w) ;;
          modify (upd_self (fun m =>
            set_listeners_ (<[topic := r]> (listeners_ m)) m))
      end
  end.

(** [off]: without a list of its own, [this.listeners_[topic]] is undefined
    or a member of [Object.prototype]; neither has an [indexOf], and
    [delete] finds no own property to remove. *)
Definition off (topic : string) (callback : option Callback) : M unit :=
  do w <- get;
  match callback with
  | Some cb =>
      match listeners_ (self w) !! topic with
      | None => throw TypeError
      | Some r =>
          match array_indexOf cb (array_at w r) with
          | Some callbackIndex =>
              modify (set_arrays (<[r := delete callbackIndex (array_at w r)]> (arrays w)))
          | None => ret tt
          end
      end
  | None =>
      match listeners_ (self w) !! topic with
      | Some _ =>
          modify (upd_self (fun m => set_listeners_ (delete topic (listeners_ m)) m))
      | None => ret tt
      end
  end.

(** One statement of a subscriber's body; [reply_id] and [reply_topic] are
    what [sendReply_.bind] fixed in the reply function it was given. *)
Definition exec_action (reply_id reply_topic : string) (a : Action) : M unit :=
  match a with
  | ActOn t cb => on t cb
  | ActOff t cb => off t cb
  | ActReply d => sendReply_ reply_id reply_topic d ;; ret tt
  | ActSend t d => send t d ;; ret tt
  | ActFinish => finishListenHandshake
  | ActThrow => throw "Error"
  end.

Fixpoint run_body (reply_id reply_topic : string) (l : list Action) : M unit :=
  match l with
  | [] => ret tt
  | a :: rest => exec_action reply_id reply_topic a ;; run_body reply_id reply_topic rest
  end.

(** [listener(message['data'], this.sendReply_.bind(this, id, topic))] *)
Definition call_listener (cb : Callback) (message : Envelope) : M unit :=
  emit (EInvoke cb (env_data message) (env_id message) (env_topic message)) ;;
  run_body (env_id message) (env_topic message) (body cb (env_data message)).

(** [for (let i = 0; i < listeners.length; i++) listeners[i](...)], where
    [listeners] is the array object [r]: its length and its elements are
    read again at every turn.  [fuel] bounds the number of calls. *)
Fixpoint dispatch_loop (fuel : nat) (r : nat) (i : nat) (message : Envelope) : M unit :=
  fun w =>
    match array_at w r !! i with
    | None => Ok tt w
    | Some listener =>
        match fuel with
        | 0 => OutOfFuel w
        | S fuel' =>
            (call_listener listener message ;;
             dispatch_loop fuel' r (S i) message) w
        end
    end.

(** The [else] branch of [onChannelMessageReceived_].  A topic without a
    list of its own may still find a member of [Object.prototype]: the loop
    then runs up to the [length] of that member and calls its element 0,
    which is undefined. *)
Definition dispatch_new_message (fuel : nat) (message : Envelope) : M unit :=
  do m <- this;
  match listeners_ m !! env_topic message with
  | Some listeners =>
      debug_log "Received new message for topic" ;;
      dispatch_loop fuel listeners 0 message
  | None =>
      match Object_prototype (env_topic message) with
      | Some (BuiltinFunction length) =>
          debug_log "Received new message for topic" ;;
          if Nat.ltb 0 length then throw TypeError else ret tt
      | Some PrototypeObject => debug_log "Received new message for topic"
      | None => ret tt
      end
  end.

(** The assignment [existingMessage.message = message['data']] changes an
    object that has just left [messages_] and that nothing reads again.  An
    id without an exchange of its own may still find a member of
    [Object.prototype], which is truthy: [delete] then removes nothing and
    [promiseResolver] is undefined when it is called. *)
Definition onChannelMessageReceived_ (fuel : nat) (message : Envelope) : M unit :=
  do m <- this;
  match messages_ m !! env_id message, env_isReply message with
  | Some existingMessage, true =>
      modify (upd_self (fun m =>
        set_messages_ (delete (env_id message) (messages_ m)) m)) ;;
      debug_log "Received reply for topic" ;;
      call_resolver (pe_promiseResolver existingMessage)
        (SReply (env_data message) (env_id message) (pe_topic existingMessage))
  | None, true =>
      match Object_prototype (env_id message) with
      | Some _ => debug_log "Received reply for topic" ;; throw TypeError
      | None => dispatch_new_message fuel message
      end
  | _, false => dispatch_new_message fuel message
  end.

Fixpoint isAllowedOrigin_loop (normalizedOrigin : string)
    (allowedOrigins : list string) : M bool :=
  match allowedOrigins with
  | [] => ret false
  | allowedOrigin :: rest =>
      do o <- new_URL_origin allowedOrigin;
      if String.eqb o normalizedOrigin then ret true
      else isAllowedOrigin_loop normalizedOrigin rest
  end.

Definition isAllowedOrigin_ (origin : string) (allowedOrigins : list string) : M bool :=
  do normalizedOrigin <- new_URL_origin origin;
  isAllowedOrigin_loop normalizedOrigin allowedOrigins.

Definition onListenConnectionMessageReceived_ (allowedOrigins : list string)
    (resolvePromise rejectPromise : PromiseId)
    (messageChannelEvent : MessageEvent) : M unit :=
  let message := ev_data messageChannelEvent in
  let origin := ev_origin messageChannelEvent in
  let messagePorts := ev_ports messageChannelEvent in
  debug_log "Window message for listen() connection received:" ;;
  do allowed <- isAllowedOrigin_ origin allowedOrigins;
  if negb allowed then
    log "Discarding connection message because it isn't an allowed origin:"
  else if falsy message
          || negb (strict_eq_str (prop message "topic") (CONNECT_HANDSHAKE Topics)) then
    log "Discarding connection message because it did not contain our expected handshake:"
  else
    log "Received expected connection handshake message:" ;;
    do m <- this;
    modify (fun w => set_window_receivers
      (remove_receiver (onListenConnectionMessageReceivedProc_ m) (window_receivers w)) w) ;;
    modify (upd_self (set_messagePort_ (head messagePorts))) ;;
    do fn <- new_id;
    modify (upd_self (set_onChannelProc_ (Some (ChannelProc fn)))) ;;
    match head messagePorts with
    | None => throw TypeError
    | Some port =>
        modify (fun w => set_port_receivers
          (add_port_receiver port (ChannelProc fn) (port_receivers w)) w) ;;
        emit (EPortStart port) ;;
        call_resolver resolvePromise SVoid
    end.

(** The callback [listen] passes to [then]. *)
Definition listen_then (delayConnectHandshake : bool) : M unit :=
  if delayConnectHandshake then
    debug_log "Delaying connection handshake indefinitely..."
  else
    send (CONNECT_HANDSHAKE Topics) JNull ;;
    modify (upd_self (set_connected_ true)).

(** [allowedOrigins] is [None] when the argument is not an array.  The
    result names the promise the executor belongs to; the promise handed to
    the caller is the one [then] derives from it. *)
Definition listen (allowedOrigins : option (list string))
    (delayConnectHandshake : bool) : M PromiseId :=
  do p <- new_id;
  executor p
    (do m <- this;
     if connected_ m then call_reject p "Already connected."
     else if listening_ m then call_reject p "Already listening for connections."
     else
       match allowedOrigins with
       | None => call_reject p "allowedOrigins should be a string array"
       | Some origins =>
           do fn <- new_id;
           let proc := ListenProc fn origins p p in
           modify (upd_self (set_onListenProc_ (Some proc))) ;;
           modify (fun w => set_window_receivers
             (add_receiver proc (window_receivers w)) w) ;;
           debug_log "Listening for a connection message..."
       end) ;;
  modify (fun w => set_thens (thens w ++ [(p, delayConnectHandshake)]) w) ;;
  ret p.

(** [!remoteWindowContext] *)
Definition window_missing (c : option WindowRef) : bool :=
  match c with
  | None => true
  | Some _ => false
  end.

(** [!expectedRemoteOrigin] *)
Definition origin_missing (o : option string) : bool :=
  match o with
  | None => true
  | Some s => String.eqb s ""
  end.

(** The second argument of [postMessage].  An absent origin reaches
    [new URL] as the text of undefined or null, which is no absolute URL. *)
Definition targetOrigin (expectedRemoteOrigin : option string) : M string :=
  match expectedRemoteOrigin with
  | None => throw TypeError
  | Some o => if String.eqb o "*" then ret "*" else new_URL_origin o
  end.

(** [remoteWindowContext] is [None] when the argument is null or undefined. *)
Definition connect (remoteWindowContext : option WindowRef)
    (expectedRemoteOrigin : option string) : M PromiseId :=
  do p <- new_id;
  executor p
    (when (window_missing remoteWindowContext)
       (call_reject p "Provide a valid Window context to connect to.") ;;
     when (origin_missing expectedRemoteOrigin)
       (call_reject p "Provide an expected origin for the remote Window or provide the wildcard *.") ;;
     do m <- this;
     if connected_ m then call_reject p "Already connected."
     else if connecting_ m then call_reject p "Already connecting."
     else
       do c <- new_id;
       do port1 <- new_id;
       do port2 <- new_id;
       modify (upd_self (set_channel_ (Some c))) ;;
       modify (upd_self (set_messagePort_ (Some port1))) ;;
       do fn <- new_id;
       let proc := ConnectProc fn port1 expectedRemoteOrigin p in
       modify (upd_self (set_onConnectProc_ (Some proc))) ;;
       modify (fun w => set_port_receivers
         (add_port_receiver port1 proc (port_receivers w)) w) ;;
       emit (EPortStart port1) ;;
       match remoteWindowContext with
       | None => throw TypeError
       | Some target =>
           do o <- targetOrigin expectedRemoteOrigin;
           emit (EWindowPost target (CONNECT_HANDSHAKE Topics) o port2)
       end ;;
       log "Opening channel to") ;;
  ret p.

Definition onConnectConnectionMessageReceived_ (messagePort : PortId)
    (expectedRemoteOrigin : option string) (resolvePromise : PromiseId) : M unit :=
  modify (upd_self (set_connected_ true)) ;;
  debug_log "Messenger channel established." ;;
  do m <- this;
  modify (fun w => set_port_receivers
    (remove_port_receiver messagePort (onConnectConnectionMessageReceivedProc_ m)
       (port_receivers w)) w) ;;
  do fn <- new_id;
  modify (upd_self (set_onChannelProc_ (Some (ChannelProc fn)))) ;;
  modify (fun w => set_port_receivers
    (add_port_receiver messagePort (ChannelProc fn) (port_receivers w)) w) ;;
  call_resolver resolvePromise SVoid.


(** ** Events of the page *)

Definition invoke_window_receiver (r : Receiver) (ev : MessageEvent) : M unit :=
  match r with
  | ListenProc _ allowedOrigins resolvePromise rejectPromise =>
      onListenConnectionMessageReceived_ allowedOrigins resolvePromise rejectPromise ev
  | _ => ret tt
  end.

Definition invoke_port_receiver (fuel : nat) (r : Receiver) (message : Envelope) : M unit :=
  match r with
  | ConnectProc _ messagePort expectedRemoteOrigin resolvePromise =>
      onConnectConnectionMessageReceived_ messagePort expectedRemoteOrigin resolvePromise
  | ChannelProc _ => onChannelMessageReceived_ fuel message
  | ListenProc _ _ _ _ => ret tt
  end.

(** A message event on the window runs the listeners that were registered
    when it was dispatched and that have not been removed since. *)
Fixpoint dispatch_window (snapshot : list Receiver) (ev : MessageEvent) : M unit :=
  match snapshot with
  | [] => ret tt
  | r :: rest =>
      do w <- get;
      when (existsb (fun r' => Nat.eqb (recv_fn r') (recv_fn r)) (window_receivers w))
        (uncaught (invoke_window_receiver r ev)) ;;
      dispatch_window rest ev
  end.

Fixpoint dispatch_port (fuel : nat) (port : PortId) (snapshot : list (PortId * Receiver))
    (message : Envelope) : M unit :=
  match snapshot with
  | [] => ret tt
  | (port', r) :: rest =>
      do w <- get;
      when (Nat.eqb port' port
            && existsb (fun pr => Nat.eqb (fst pr) port
                                  && Nat.eqb (recv_fn (snd pr)) (recv_fn r))
                 (port_receivers w))
        (uncaught (invoke_port_receiver fuel r message)) ;;
      dispatch_port fuel port rest message
  end.

(** The reactions queued by settled promises run once the current task is
    over. *)
Fixpoint run_microtasks (l : list bool) : M unit :=
  match l with
  | [] => ret tt
  | delayConnectHandshake :: rest =>
      uncaught (listen_then delayConnectHandshake) ;; run_microtasks rest
  end.

Definition drain : M unit :=
  do w <- get;
  modify (set_microtasks []) ;;
  run_microtasks (microtasks w).

Inductive Event :=
| WindowMessage (ev : MessageEvent)
| PortMessage (port : PortId) (message : Envelope)
| CallOn (topic : string) (cb : Callback)
| CallOff (topic : string) (cb : option Callback)
| CallSend (topic : string) (data : JsVal)
| CallListen (allowedOrigins : option (list string)) (delayConnectHandshake : bool)
| CallConnect (remoteWindowContext : option WindowRef)
    (expectedRemoteOrigin : option string)
| CallFinishListenHandshake.

(** One task of the event loop. *)
Definition step (fuel : nat) (e : Event) : M unit :=
  match e with
  | WindowMessage ev =>
      do w <- get; dispatch_window (window_receivers w) ev
  | PortMessage port message =>
      do w <- get; dispatch_port fuel port (port_receivers w) message
  | CallOn topic cb => uncaught (on topic cb)
  | CallOff topic cb => uncaught (off topic cb)
  | CallSend topic data => uncaught (send topic data ;; ret tt)
  | CallListen allowedOrigins delayConnectHandshake =>
      uncaught (listen allowedOrigins delayConnectHandshake ;; ret tt)
  | CallConnect remoteWindowContext expectedRemoteOrigin =>
      uncaught (connect remoteWindowContext expectedRemoteOrigin ;; ret tt)
  | CallFinishListenHandshake => uncaught finishListenHandshake
  end ;;
  drain.

Fixpoint run_events (fuel : nat) (es : list Event) : M unit :=
  match es with
  | [] => ret tt
  | e :: rest => step fuel e ;; run_events fuel rest
  end.

End Methods.

End WindowMessenger.

(** * The helper frame and the alternate subscription checker *)

Module HelperFrame.

Import WindowMessenger.

(** How an awaited promise ends. *)
Inductive Outcome (A : Type) :=
| Fulfilled (a : A)
| Rejected (err : string)
| Pending.
Arguments Fulfilled {A} a.
Arguments Rejected {A} err.
Arguments Pending {A}.

(** The callback [message => { resolve(message) }] that
    [isSubscribedToAltOrigin] subscribes. *)
Definition resolve_cb : Callback := 0.

(** The payload of the first call of [cb] recorded in a trace. *)
Fixpoint first_invoke (cb : Callback) (t : list Effect) : option JsVal :=
  match t with
  | [] => None
  | EInvoke cb' data _ _ :: rest =>
      if Nat.eqb cb' cb then Some data else first_invoke cb rest
  | _ :: rest => first_invoke cb rest
  end.

(** The value of the return expression of [isSubscribedToAltOrigin], [None]
    when its evaluation throws a TypeError. *)
Definition is_subscribed_state (subscriptionState : JsVal) : option bool :=
  if is_nullish subscriptionState then None
  else if negb (strict_eq_str (prop subscriptionState "notificationPermission") "granted")
  then Some false
  else if negb (strict_eq_true (prop subscriptionState "serviceWorkerIsControllingFrame"))
  then Some false
  else if negb (strict_eq_str (prop subscriptionState "serviceWorkerState") "activated")
  then Some false
  else if negb (strict_eq_true (prop subscriptionState "serviceWorkerSubscriptionState"))
  then Some false
  else
    match prop subscriptionState "serviceWorkerUrl" with
    | JStr serviceWorkerUrl =>
        Some (negb (Z.eqb (indexOf serviceWorkerUrl "OneSignalSDKWorker.js") (-1)))
    | _ => None
    end.

Section Checker.

Variable URL_origin : string -> option string.
Variable getRandomValues : nat -> list N.

(** What loading a URL in the nested iframe brings about: [None] when the
    iframe never fires its load event, otherwise the events that reach the
    messenger of the probe. *)
Variable remote : string -> option (list Event).

(** Bound on the listener calls of one dispatch. *)
Variable fuel : nat.

(** [await subscriptionStatePromise], after [messenger.on], [new URL] and
    [messenger.listen]: the promise is resolved by the subscriber with the
    payload of the first message on the topic of subscription states that
    reaches the messenger of the probe. *)
Definition subscriptionStatePromise (url : string) : Outcome JsVal :=
  let messenger := new_World (Some {| opt_debug := false |}) in
  let body := fun (_ : Callback) (_ : JsVal) => @nil Action in
  match on (ORIGIN_SUBSCRIPTION_STATE Topics) resolve_cb messenger with
  | Ok _ w1 =>
      match URL_origin url with
      | None => Rejected TypeError
      | Some origin =>
          let w2 := world_of (step URL_origin getRandomValues body fuel
                                (CallListen (Some [origin]) false) w1) in
          match remote url with
          | None => Pending
          | Some events =>
              let w3 := world_of (run_events URL_origin getRandomValues body fuel events w2) in
              match first_invoke resolve_cb (trace w3) with
              | None => Pending
              | Some subscriptionState => Fulfilled subscriptionState
              end
          end
      end
  | _ => Rejected TypeError
  end.

Definition isSubscribedToAltOrigin (url : string) : Outcome bool :=
  match subscriptionStatePromise url with
  | Fulfilled subscriptionState =>
      match is_subscribed_state subscriptionState with
      | Some b => Fulfilled b
      | None => Rejected TypeError
      end
  | Rejected e => Rejected e
  | Pending => Pending
  end.

(** [await this.timeoutForever()] *)
Definition timeoutForever : Outcome unit := Pending.

Fixpoint run_loop (urls : list string) : Outcome unit :=
  match urls with
  | [] => Fulfilled tt
  | url :: rest =>
      match isSubscribedToAltOrigin url with
      | Fulfilled isSubscribed =>
          match URL_origin url with
          | None => Rejected TypeError
          | Some _ =>
              if isSubscribed then
                match timeoutForever with
                | Fulfilled _ => run_loop rest
                | Rejected e => Rejected e
                | Pending => Pending
                end
              else run_loop rest
          end
      | Rejected e => Rejected e
      | Pending => Pending
      end
  end.

(** [AlternateSubscriptionChecker.run], on the [urls] the constructor kept. *)
Definition run (urls : list string) : Outcome unit :=
  if Nat.ltb 0 (length urls) then run_loop urls else Fulfilled tt.

(** [new AlternateSubscriptionChecker(urlsToCheck)]: [urls || []]. *)
Definition checker_urls (urlsToCheck : option (list string)) : list string :=
  match urlsToCheck with Some urls => urls | None => [] end.

(** The bodies of the four subscribers of the helper frame. *)
Variable body : Callback -> JsVal -> list Action.

(** [this.getParentOrigin_()], given the parentOrigin query parameter. *)
Definition getParentOrigin_ (parentOrigin : option string) : M string :=
  match parentOrigin with
  | Some o => if String.eqb o "" then throw "Error" else ret o
  | None => throw "Error"
  end.

Definition listenPartially (allowedOrigin parentOrigin : option string) : M unit :=
  on (NOTIFICATION_PERMISSION_STATE Topics) 0 ;;
  on (SERVICE_WORKER_STATE Topics) 1 ;;
  on (SERVICE_WORKER_REGISTRATION Topics) 2 ;;
  on (SERVICE_WORKER_QUERY Topics) 3 ;;
  do origin <-
    (match allowedOrigin with
     | Some o => if String.eqb o "" then getParentOrigin_ parentOrigin else ret o
     | None => getParentOrigin_ parentOrigin
     end);
  listen (Some [origin]) true ;;
  ret tt.

(** The function [run] at the end of the file, exported as
    [runAmpWebPushHelperFrame].  It builds the helper frame with debug set,
    starts the suspended listener, awaits the checker and then finishes the
    handshake.  [inbound] is what reaches the messenger of the helper frame
    while the checker runs.  The listener for service worker messages that
    [listenPartially] also installs is outside the messenger and left out. *)
Definition runAmpWebPushHelperFrame (parentOrigin : option string)
    (urlsToCheck : option (list string)) (inbound : list Event) : Res unit :=
  let helperFrame := new_World (Some {| opt_debug := true |}) in
  (listenPartially None parentOrigin ;;
   drain getRandomValues ;;
   run_events URL_origin getRandomValues body fuel inbound ;;
   match run (checker_urls urlsToCheck) with
   | Fulfilled _ => finishListenHandshake getRandomValues
   | _ => ret tt
   end) helperFrame.

End Checker.

End HelperFrame.

(** * The pages of the frames and their service worker *)

Module Page.

(** [navigator.serviceWorker.controller] *)
Record ServiceWorker := {
  scriptURL : string;
  state : string
}.

(** What a frame reads of its page: [Notification.permission], whether
    [navigator.serviceWorker] is there at all, and the controller. *)
Record Page := {
  permission : string;
  serviceWorker : bool;
  controller : option ServiceWorker
}.

End Page.

(** * The remote frame *)

Module RemoteFrame.

Import WindowMessenger HelperFrame Page.

(** The object literal of [getSubscriptionState] with its five
    properties. *)
Definition subscription_state (notificationPermission serviceWorkerUrl
    serviceWorkerState serviceWorkerIsControllingFrame
    serviceWorkerSubscriptionState : JsVal) : JsVal :=
  JObj [("notificationPermission", notificationPermission);
        ("serviceWorkerUrl", serviceWorkerUrl);
        ("serviceWorkerState", serviceWorkerState);
        ("serviceWorkerIsControllingFrame", serviceWorkerIsControllingFrame);
        ("serviceWorkerSubscriptionState", serviceWorkerSubscriptionState)].

(** [getSubscriptionState].  [workerReply] is what the promise of
    [messageServiceWorkerAndAwaitReply] is fulfilled with, [None] when it
    never is. *)
Definition getSubscriptionState (page : Page) (workerReply : option JsVal)
    : Outcome JsVal :=
  let unknown :=
    subscription_state (JStr (permission page))
      JUndefined JUndefined JUndefined JUndefined in
  if serviceWorker page then
    match controller page with
    | Some worker =>
        match workerReply with
        | Some subscriptionState =>
            Fulfilled
              (subscription_state (JStr (permission page))
                 (JStr (scriptURL worker)) (JStr (state worker)) (JBool true)
                 subscriptionState)
        | None => Pending
        end
    | None => Fulfilled unknown
    end
  else Fulfilled unknown.

End RemoteFrame.

(** * The subscribers of the helper frame *)

Module HelperSubscribers.

Import WindowMessenger Page.

(** The object that [replyToFrameWithPayload_] passes to the reply
    function. *)
Definition reply_payload (wasSuccessful : bool) (errorPayload successPayload : JsVal)
    : JsVal :=
  JObj [("success", JBool wasSuccessful);
        ("error", if wasSuccessful then JUndefined else errorPayload);
        ("result", if wasSuccessful then successPayload else JUndefined)].

Definition replyToFrameWithPayload_ (replyToFrameFunction : JsVal -> M unit)
    (wasSuccessful : bool) (errorPayload successPayload : JsVal) : M unit :=
  replyToFrameFunction (reply_payload wasSuccessful errorPayload successPayload).

(** The object built by [onAmpPageMessageReceivedServiceWorkerState_]. *)
Definition serviceWorkerState (page : Page) : JsVal :=
  JObj [("isControllingFrame",
         JBool (match controller page with Some _ => true | None => false end));
        ("url",
         match controller page with
         | Some worker => JStr (scriptURL worker)
         | None => JNull
         end);
        ("state",
         match controller page with
         | Some worker => JStr (state worker)
         | None => JNull
         end)].

(** The test that opens
    [onAmpPageMessageReceivedServiceWorkerRegistration_]. *)
Definition registration_invalid (message : JsVal) : bool :=
  falsy message
  || falsy (prop message "workerUrl")
  || falsy (prop message "registrationOptions").

(** The test that opens [onAmpPageMessageReceivedServiceWorkerQuery_]. *)
Definition query_invalid (message : JsVal) : bool :=
  falsy message || falsy (prop message "topic").

(** What the four callbacks that [listenPartially] subscribes do with the
    messenger before they return, in the order of their subscription.  The
    first two answer at once.  The last two answer from promise reactions,
    later: of them only the checks that throw are part of the call. *)
Definition helper_body (page : Page) (cb : Callback) (message : JsVal)
    : list Action :=
  match cb with
  | 0 => [ActReply (reply_payload true JNull (JStr (permission page)))]
  | 1 =>
      if serviceWorker page then
        [ActReply (reply_payload true JNull (serviceWorkerState page))]
      else [ActThrow]
  | 2 =>
      if registration_invalid message then [ActThrow]
      else if serviceWorker page then []
      else [ActThrow]
  | 3 => if query_invalid message then [ActThrow] else []
  | _ => []
  end.

(** How [navigator.serviceWorker.register] ends. *)
Inductive Registration :=
| Registered
| Refused (error : JsVal).

(** [error ? (error.message || error.toString()) : null], given what
    [toString] returns. *)
Definition error_text (toString : JsVal -> string) (error : JsVal) : JsVal :=
  if falsy error then JNull
  else if falsy (prop error "message") then JStr (toString error)
  else prop error "message".

(** The reactions that [onAmpPageMessageReceivedServiceWorkerRegistration_]
    attaches to the promise of [register]: the one of [then], and the one of
    [catch], which also receives what the first one throws. *)
Definition registration_settled (toString : JsVal -> string)
    (replyToFrame : JsVal -> M unit) (outcome : Registration) : M unit :=
  let caught error :=
    replyToFrameWithPayload_ replyToFrame true JNull (error_text toString error) in
  match outcome with
  | Registered =>
      fun w =>
        match replyToFrameWithPayload_ replyToFrame true JNull JNull w with
        | Throw e w' => caught (JObj [("message", JStr e)]) w'
        | r => r
        end
  | Refused error => caught error
  end.

End HelperSubscribers.

(** * utils.ts: the query string parser *)

Module Utils.

(** A string is read as the sequence of its code units.  The class of the
    characters of a name: any but = and &. *)
Definition name_char (c : ascii) : bool :=
  negb (Ascii.eqb c "="%char) && negb (Ascii.eqb c "&"%char).

(** The class of the characters of a value: any but &. *)
Definition value_char (c : ascii) : bool := negb (Ascii.eqb c "&"%char).

(** The longest prefix of [s] made of characters of a class, and what
    follows it. *)
Fixpoint span (p : ascii -> bool) (s : string) : string * string :=
  match s with
  | EmptyString => (EmptyString, EmptyString)
  | String c rest =>
      if p c then
        let (taken, left) := span p rest in (String c taken, left)
      else (EmptyString, s)
  end.

(** [s] without its first [n] characters. *)
Fixpoint drop_string (n : nat) (s : string) : string :=
  match n, s with
  | S n', String _ rest => drop_string n' rest
  | _, _ => s
  end.

(** A match: group 1, group 2 ([None] when it takes no part), and what
    follows the match. *)
Definition Match : Type := string * option string * string.

(** The part of the pattern that follows the first group, at the head of
    [s]: a name, one or more characters other than = and &, then optionally
    = and a value of characters other than &.  Both repetitions are greedy
    and what follows them can match nothing, so they take the longest
    run. *)
Definition pair_here (s : string) : option Match :=
  let (name, rest) := span name_char s in
  match name with
  | EmptyString => None
  | _ =>
      match rest with
      | String c rest' =>
          if Ascii.eqb c "="%char then
            let (value, rest'') := span value_char rest' in
            Some (name, Some value, rest'')
          else Some (name, None, rest)
      | EmptyString => Some (name, None, rest)
      end
  end.

(** The whole pattern at the head of [s]: either the start of the input
    and optionally # or ?, or &, and then name and value.  [at_start] says
    that [s] is the whole input, the only place where the start anchor
    matches.  The first alternative is tried with the optional character
    taken, then without it, then the second alternative. *)
Definition match_here (at_start : bool) (s : string) : option Match :=
  let first_alternative :=
    if at_start then
      match s with
      | String c rest =>
          if Ascii.eqb c "#"%char || Ascii.eqb c "?"%char then
            match pair_here rest with
            | Some m => Some m
            | None => pair_here s
            end
          else pair_here s
      | EmptyString => None
      end
    else None in
  match first_alternative with
  | Some m => Some m
  | None =>
      match s with
      | String c rest => if Ascii.eqb c "&"%char then pair_here rest else None
      | EmptyString => None
      end
  end.

(** The first position from the head of [s] on at which the pattern
    matches. *)
Fixpoint search (at_start : bool) (s : string) : option Match :=
  match match_here at_start s with
  | Some m => Some m
  | None =>
      match s with
      | String _ rest => search false rest
      | EmptyString => None
      end
  end.

(** How a call of [parseQueryString] ends. *)
Inductive Parse :=
| Params (params : gmap string string)
| URIError
| Unfinished.

Section Parser.

(** [decodeURIComponent], [None] when it throws a URIError. *)
Variable decodeURIComponent : string -> option string.

(** [String.prototype.trim] *)
Variable trim : string -> string.

(** The loop [while ((match = regex.exec(queryString)))], from the suffix
    [s] of an input of [len] characters.  The result comes with the
    [lastIndex] that the regular expression, which is shared by all calls,
    is left with: 0 once [exec] has found nothing, the end of the current
    match when [decodeURIComponent] throws. *)
Fixpoint exec_loop (fuel : nat) (len : nat) (at_start : bool) (s : string)
    (params : gmap string string) : Parse * nat :=
  match fuel with
  | 0 => (Unfinished, len - String.length s)
  | S fuel' =>
      match search at_start s with
      | None => (Params params, 0)
      | Some (group1, group2, rest) =>
          let lastIndex := len - String.length rest in
          match decodeURIComponent group1 with
          | None => (URIError, lastIndex)
          | Some decoded =>
              let name := trim decoded in
              match group2 with
              | Some (String c v) =>
                  match decodeURIComponent (String c v) with
                  | None => (URIError, lastIndex)
                  | Some decoded_value =>
                      exec_loop fuel' len false rest
                        (<[name := trim decoded_value]> params)
                  end
              | _ => exec_loop fuel' len false rest (<[name := EmptyString]> params)
              end
          end
      end
  end.

(** [parseQueryString], given the [lastIndex] that earlier calls left in
    the regular expression.  An empty query string returns before the
    regular expression is touched; a [lastIndex] beyond the end of the input
    makes the first [exec] fail and rewinds it. *)
Definition parseQueryString (lastIndex : nat) (queryString : string)
    : Parse * nat :=
  match queryString with
  | EmptyString => (Params ∅, lastIndex)
  | _ =>
      if Nat.ltb (String.length queryString) lastIndex then (Params ∅, 0)
      else
        exec_loop (S (String.length queryString)) (String.length queryString)
          (Nat.eqb lastIndex 0) (drop_string lastIndex queryString) ∅
  end.

(** [getParentOrigin_] on a page whose [location.search] is [search], with
    the regular expression as earlier calls left it: the parser runs first
    and its URIError is not caught; after it the parameter is looked up and
    a missing or empty one is an Error. *)
Definition location_parentOrigin (lastIndex : nat) (search : string)
    : WindowMessenger.M string :=
  match fst (parseQueryString lastIndex search) with
  | Params params => HelperFrame.getParentOrigin_ (params !! "parentOrigin")
  | URIError => WindowMessenger.throw "URIError"
  | Unfinished => fun w => WindowMessenger.OutOfFuel w
  end.

End Parser.

End Utils.

(** * The exchange with the service worker

    The helper frame and the remote frame keep the same table,
    [allowedWorkerMessageTopics_], of the resolve functions of the promises
    that wait for a message of the service worker.  The promises are
    numbered in the order in which they are made.  As for the tables of the
    messenger, the topics and commands are taken not to be names of members
    of [Object.prototype]. *)

Module WorkerBridge.

(** [event.data] of a message of the service worker. *)
Record WorkerMessage := {
  command : string;
  payload : JsVal
}.

Record Bridge := {
  (** the own properties of the table: the promise whose resolve function
      the property holds *)
  allowedWorkerMessageTopics_ : gmap string nat;
  (** [message.topic] of each promise made so far *)
  topics : list string;
  (** the promises that are fulfilled, and their values *)
  fulfilled : gmap nat JsVal;
  (** the promises fulfilled in the current task, whose [then] callback
      waits for the task to end *)
  reactions : list nat;
  (** the [then] callbacks that have run, with the reply of the worker
      that they pass on: to the reply function of the AMP page in the
      helper frame, to [getSubscriptionState] in the remote frame *)
  answered : list (nat * JsVal)
}.

(** The table of the constructors. *)
Definition new_Bridge : Bridge := {|
  allowedWorkerMessageTopics_ := ∅;
  topics := [];
  fulfilled := ∅;
  reactions := [];
  answered := []
|}.

(** The executor [resolve => { this.allowedWorkerMessageTopics_[message.topic]
    = resolve; ... }] of [messageServiceWorkerAndAwaitReply] and of
    [onAmpPageMessageReceivedServiceWorkerQuery_], with the number of the
    promise made.  Forwarding the message to the worker, once it controls
    the page, does not touch the table. *)
Definition messageServiceWorkerAndAwaitReply (topic : string) (b : Bridge)
    : nat * Bridge :=
  let promise := length (topics b) in
  (promise,
   {| allowedWorkerMessageTopics_ :=
        <[topic := promise]> (allowedWorkerMessageTopics_ b);
      topics := topics b ++ [topic];
      fulfilled := fulfilled b;
      reactions := reactions b;
      answered := answered b |}).

(** Calling the resolve function of a promise: a promise is settled once,
    and its [then] callback is queued. *)
Definition resolve (promise : nat) (value : JsVal) (b : Bridge) : Bridge :=
  match fulfilled b !! promise with
  | Some _ => b
  | None =>
      {| allowedWorkerMessageTopics_ := allowedWorkerMessageTopics_ b;
         topics := topics b;
         fulfilled := <[promise := value]> (fulfilled b);
         reactions := reactions b ++ [promise];
         answered := answered b |}
  end.

Definition onPageMessageReceivedFromServiceWorker_ (event : WorkerMessage)
    (b : Bridge) : Bridge :=
  match allowedWorkerMessageTopics_ b !! command event with
  | Some callbackPromiseResolver =>
      resolve callbackPromiseResolver (payload event) b
  | None => b
  end.

(** The callback [workerReplyPayload => { delete
    this.allowedWorkerMessageTopics_[message.topic]; ... }] of a promise. *)
Definition reaction (promise : nat) (b : Bridge) : Bridge :=
  match topics b !! promise, fulfilled b !! promise with
  | Some topic, Some workerReplyPayload =>
      {| allowedWorkerMessageTopics_ :=
           delete topic (allowedWorkerMessageTopics_ b);
         topics := topics b;
         fulfilled := fulfilled b;
         reactions := reactions b;
         answered := answered b ++ [(promise, workerReplyPayload)] |}
  | _, _ => b
  end.

(** The end of a task: the queued callbacks run in order. *)
Definition checkpoint (b : Bridge) : Bridge :=
  fold_left (fun b' promise => reaction promise b') (reactions b)
    {| allowedWorkerMessageTopics_ := allowedWorkerMessageTopics_ b;
       topics := topics b;
       fulfilled := fulfilled b;
       reactions := [];
       answered := answered b |}.

(** What happens to a frame: it asks the worker under a topic, or the
    worker sends a message. *)
Inductive BridgeEvent :=
| Query (topic : string)
| FromWorker (event : WorkerMessage).

Definition bridge_step (e : BridgeEvent) (b : Bridge) : Bridge :=
  match e with
  | Query topic => checkpoint (snd (messageServiceWorkerAndAwaitReply topic b))
  | FromWorker event =>
      checkpoint (onPageMessageReceivedFromServiceWorker_ event b)
  end.

Definition bridge_run (events : list BridgeEvent) (b : Bridge) : Bridge :=
  fold_left (fun b' e => bridge_step e b') events b.

End WorkerBridge.


(** * Sample environments

    A small origin parser, an entropy source and subscriber bodies on which
    the model is run in the examples below. *)

Module Sample.

Import WindowMessenger.

Fixpoint upto_slash (s : string) : string :=
  match s with
  | EmptyString => EmptyString
  | String c rest =>
      if Ascii.eqb c "/"%char then EmptyString else String c (upto_slash rest)
  end.

(** Keeps the scheme and the authority of an https URL and rejects any other
    text. *)
Definition origin (s : string) : option string :=
  if String.prefix "https://" s then
    Some (String.append "https://"
            (upto_slash (String.substring 8 (String.length s) s)))
  else None.

(** The n-th draw is ten bytes equal to n. *)
Definition entropy (n : nat) : list N := repeat (N.of_nat n) 10.

Definition no_body (cb : Callback) (data : JsVal) : list Action := [].

(** Subscriber 1 unsubscribes itself from topic t, subscriber 3 subscribes
    subscriber 4 to it, subscriber 5 clears the topic. *)
Definition reentrant_body (cb : Callback) (data : JsVal) : list Action :=
  match cb with
  | 1 => [ActOff "t" (Some 1)]
  | 3 => [ActOn "t" 4]
  | 5 => [ActOff "t" None]
  | _ => []
  end.

(** Every subscriber answers with the payload it received. *)
Definition echo_body (cb : Callback) (data : JsVal) : list Action := [ActReply data].

(** A subscription state with the given permission, for a controlled frame
    whose activated worker reports a subscription. *)
Definition state (permission : string) : JsVal :=
  JObj [("notificationPermission", JStr permission);
        ("serviceWorkerUrl", JStr "https://y.example/OneSignalSDKWorker.js?appId=1");
        ("serviceWorkerState", JStr "activated");
        ("serviceWorkerIsControllingFrame", JBool true);
        ("serviceWorkerSubscriptionState", JBool true)].

(** What the remote frame of a probe does: it connects from the origin of
    the URL and sends its subscription state. *)
Definition remote_frame (origin : string) (permission : string) : list Event :=
  [WindowMessage {| ev_data := JObj [("topic", JStr "topic-connect-handshake")];
                    ev_origin := origin; ev_ports := [7] |};
   PortMessage 7 {| env_id := "1"; env_topic := "topic-origin-subscription-state";
                    env_data := state permission; env_isReply := false |}].

(** x.example has no permission, y.example is subscribed, any other target
    never loads. *)
Definition remote (url : string) : option (list Event) :=
  if String.eqb url "https://x.example/probe" then
    Some (remote_frame "https://x.example" "default")
  else if String.eqb url "https://y.example/probe" then
    Some (remote_frame "https://y.example" "granted")
  else None.

Definition handshake : MessageEvent := {|
  ev_data := JObj [("topic", JStr "topic-connect-handshake")];
  ev_origin := "https://a.example";
  ev_ports := [7]
|}.

Definition ping : Envelope := {|
  env_id := "9"; env_topic := "t"; env_data := JNum 5; env_isReply := false
|}.




(** A page with granted permission, controlled by an activated worker. *)
Definition page : Page.Page := {|
  Page.permission := "granted";
  Page.serviceWorker := true;
  Page.controller :=
    Some {| Page.scriptURL := "https://a.example/OneSignalSDKWorker.js";
            Page.state := "activated" |}
|}.

(** A request for the notification permission, as the parent page sends
    it. *)
Definition permission_request : Envelope := {|
  env_id := "4"; env_topic := "topic-notification-permission-state";
  env_data := JNull; env_isReply := false
|}.


(** A decoder that leaves text without escapes as it is and rejects any
    text with a percent sign. *)
Definition decode (s : string) : option string :=
  match String.index 0 "%" s with
  | Some _ => None
  | None => Some s
  end.

(** Leaves the text as it is: the examples have no blanks to trim. *)
Definition no_trim (s : string) : string := s.


End Sample.

(** * Vocabulary of the statements *)

Import WindowMessenger.

(** A method preserves [P] when the world it reaches satisfies [P], whether
    it returns, throws or runs out of fuel. *)
Definition preserves {A} (P : World -> Prop) (m : M A) : Prop :=
  forall w, P w -> P (world_of (m w)).

(** The calls of resolver functions recorded in a trace. *)
Fixpoint resolver_calls (t : list Effect) : list (PromiseId * Settle) :=
  match t with
  | [] => []
  | ECallResolver p v :: rest => (p, v) :: resolver_calls rest
  | _ :: rest => resolver_calls rest
  end.

(** The calls of subscribers recorded in a trace. *)
Fixpoint invocations (t : list Effect) : list (Callback * JsVal * string * string) :=
  match t with
  | [] => []
  | EInvoke cb data id topic :: rest => (cb, data, id, topic) :: invocations rest
  | _ :: rest => invocations rest
  end.

(** The trace shows exactly the resolver calls [K]. *)
Definition resolver_calls_are (K : list (PromiseId * Settle)) (w : World) : Prop :=
  resolver_calls (trace w) = K.

(** The sender origin, once normalised, equals the normalised origin of an
    entry of the allow-list. *)
Definition origin_allowed (URL_origin : string -> option string)
    (origin : string) (allowedOrigins : list string) : Prop :=
  exists allowedOrigin o,
    In allowedOrigin allowedOrigins
    /\ URL_origin allowedOrigin = Some o
    /\ URL_origin origin = Some o.

(** The message is truthy and its topic is the reserved handshake topic. *)
Definition carries_handshake (message : JsVal) : Prop :=
  falsy message = false
  /\ strict_eq_str (prop message "topic") (CONNECT_HANDSHAKE Topics) = true.

(** [w'] is [w] with more console output and nothing else changed. *)
Definition only_logged (w w' : World) : Prop :=
  exists logs, w' = set_console (console w ++ logs) w.

(** The result of a handler that discards what it was given: it returns, and
    leaves the world as it found it but for console output. *)
Definition discards (w : World) (r : Res unit) : Prop :=
  exists w', r = Ok tt w' /\ only_logged w w'.

(** The result of a handler that fails on what it was given: it throws a
    TypeError, and leaves the world as it found it but for console
    output. *)
Definition fails_on (w : World) (r : Res unit) : Prop :=
  exists w', r = Throw TypeError w' /\ only_logged w w'.

Definition has_port (w : World) : bool :=
  match messagePort_ (self w) with Some _ => true | None => false end.



(** The subscribers called, in the order of the calls. *)
Definition invoked (t : list Effect) : list Callback :=
  map (fun i => fst (fst (fst i))) (invocations t).






(** The acknowledgment of the handshake on the wire: a new message on the
    reserved topic, as [send(CONNECT_HANDSHAKE, null)] posts it. *)
Definition is_ack (e : Effect) : bool :=
  match e with
  | EPortPost _ env =>
      String.eqb (env_topic env) (CONNECT_HANDSHAKE Topics) && negb (env_isReply env)
  | _ => false
  end.

Definition is_connect_proc (r : Receiver) : bool :=
  match r with ConnectProc _ _ _ _ => true | _ => false end.

(** The state of a listener whose handshake is held back: not connected, no
    acknowledgment posted, every [then] callback of [listen] a delayed one,
    and no receiver of [connect] on any port. *)
Definition suspended (w : World) : Prop :=
  connected_ (self w) = false
  /\ existsb is_ack (trace w) = false
  /\ forallb snd (thens w) = true
  /\ forallb (fun d : bool => d) (microtasks w) = true
  /\ existsb (fun pr => is_connect_proc (snd pr)) (port_receivers w) = false.

(** A statement of a subscriber that neither finishes the handshake nor
    sends on the reserved topic. *)
Definition quiet_action (a : Action) : bool :=
  match a with
  | ActFinish => false
  | ActSend topic _ => negb (String.eqb topic (CONNECT_HANDSHAKE Topics))
  | _ => true
  end.

(** An event other than a call of [finishListenHandshake], [listen] or
    [connect], or a send on the reserved topic. *)
Definition quiet_event (e : Event) : bool :=
  match e with
  | WindowMessage _ | PortMessage _ _ | CallOn _ _ | CallOff _ _ => true
  | CallSend topic _ => negb (String.eqb topic (CONNECT_HANDSHAKE Topics))
  | CallListen _ _ | CallConnect _ _ | CallFinishListenHandshake => false
  end.

(** [frag] occurs in [s]. *)
Definition contains (s frag : string) : Prop :=
  exists m, String.substring m (String.length frag) s = frag.

(** The five conditions under which an alternate origin counts as
    subscribed. *)
Definition five_conjuncts (subscriptionState : JsVal) : Prop :=
  prop subscriptionState "notificationPermission" = JStr "granted"
  /\ prop subscriptionState "serviceWorkerIsControllingFrame" = JBool true
  /\ prop subscriptionState "serviceWorkerState" = JStr "activated"
  /\ prop subscriptionState "serviceWorkerSubscriptionState" = JBool true
  /\ exists serviceWorkerUrl,
       prop subscriptionState "serviceWorkerUrl" = JStr serviceWorkerUrl
       /\ contains serviceWorkerUrl "OneSignalSDKWorker.js".

(** The two flags that the guards of [listen] and [connect] read are
    down. *)
Definition flags_down (w : World) : Prop :=
  listening_ (self w) = false /\ connecting_ (self w) = false.

(** An allow-list entry that parses and whose origin differs from [o]. *)
Definition other_origin (URL_origin : string -> option string) (o : string)
    (allowedOrigin : string) : Prop :=
  exists x, URL_origin allowedOrigin = Some x /\ x <> o.

(** The sender origin parses, and the first allow-list entry that does not
    parse to a different origin parses to the same one. *)
Definition first_match (URL_origin : string -> option string)
    (origin : string) (allowedOrigins : list string) : Prop :=
  exists o before allowedOrigin after,
    URL_origin origin = Some o
    /\ allowedOrigins = before ++ allowedOrigin :: after
    /\ Forall (other_origin URL_origin o) before
    /\ URL_origin allowedOrigin = Some o.

(** The sender origin parses, and every allow-list entry parses to a
    different origin. *)
Definition no_match (URL_origin : string -> option string)
    (origin : string) (allowedOrigins : list string) : Prop :=
  exists o,
    URL_origin origin = Some o
    /\ Forall (other_origin URL_origin o) allowedOrigins.

(** The exchange [pe] is pending under [id], and at least [n] ids have been
    drawn. *)
Definition still_pending (id : string) (pe : PendingExchange) (n : nat)
    (w : World) : Prop :=
  messages_ (self w) !! id = Some pe /\ n <= rand_idx w.

(** An event that is not a port message carrying the id [id]. *)
Definition spares (id : string) (e : Event) : bool :=
  match e with
  | PortMessage _ message => negb (String.eqb (env_id message) id)
  | _ => true
  end.

(** Every character of [s] is of the class [p]. *)
Fixpoint all_chars (p : ascii -> bool) (s : string) : bool :=
  match s with
  | EmptyString => true
  | String c rest => p c && all_chars p rest
  end.

(** A name and a value that can be written into a query string as they
    are: the name is not empty and has no = and no &, the value has no &. *)
Definition well_formed (kv : string * string) : bool :=
  negb (String.eqb (fst kv) "")
  && all_chars Utils.name_char (fst kv)
  && all_chars Utils.value_char (snd kv).

(** The pairs written as name=value and joined by &. *)
Fixpoint query_of (pairs : list (string * string)) : string :=
  match pairs with
  | [] => ""
  | kv :: rest =>
      String.append (fst kv)
        (String "=" (String.append (snd kv)
           match rest with
           | [] => ""
           | _ => String "&" (query_of rest)
           end))
  end.

(** What follows a pair in [query_of]: nothing after the last one, & and
    the remaining pairs otherwise. *)
Definition query_tail (rest : list (string * string)) : string :=
  match rest with
  | [] => ""
  | _ => String "&" (query_of rest)
  end.

(** One of the two characters that may precede the first pair. *)
Definition prefix_char (c : ascii) : Prop := c = "?"%char \/ c = "#"%char.

(** What a pair stands for: the name decoded and trimmed, and the value
    decoded and trimmed unless it is empty; [None] when the decoder rejects
    one of them. *)
Definition decoded_pair (decodeURIComponent : string -> option string)
    (trim : string -> string) (kv : string * string)
    : option (string * string) :=
  match decodeURIComponent (fst kv) with
  | None => None
  | Some name =>
      match snd kv with
      | EmptyString => Some (trim name, "")
      | value =>
          match decodeURIComponent value with
          | None => None
          | Some v => Some (trim name, trim v)
          end
      end
  end.

Fixpoint decoded (decodeURIComponent : string -> option string)
    (trim : string -> string) (pairs : list (string * string))
    : option (list (string * string)) :=
  match pairs with
  | [] => Some []
  | kv :: rest =>
      match decoded_pair decodeURIComponent trim kv,
            decoded decodeURIComponent trim rest with
      | Some p, Some l => Some (p :: l)
      | _, _ => None
      end
  end.

(** The value of the last pair of [l] whose name is [key]. *)
Fixpoint last_value (key : string) (l : list (string * string))
    : option string :=
  match l with
  | [] => None
  | kv :: rest =>
      match last_value key rest with
      | Some v => Some v
      | None => if String.eqb (fst kv) key then Some (snd kv) else None
      end
  end.

(** The object after the properties of [l] have been assigned in order. *)
Definition assigned (l : list (string * string))
    (params : gmap string string) : gmap string string :=
  fold_left (fun m kv => <[fst kv := snd kv]> m) l params.

(** How the loop of the parser ends on an input of [len] characters of
    which [remaining] were left to read, and what it leaves in the regular
    expression: index 0 after the last match, the end of the current match
    when the decoder throws. *)
Definition loop_end (len remaining : nat) (r : Utils.Parse * nat) : Prop :=
  match r with
  | (Utils.Params _, lastIndex) => lastIndex = 0
  | (Utils.URIError, lastIndex) => len - remaining < lastIndex <= len
  | (Utils.Unfinished, _) => False
  end.

(** The table and the promises of a bridge agree: no callback waits, a
    resolve function in the table is filed under the topic of its promise
    and that promise is not fulfilled, only promises that were made are
    fulfilled, and only fulfilled promises have answered, each once. *)
Definition bridge_ok (b : WorkerBridge.Bridge) : Prop :=
  WorkerBridge.reactions b = []
  /\ (forall topic promise,
        WorkerBridge.allowedWorkerMessageTopics_ b !! topic = Some promise ->
        WorkerBridge.topics b !! promise = Some topic
        /\ WorkerBridge.fulfilled b !! promise = None)
  /\ (forall promise value,
        WorkerBridge.fulfilled b !! promise = Some value ->
        promise < length (WorkerBridge.topics b))
  /\ (forall promise value,
        In (promise, value) (WorkerBridge.answered b) ->
        WorkerBridge.fulfilled b !! promise = Some value)
  /\ NoDup (map fst (WorkerBridge.answered b)).

(** An event that is not a message of the worker with the command
    [topic]. *)
Definition not_from_worker (topic : string) (e : WorkerBridge.BridgeEvent)
    : bool :=
  match e with
  | WorkerBridge.FromWorker event =>
      negb (String.eqb (WorkerBridge.command event) topic)
  | WorkerBridge.Query _ => true
  end.

(** An event that is neither a query under [topic] nor a message of the
    worker with that command. *)
Definition other_topic (topic : string) (e : WorkerBridge.BridgeEvent)
    : bool :=
  match e with
  | WorkerBridge.FromWorker event =>
      negb (String.eqb (WorkerBridge.command event) topic)
  | WorkerBridge.Query topic' => negb (String.eqb topic' topic)
  end.

(** The promise is waiting under its topic: its resolve function is the
    one in the table. *)
Definition waiting (topic : string) (promise : nat)
    (b : WorkerBridge.Bridge) : Prop :=
  WorkerBridge.allowedWorkerMessageTopics_ b !! topic = Some promise.

(** The promise was made under [topic], is not fulfilled, and its resolve
    function is not in the table. *)
Definition orphaned (topic : string) (promise : nat)
    (b : WorkerBridge.Bridge) : Prop :=
  WorkerBridge.topics b !! promise = Some topic
  /\ WorkerBridge.fulfilled b !! promise = None
  /\ WorkerBridge.allowedWorkerMessageTopics_ b !! topic <> Some promise.

(** The window has no receiver and no reaction is waiting. *)
Definition deaf (w : World) : Prop :=
  window_receivers w = [] /\ microtasks w = [].

(** * Reasoning about methods *)


Lemma preserves_ret {A} (P : World -> Prop) (a : A) : preserves P (ret a).
Proof. intros w H. exact H. Qed.

Lemma preserves_get (P : World -> Prop) : preserves P get.
Proof. intros w H. exact H. Qed.

Lemma preserves_throw {A} (P : World -> Prop) (e : string) :
  preserves P (@throw A e).
Proof. intros w H. exact H. Qed.

Lemma preserves_modify (P : World -> Prop) (f : World -> World) :
  (forall w, P w -> P (f w)) -> preserves P (modify f).
Proof. intros Hf w H. simpl. auto. Qed.

Lemma preserves_bind {A B} (P : World -> Prop) (m : M A) (k : A -> M B) :
  preserves P m -> (forall a, preserves P (k a)) -> preserves P (bind m k).
Proof.
  intros Hm Hk w H. unfold bind. specialize (Hm w H).
  destruct (m w) as [a w'|e w'|w']; simpl in *; auto.
  apply Hk. exact Hm.
Qed.

Lemma preserves_uncaught (P : World -> Prop) (m : M unit) :
  preserves P m -> (forall e, preserves P (emit (EUncaught e))) ->
  preserves P (uncaught m).
Proof.
  intros Hm He w H. unfold uncaught. specialize (Hm w H).
  destruct (m w) as [a w'|e w'|w']; simpl in *; auto.
  apply (He e w'). exact Hm.
Qed.

Lemma preserves_executor (P : World -> Prop) (p : PromiseId) (m : M unit) :
  preserves P m -> (forall e, preserves P (call_reject p e)) ->
  preserves P (executor p m).
Proof.
  intros Hm He w H. unfold executor. specialize (Hm w H).
  destruct (m w) as [a w'|e w'|w']; simpl in *; auto.
  apply (He e w'). exact Hm.
Qed.

(** Splits a method into its primitive steps; [leaf] closes the goals left
    by [modify]. *)
Ltac pres leaf :=
  cbv zeta;
  lazymatch goal with
  | |- preserves _ (bind _ _) =>
      apply preserves_bind; [pres leaf | intros ?; pres leaf]
  | |- preserves _ (ret _) => apply preserves_ret
  | |- preserves _ get => apply preserves_get
  | |- preserves _ (throw _) => apply preserves_throw
  | |- preserves _ (modify _) => apply preserves_modify; leaf
  | |- preserves _ (uncaught _) =>
      apply preserves_uncaught; [pres leaf | intros ?; pres leaf]
  | |- preserves _ (executor _ _) =>
      apply preserves_executor; [pres leaf | intros ?; pres leaf]
  | |- preserves _ (when _ _) => unfold when; pres leaf
  | |- preserves _ (emit _) => unfold emit; pres leaf
  | |- preserves _ (log _) => unfold log; pres leaf
  | |- preserves _ (call_reject _ _) => unfold call_reject; pres leaf
  | |- preserves _ (call_resolver _ _) => unfold call_resolver; pres leaf
  | |- preserves _ (match ?x with _ => _ end) => destruct x; pres leaf
  | |- _ => try solve [auto]
  end.

Ltac unfold_methods :=
  unfold finishListenHandshake, listen_then, send, sendReply_, random_id,
    postMessage, register_exchange, on, off, targetOrigin, new_URL_origin,
    debug_log, when, call_resolver, call_reject, log, emit, new_id, this.


(** Loops preserve what each of their turns preserves. *)
Section Loops.

Variable getRandomValues : nat -> list N.
Variable body : Callback -> JsVal -> list Action.
Variable P : World -> Prop.

Lemma run_body_preserves id topic l :
  (forall a, In a l -> preserves P (exec_action getRandomValues id topic a)) ->
  preserves P (run_body getRandomValues id topic l).
Proof.
  induction l as [|a l IH]; simpl; intros H.
  - apply preserves_ret.
  - apply preserves_bind; [apply H; left; reflexivity|].
    intros _. apply IH. intros a' Hin. apply H. right. exact Hin.
Qed.

Lemma dispatch_loop_preserves fuel r message :
  (forall cb, preserves P (call_listener getRandomValues body cb message)) ->
  forall i, preserves P (dispatch_loop getRandomValues body fuel r i message).
Proof.
  intros Hcall. induction fuel as [|fuel IH]; intros i w H; simpl.
  - destruct (array_at w r !! i); exact H.
  - destruct (array_at w r !! i) as [cb|]; [|exact H].
    revert w H.
    change (preserves P
              (call_listener getRandomValues body cb message ;;
               dispatch_loop getRandomValues body fuel r (S i) message)).
    apply preserves_bind; [apply Hcall|intros _; apply IH].
Qed.

Lemma dispatch_new_message_preserves fuel message :
  (forall cb, preserves P (call_listener getRandomValues body cb message)) ->
  (forall site, preserves P (debug_log site)) ->
  preserves P (dispatch_new_message getRandomValues body fuel message).
Proof.
  intros Hcall Hlog. unfold dispatch_new_message.
  apply preserves_bind; [unfold this; pres idtac|]. intros m.
  destruct (listeners_ m !! env_topic message) as [r|].
  - apply preserves_bind; [apply Hlog|].
    intros _. apply dispatch_loop_preserves. exact Hcall.
  - destruct (Object_prototype (env_topic message)) as [[n|]|].
    + apply preserves_bind; [apply Hlog|]. intros _.
      destruct (Nat.ltb 0 n); [apply preserves_throw|apply preserves_ret].
    + apply Hlog.
    + apply preserves_ret.
Qed.

Lemma onChannelMessageReceived_preserves fuel message :
  (forall cb, preserves P (call_listener getRandomValues body cb message)) ->
  (forall site, preserves P (debug_log site)) ->
  (forall existingMessage,
     preserves P
       (modify (upd_self (fun m =>
          set_messages_ (delete (env_id message) (messages_ m)) m)) ;;
        debug_log "Received reply for topic" ;;
        call_resolver (pe_promiseResolver existingMessage)
          (SReply (env_data message) (env_id message)
             (pe_topic existingMessage)))) ->
  preserves P (onChannelMessageReceived_ getRandomValues body fuel message).
Proof.
  intros Hcall Hlog Hreply.
  pose proof (dispatch_new_message_preserves fuel message Hcall Hlog) as Hd.
  unfold onChannelMessageReceived_.
  apply preserves_bind; [unfold this; pres idtac|]. intros m.
  destruct (messages_ m !! env_id message) as [existingMessage|];
    destruct (env_isReply message); try exact Hd.
  - apply Hreply.
  - destruct (Object_prototype (env_id message)); [|exact Hd].
    apply preserves_bind; [apply Hlog|intros _; apply preserves_throw].
Qed.

End Loops.

Lemma resolver_calls_app t1 t2 :
  resolver_calls (t1 ++ t2) = resolver_calls t1 ++ resolver_calls t2.
Proof.
  induction t1 as [|e t1 IH]; simpl; [reflexivity|].
  destruct e; simpl; rewrite IH; reflexivity.
Qed.



Ltac rc_leaf :=
  let w := fresh "w" in
  let H := fresh "H" in
  intros w H; unfold resolver_calls_are in *; simpl;
  try rewrite resolver_calls_app; simpl; try rewrite app_nil_r; exact H.

(** ** Subscribers never call a resolver *)

Section NoResolverCalls.

Variable getRandomValues : nat -> list N.
Variable body : Callback -> JsVal -> list Action.
Variable K : list (PromiseId * Settle).

Abbreviation P := (resolver_calls_are K).


Lemma exec_action_no_resolver_call id topic a :
  preserves P (exec_action getRandomValues id topic a).
Proof.
  destruct a; unfold exec_action; unfold_methods; pres rc_leaf.
Qed.

Lemma dispatch_loop_no_resolver_call fuel r i message :
  preserves P (dispatch_loop getRandomValues body fuel r i message).
Proof.
  apply dispatch_loop_preserves. intros cb. unfold call_listener.
  apply preserves_bind; [pres rc_leaf|]. intros _.
  apply run_body_preserves. intros a _. apply exec_action_no_resolver_call.
Qed.

End NoResolverCalls.

(** * Properties of the messenger *)

(** ** Subscription table *)

Section Subscriptions.

Implicit Types (w : World) (topic : string) (cb : Callback).

Lemma off_wildcard_clears w topic :
  listeners_ (self (world_of (off topic None w))) !! topic = None.
Proof.
  unfold off, bind, get. simpl.
  destruct (listeners_ (self w) !! topic) eqn:E; simpl.
  - apply lookup_delete_eq.
  - exact E.
Qed.

(** C10: on a topic without a subscriber list (a fresh messenger, or a topic
    cleared by [off(topic)]), [off(topic, callback)] with a callback throws a
    TypeError and changes nothing, whereas [off(topic)] without a callback
    returns normally. *)
Theorem off_with_callback_throws_without_list :
  (forall w topic cb,
      listeners_ (self w) !! topic = None ->
      off topic (Some cb) w = Throw TypeError w /\ off topic None w = Ok tt w)
  /\ (forall options topic,
         listeners_ (self (new_World options)) !! topic = None)
  /\ (forall w topic cb,
         off topic (Some cb) (world_of (off topic None w))
         = Throw TypeError (world_of (off topic None w))).
Proof.
  assert (H : forall w topic cb,
             listeners_ (self w) !! topic = None ->
             off topic (Some cb) w = Throw TypeError w /\ off topic None w = Ok tt w).
  { intros w topic cb E. unfold off, bind, get, throw, ret. simpl.
    rewrite E. split; reflexivity. }
  split; [exact H|]. split.
  - intros options topic. simpl. apply lookup_empty.
  - intros w topic cb. apply H. apply off_wildcard_clears.
Qed.

Lemma off_with_callback_throws_without_list_witness :
  off "t" (Some 1) (new_World None) = Throw TypeError (new_World None)
  /\ off "t" None (new_World None) = Ok tt (new_World None).
Proof.
  apply (proj1 off_with_callback_throws_without_list (new_World None) "t" 1).
  reflexivity.
Defined.

End Subscriptions.

(** ** The handshake topic and the entry guards of [listen] and [connect] *)

Section Guards.

Variable URL_origin : string -> option string.
Variable getRandomValues : nat -> list N.
Variable body : Callback -> JsVal -> list Action.

Abbreviation run_events := (run_events URL_origin getRandomValues body).

(** C9, as stated: the reserved topic is not the string of the specification. *)
Lemma connect_handshake_topic_differs :
  CONNECT_HANDSHAKE Topics <> "connect-handshake".
Proof. discriminate. Qed.

(** C9, amended: the reserved topic is "topic-connect-handshake"; the
    broadcast of [connect] carries it, and so does the acknowledgment that
    [finishListenHandshake] posts on the port. *)
Theorem connect_handshake_topic_on_the_wire :
  CONNECT_HANDSHAKE Topics = "topic-connect-handshake"
  /\ (forall options target,
         trace (world_of (connect URL_origin (Some target) (Some "*")
                            (new_World options)))
         = [EPortStart 2; EWindowPost target "topic-connect-handshake" "*" 3])
  /\ (forall w port,
         messagePort_ (self w) = Some port ->
         trace (world_of (finishListenHandshake getRandomValues w))
         = trace w ++
           [EPortPost port
              {| env_id := join_bytes (getRandomValues (rand_idx w));
                 env_topic := "topic-connect-handshake";
                 env_data := JNull;
                 env_isReply := false |}]).
Proof.
  split; [reflexivity|]. split.
  - intros options target. reflexivity.
  - intros w port E.
    unfold finishListenHandshake, send, random_id, debug_log, postMessage,
      register_exchange, new_id, this, when, bind, get, modify, ret. simpl.
    destruct (debug_ (self w)); simpl; rewrite E; reflexivity.
Qed.

(** C4: the guards of [listen] and [connect] read [listening_] and
    [connecting_], which no method ever sets.  A second [listen] on a
    messenger that is still waiting for its handshake is not rejected: no
    reject function is called and the window carries two receivers.  A second
    [connect] on a messenger that is still connecting opens a second channel
    and broadcasts a second handshake. *)
Theorem second_listen_and_connect_are_not_rejected :
  (forall options origins1 origins2 delay1 delay2,
      let w := world_of (run_events 0
                           [CallListen (Some origins1) delay1;
                            CallListen (Some origins2) delay2]
                           (new_World options)) in
      window_receivers w = [ListenProc 1 origins1 0 0; ListenProc 3 origins2 2 2]
      /\ trace w = []
      /\ listening_ (self w) = false)
  /\ (forall options target,
         let w := world_of (run_events 0
                              [CallConnect (Some target) (Some "*");
                               CallConnect (Some target) (Some "*")]
                              (new_World options)) in
         port_receivers w
         = [(2, ConnectProc 4 2 (Some "*") 0); (7, ConnectProc 9 7 (Some "*") 5)]
         /\ trace w
            = [EPortStart 2; EWindowPost target "topic-connect-handshake" "*" 3;
               EPortStart 7; EWindowPost target "topic-connect-handshake" "*" 8]
         /\ connecting_ (self w) = false).
Proof.
  split.
  - intros [[[]]|] origins1 origins2 delay1 delay2; repeat split; reflexivity.
  - intros [[[]]|] target; repeat split; reflexivity.
Qed.

(** C5: the two argument checks of [connect] call [reject] and do not return.
    With the window context missing, the promise is rejected at once, yet a
    channel is created, [messagePort_] and the receiver field are set, a
    receiver is registered on the new port and the port is started; only the
    broadcast is not made, because reaching for [postMessage] throws.  The
    same holds with the expected origin missing. *)
Theorem connect_with_missing_argument_changes_state :
  (forall options,
      let w := world_of (connect URL_origin None (Some "https://a.example")
                           (new_World options)) in
      trace w
      = [ECallReject 0 "Provide a valid Window context to connect to.";
         EPortStart 2; ECallReject 0 TypeError]
      /\ channel_ (self w) = Some 1
      /\ messagePort_ (self w) = Some 2
      /\ onConnectConnectionMessageReceivedProc_ (self w)
         = Some (ConnectProc 4 2 (Some "https://a.example") 0)
      /\ port_receivers w = [(2, ConnectProc 4 2 (Some "https://a.example") 0)])
  /\ (forall options target,
         let w := world_of (connect URL_origin (Some target) None (new_World options)) in
         trace w
         = [ECallReject 0
              "Provide an expected origin for the remote Window or provide the wildcard *.";
            EPortStart 2; ECallReject 0 TypeError]
         /\ channel_ (self w) = Some 1
         /\ messagePort_ (self w) = Some 2
         /\ port_receivers w = [(2, ConnectProc 4 2 None 0)]).
Proof.
  split.
  - intros [[[]]|]; repeat split; reflexivity.
  - intros [[[]]|] target; repeat split; reflexivity.
Qed.

End Guards.

Lemma connect_handshake_topic_on_the_wire_witness :
  let w := world_of (run_events Sample.origin Sample.entropy Sample.no_body 1
                       [CallListen (Some ["https://a.example"]) true;
                        WindowMessage Sample.handshake]
                       (new_World None)) in
  messagePort_ (self w) = Some 7
  /\ trace (world_of (finishListenHandshake Sample.entropy w))
     = trace w ++
       [EPortPost 7
          {| env_id := "0000000000";
             env_topic := "topic-connect-handshake";
             env_data := JNull;
             env_isReply := false |}].
Proof.
  intros w. split; [reflexivity|].
  apply (proj2 (proj2 (connect_handshake_topic_on_the_wire
                         Sample.origin Sample.entropy)) w 7).
  reflexivity.
Defined.

(** ** Correlation of requests and replies *)

Section Correlation.

Variable getRandomValues : nat -> list N.
Variable body : Callback -> JsVal -> list Action.

Abbreviation send := (send getRandomValues).
Abbreviation onChannelMessageReceived_ :=
  (onChannelMessageReceived_ getRandomValues body).

Lemma send_registers w topic data port :
  messagePort_ (self w) = Some port ->
  exists w1,
    send topic data w = Ok (fresh w) w1
    /\ messages_ (self w1)
       = <[join_bytes (getRandomValues (rand_idx w)) :=
             {| pe_message := data; pe_topic := topic;
                pe_promiseResolver := fresh w |}]> (messages_ (self w))
    /\ trace w1
       = trace w ++
         [EPortPost port
            {| env_id := join_bytes (getRandomValues (rand_idx w));
               env_topic := topic; env_data := data; env_isReply := false |}].
Proof.
  intros E. unfold send, WindowMessenger.send. unfold_methods.
  unfold bind, get, modify, ret. simpl.
  destruct (debug_ (self w)); simpl; rewrite E; simpl; eauto.
Qed.

Lemma reply_resolves w fuel message existingMessage :
  messages_ (self w) !! env_id message = Some existingMessage ->
  env_isReply message = true ->
  exists w',
    onChannelMessageReceived_ fuel message w = Ok tt w'
    /\ messages_ (self w') = delete (env_id message) (messages_ (self w))
    /\ trace w'
       = trace w ++
         [ECallResolver (pe_promiseResolver existingMessage)
            (SReply (env_data message) (env_id message)
               (pe_topic existingMessage))].
Proof.
  intros E R.
  unfold onChannelMessageReceived_, WindowMessenger.onChannelMessageReceived_.
  unfold_methods. unfold bind, get, modify, ret. simpl. rewrite E, R. simpl.
  destruct (debug_ (self w)); simpl;
    match goal with
    | |- context [existsb ?f ?l] => destruct (existsb f l)
    end; simpl; eauto.
Qed.

Lemma unmatched_reply_calls_no_resolver w fuel message :
  messages_ (self w) !! env_id message = None ->
  resolver_calls (trace (world_of (onChannelMessageReceived_ fuel message w)))
  = resolver_calls (trace w).
Proof.
  intros E.
  assert (Hd : preserves (resolver_calls_are (resolver_calls (trace w)))
                 (dispatch_new_message getRandomValues body fuel message)).
  { unfold dispatch_new_message.
    apply preserves_bind; [unfold_methods; pres rc_leaf|]. intros m.
    destruct (listeners_ m !! env_topic message) as [r|].
    - apply preserves_bind; [unfold_methods; pres rc_leaf|].
      intros _. apply dispatch_loop_no_resolver_call.
    - unfold_methods. pres rc_leaf. }
  assert (Ht : preserves (resolver_calls_are (resolver_calls (trace w)))
                 (debug_log "Received reply for topic" ;; @throw unit TypeError)).
  { unfold_methods. pres rc_leaf. }
  unfold onChannelMessageReceived_, WindowMessenger.onChannelMessageReceived_.
  unfold bind at 1. unfold this at 1. unfold bind at 1, get at 1, ret at 1.
  rewrite E.
  destruct (env_isReply message);
    [destruct (Object_prototype (env_id message))|];
    [apply (Ht w)|apply (Hd w)|apply (Hd w)]; reflexivity.
Qed.

(** C1: [send] registers a pending exchange under the id it drew and returns
    its promise; a reply envelope with that id removes the exchange and calls
    the resolver of that promise, once, with the reply payload and the reply
    function bound to the id and to the topic of the request; a reply whose
    id has no pending exchange calls no resolver at all, so that after a send
    and two replies with its id the resolver has been called exactly once. *)
Theorem reply_resolves_pending_exchange_once :
  (forall w topic data port,
      messagePort_ (self w) = Some port ->
      exists w1,
        send topic data w = Ok (fresh w) w1
        /\ messages_ (self w1) !! join_bytes (getRandomValues (rand_idx w))
           = Some {| pe_message := data; pe_topic := topic;
                     pe_promiseResolver := fresh w |})
  /\ (forall w fuel message existingMessage,
         messages_ (self w) !! env_id message = Some existingMessage ->
         env_isReply message = true ->
         exists w',
           onChannelMessageReceived_ fuel message w = Ok tt w'
           /\ messages_ (self w') !! env_id message = None
           /\ trace w'
              = trace w ++
                [ECallResolver (pe_promiseResolver existingMessage)
                   (SReply (env_data message) (env_id message)
                      (pe_topic existingMessage))])
  /\ (forall w fuel message,
         messages_ (self w) !! env_id message = None ->
         resolver_calls (trace (world_of (onChannelMessageReceived_ fuel message w)))
         = resolver_calls (trace w))
  /\ (forall w topic data port fuel reply1 reply2,
         messagePort_ (self w) = Some port ->
         env_id reply1 = join_bytes (getRandomValues (rand_idx w)) ->
         env_id reply2 = join_bytes (getRandomValues (rand_idx w)) ->
         env_isReply reply1 = true ->
         env_isReply reply2 = true ->
         let w1 := world_of (send topic data w) in
         let w2 := world_of (onChannelMessageReceived_ fuel reply1 w1) in
         let w3 := world_of (onChannelMessageReceived_ fuel reply2 w2) in
         resolver_calls (trace w3)
         = resolver_calls (trace w) ++
           [(fresh w, SReply (env_data reply1) (env_id reply1) topic)]).
Proof.
  split; [|split; [|split]].
  - intros w topic data port E.
    destruct (send_registers w topic data port E) as (w1 & Hs & Hm & _).
    exists w1. split; [exact Hs|]. rewrite Hm. apply lookup_insert_eq.
  - intros w fuel message existingMessage E R.
    destruct (reply_resolves w fuel message existingMessage E R)
      as (w' & Hr & Hm & Ht).
    exists w'. split; [exact Hr|]. split; [|exact Ht].
    rewrite Hm. apply lookup_delete_eq.
  - exact unmatched_reply_calls_no_resolver.
  - intros w topic data port fuel reply1 reply2 E I1 I2 R1 R2 w1 w2 w3.
    destruct (send_registers w topic data port E) as (w1' & Hs & Hm & Ht).
    assert (E1 : w1 = w1') by (subst w1; rewrite Hs; reflexivity).
    assert (L1 : messages_ (self w1) !! env_id reply1
                 = Some {| pe_message := data; pe_topic := topic;
                           pe_promiseResolver := fresh w |}).
    { rewrite E1, Hm, I1. apply lookup_insert_eq. }
    destruct (reply_resolves w1 fuel reply1 _ L1 R1) as (w2' & Hr & Hm2 & Ht2).
    assert (E2 : w2 = w2') by (subst w2; rewrite Hr; reflexivity).
    assert (L2 : messages_ (self w2) !! env_id reply2 = None).
    { rewrite E2, Hm2, I2, <- I1. apply lookup_delete_eq. }
    subst w3. rewrite (unmatched_reply_calls_no_resolver w2 fuel reply2 L2).
    rewrite E2, Ht2, E1, Ht. simpl.
    rewrite !resolver_calls_app. simpl. rewrite app_nil_r. reflexivity.
Qed.

End Correlation.

Lemma reply_resolves_pending_exchange_once_witness :
  let w := world_of (run_events Sample.origin Sample.entropy Sample.no_body 1
                       [CallListen (Some ["https://a.example"]) true;
                        WindowMessage Sample.handshake]
                       (new_World None)) in
  let reply := {| env_id := "0000000000"; env_topic := "pong";
                  env_data := JNum 2; env_isReply := true |} in
  let w1 := world_of (send Sample.entropy "ping" (JNum 1) w) in
  let w2 := world_of (onChannelMessageReceived_ Sample.entropy Sample.no_body 1 reply w1) in
  let w3 := world_of (onChannelMessageReceived_ Sample.entropy Sample.no_body 1 reply w2) in
  resolver_calls (trace w3)
  = resolver_calls (trace w) ++ [(fresh w, SReply (JNum 2) "0000000000" "ping")].
Proof.
  intros w reply.
  apply (proj2 (proj2 (proj2 (reply_resolves_pending_exchange_once
                                Sample.entropy Sample.no_body)))
           w "ping" (JNum 1) 7 1 reply reply); reflexivity.
Defined.

(** ** The listener's handshake *)

Section ListenHandshake.

Variable URL_origin : string -> option string.

Abbreviation isAllowedOrigin_loop := (isAllowedOrigin_loop URL_origin).
Abbreviation isAllowedOrigin_ := (isAllowedOrigin_ URL_origin).
Abbreviation onListenConnectionMessageReceived_ :=
  (onListenConnectionMessageReceived_ URL_origin).

Lemma only_logged_refl w : only_logged w w.
Proof. exists []. rewrite app_nil_r. destruct w; reflexivity. Qed.

Lemma only_logged_log w site : only_logged w (world_of (log site w)).
Proof. exists [site]. reflexivity. Qed.

Lemma only_logged_trans w1 w2 w3 :
  only_logged w1 w2 -> only_logged w2 w3 -> only_logged w1 w3.
Proof.
  intros [l1 E1] [l2 E2]. exists (l1 ++ l2). subst. simpl.
  rewrite app_assoc. reflexivity.
Qed.

Lemma isAllowedOrigin_loop_cases normalizedOrigin allowedOrigins w :
  (isAllowedOrigin_loop normalizedOrigin allowedOrigins w = Ok true w
   /\ exists allowedOrigin,
        In allowedOrigin allowedOrigins
        /\ URL_origin allowedOrigin = Some normalizedOrigin)
  \/ isAllowedOrigin_loop normalizedOrigin allowedOrigins w = Ok false w
  \/ isAllowedOrigin_loop normalizedOrigin allowedOrigins w = Throw TypeError w.
Proof.
  induction allowedOrigins as [|a rest IH]; simpl.
  - right. left. reflexivity.
  - unfold bind, new_URL_origin.
    destruct (URL_origin a) as [o|] eqn:Ea; simpl.
    + destruct (String.eqb o normalizedOrigin) eqn:Eo.
      * apply String.eqb_eq in Eo. subst o. left. split; [reflexivity|].
        exists a. auto.
      * destruct IH as [[H (a' & Hin & Ha')]|[H|H]].
        -- left. split; [exact H|]. exists a'. auto.
        -- right. left. exact H.
        -- right. right. exact H.
    + right. right. reflexivity.
Qed.

Lemma isAllowedOrigin_cases origin allowedOrigins w :
  (isAllowedOrigin_ origin allowedOrigins w = Ok true w
   /\ origin_allowed URL_origin origin allowedOrigins)
  \/ isAllowedOrigin_ origin allowedOrigins w = Ok false w
  \/ isAllowedOrigin_ origin allowedOrigins w = Throw TypeError w.
Proof.
  unfold isAllowedOrigin_, WindowMessenger.isAllowedOrigin_, bind, new_URL_origin.
  destruct (URL_origin origin) as [n|] eqn:En; simpl.
  - destruct (isAllowedOrigin_loop_cases n allowedOrigins w)
      as [[H (a & Hin & Ha)]|[H|H]].
    + left. split; [exact H|]. exists a, n. auto.
    + right. left. exact H.
    + right. right. exact H.
  - right. right. reflexivity.
Qed.

Lemma listen_handshake_cases w allowedOrigins resolvePromise rejectPromise ev :
  only_logged w
    (world_of (onListenConnectionMessageReceived_ allowedOrigins
                 resolvePromise rejectPromise ev w))
  \/ (origin_allowed URL_origin (ev_origin ev) allowedOrigins
      /\ carries_handshake (ev_data ev)).
Proof.
  unfold onListenConnectionMessageReceived_,
    WindowMessenger.onListenConnectionMessageReceived_.
  cbv zeta. unfold bind at 1.
  assert (Hd : exists w0,
             debug_log "Window message for listen() connection received:" w
             = Ok tt w0 /\ only_logged w w0).
  { unfold debug_log, this, when, bind, get, ret. simpl.
    destruct (debug_ (self w)).
    - eexists. split; [reflexivity|]. apply only_logged_log.
    - eexists. split; [reflexivity|]. apply only_logged_refl. }
  destruct Hd as (w0 & Ed & Hl). rewrite Ed.
  unfold bind at 1.
  destruct (isAllowedOrigin_cases (ev_origin ev) allowedOrigins w0)
    as [[H Ha]|[H|H]]; rewrite H.
  - simpl negb. cbv iota.
    destruct (falsy (ev_data ev)) eqn:Ef; simpl orb; cbv iota.
    + left. eapply only_logged_trans; [exact Hl|apply only_logged_log].
    + destruct (strict_eq_str (prop (ev_data ev) "topic") (CONNECT_HANDSHAKE Topics))
        eqn:Et; simpl negb; cbv iota.
      * right. split; [exact Ha|]. split; assumption.
      * left. eapply only_logged_trans; [exact Hl|apply only_logged_log].
  - simpl negb. cbv iota. left.
    eapply only_logged_trans; [exact Hl|apply only_logged_log].
  - left. exact Hl.
Qed.

End ListenHandshake.

(** ** Dispatch to subscribers *)

Section Dispatch.

Variable getRandomValues : nat -> list N.
Variable body : Callback -> JsVal -> list Action.

Abbreviation exec_action := (exec_action getRandomValues).
Abbreviation run_body := (run_body getRandomValues).
Abbreviation dispatch_loop := (dispatch_loop getRandomValues body).
Abbreviation onChannelMessageReceived_ :=
  (onChannelMessageReceived_ getRandomValues body).








Lemma on_appends w topic cb :
  (listeners_ (self w) !! topic = None -> Object_prototype topic = None) ->
  exists w' r,
    on topic cb w = Ok tt w'
    /\ listeners_ (self w') !! topic = Some r
    /\ array_at w' r
       = match listeners_ (self w) !! topic with
         | Some r0 => array_at w r0
         | None => []
         end ++ [cb].
Proof.
  intros Hp. unfold on, new_id, bind, get, modify, ret. simpl.
  destruct (listeners_ (self w) !! topic) as [r0|] eqn:E; simpl.
  - eexists. exists r0. split; [reflexivity|]. simpl. split; [exact E|].
    unfold array_at at 1. simpl. rewrite lookup_insert_eq. reflexivity.
  - rewrite (Hp eq_refl).
    eexists. exists (fresh w). split; [reflexivity|]. simpl.
    split; [apply lookup_insert_eq|].
    unfold array_at. simpl. rewrite lookup_insert_eq. reflexivity.
Qed.


Lemma debug_log_only_logs site w :
  exists w', debug_log site w = Ok tt w' /\ only_logged w w'.
Proof.
  unfold debug_log, this, when, bind, get, ret. simpl.
  destruct (debug_ (self w)).
  - eexists. split; [reflexivity|]. apply only_logged_log.
  - eexists. split; [reflexivity|]. apply only_logged_refl.
Qed.



End Dispatch.



(** The tables are plain objects: on a new messenger, names of members of
    [Object.prototype] are found although nothing was stored under them. *)
Example inherited_members_are_found :
  let w := new_World None in
  let on_topic topic :=
    {| env_id := "9"; env_topic := topic; env_data := JNum 5;
       env_isReply := false |} in
  let reply_to id :=
    {| env_id := id; env_topic := "t"; env_data := JNum 5;
       env_isReply := true |} in
  on "constructor" 1 w = Throw TypeError w
  /\ on "__proto__" 1 w = Throw TypeError w
  /\ off "toString" (Some 1) w = Throw TypeError w
  /\ off "toString" None w = Ok tt w
  /\ onChannelMessageReceived_ Sample.entropy Sample.no_body 1
       (on_topic "hasOwnProperty") w = Throw TypeError w
  /\ onChannelMessageReceived_ Sample.entropy Sample.no_body 1
       (on_topic "toString") w = Ok tt w
  /\ onChannelMessageReceived_ Sample.entropy Sample.no_body 1
       (on_topic "__proto__") w = Ok tt w
  /\ onChannelMessageReceived_ Sample.entropy Sample.no_body 1
       (reply_to "toString") w = Throw TypeError w
  /\ onChannelMessageReceived_ Sample.entropy Sample.no_body 1
       (reply_to "5") w = Ok tt w.
Proof. repeat split. Qed.


(** A subscriber added during a dispatch is called by that dispatch. *)
Example dispatch_calls_subscriber_added_meanwhile :
  let w := world_of (run_events Sample.origin Sample.entropy Sample.reentrant_body 0
                       [CallOn "t" 3; CallOn "t" 2] (new_World None)) in
  invoked (trace (world_of (onChannelMessageReceived_ Sample.entropy
                              Sample.reentrant_body 10 Sample.ping w))) = [3; 2; 4].
Proof. reflexivity. Qed.


(** ** The flags [listening_] and [connecting_] are never raised *)

Ltac flag_leaf := intros ? [? ?]; split; simpl; assumption.

Section Flags.

Variable URL_origin : string -> option string.
Variable getRandomValues : nat -> list N.
Variable body : Callback -> JsVal -> list Action.

Lemma exec_action_flags id topic a :
  preserves flags_down (exec_action getRandomValues id topic a).
Proof. destruct a; unfold exec_action; unfold_methods; pres flag_leaf. Qed.

Lemma dispatch_loop_flags fuel r i message :
  preserves flags_down (dispatch_loop getRandomValues body fuel r i message).
Proof.
  apply dispatch_loop_preserves. intros cb. unfold call_listener.
  apply preserves_bind; [pres flag_leaf|]. intros _.
  apply run_body_preserves. intros a _. apply exec_action_flags.
Qed.

Lemma call_listener_flags cb message :
  preserves flags_down (call_listener getRandomValues body cb message).
Proof.
  unfold call_listener.
  apply preserves_bind; [pres flag_leaf|]. intros _.
  apply run_body_preserves. intros a _. apply exec_action_flags.
Qed.

Lemma onChannelMessageReceived_flags fuel message :
  preserves flags_down (onChannelMessageReceived_ getRandomValues body fuel message).
Proof.
  apply onChannelMessageReceived_preserves.
  - intros cb. apply call_listener_flags.
  - intros site. unfold_methods. pres flag_leaf.
  - intros existingMessage. unfold_methods. pres flag_leaf.
Qed.

Lemma isAllowedOrigin_flags origin allowedOrigins :
  preserves flags_down (isAllowedOrigin_ URL_origin origin allowedOrigins).
Proof.
  intros w H.
  destruct (isAllowedOrigin_cases URL_origin origin allowedOrigins w)
    as [[E _]|[E|E]]; rewrite E; exact H.
Qed.

Lemma onListenConnectionMessageReceived_flags allowedOrigins p q ev :
  preserves flags_down
    (onListenConnectionMessageReceived_ URL_origin allowedOrigins p q ev).
Proof.
  unfold onListenConnectionMessageReceived_. cbv zeta.
  apply preserves_bind; [unfold_methods; pres flag_leaf|]. intros _.
  apply preserves_bind; [apply isAllowedOrigin_flags|]. intros allowed.
  unfold_methods. pres flag_leaf.
Qed.

Lemma onConnectConnectionMessageReceived_flags port origin p :
  preserves flags_down (onConnectConnectionMessageReceived_ port origin p).
Proof. unfold onConnectConnectionMessageReceived_. unfold_methods. pres flag_leaf. Qed.

Lemma dispatch_window_flags snapshot ev :
  preserves flags_down (dispatch_window URL_origin snapshot ev).
Proof.
  induction snapshot as [|r rest IH]; simpl; [apply preserves_ret|].
  apply preserves_bind; [apply preserves_get|]. intros w.
  apply preserves_bind; [|intros _; exact IH].
  unfold when. destruct (existsb _ _); [|apply preserves_ret].
  apply preserves_uncaught; [|intros; pres flag_leaf].
  destruct r; simpl; try apply preserves_ret.
  apply onListenConnectionMessageReceived_flags.
Qed.

Lemma dispatch_port_flags fuel port snapshot message :
  preserves flags_down
    (dispatch_port getRandomValues body fuel port snapshot message).
Proof.
  induction snapshot as [|[port' r] rest IH]; simpl; [apply preserves_ret|].
  apply preserves_bind; [apply preserves_get|]. intros w.
  apply preserves_bind; [|intros _; exact IH].
  unfold when. destruct (_ && _); [|apply preserves_ret].
  apply preserves_uncaught; [|intros; pres flag_leaf].
  destruct r; simpl; try apply preserves_ret.
  - apply onConnectConnectionMessageReceived_flags.
  - apply onChannelMessageReceived_flags.
Qed.

Lemma run_microtasks_flags l :
  preserves flags_down (run_microtasks getRandomValues l).
Proof.
  induction l as [|d l IH]; simpl; [apply preserves_ret|].
  apply preserves_bind; [|intros _; exact IH].
  apply preserves_uncaught; [|intros; pres flag_leaf].
  unfold_methods. pres flag_leaf.
Qed.

Lemma step_flags fuel e :
  preserves flags_down (step URL_origin getRandomValues body fuel e).
Proof.
  unfold step. apply preserves_bind.
  - destruct e.
    + apply preserves_bind; [apply preserves_get|intros; apply dispatch_window_flags].
    + apply preserves_bind; [apply preserves_get|intros; apply dispatch_port_flags].
    + unfold_methods. pres flag_leaf.
    + unfold_methods. pres flag_leaf.
    + unfold_methods. pres flag_leaf.
    + unfold listen. unfold_methods. pres flag_leaf.
    + unfold connect. unfold_methods. pres flag_leaf.
    + unfold_methods. pres flag_leaf.
  - intros _. unfold drain.
    apply preserves_bind; [apply preserves_get|]. intros w.
    apply preserves_bind; [pres flag_leaf|intros _; apply run_microtasks_flags].
Qed.

(** X17: whatever happens to a messenger, [listening_] and [connecting_]
    keep the value false that the constructor gave them. *)
Lemma guard_flags_never_raised options fuel events :
  flags_down (world_of (run_events URL_origin getRandomValues body fuel events
                          (new_World options))).
Proof.
  assert (H : preserves flags_down
                (run_events URL_origin getRandomValues body fuel events)).
  { induction events as [|e events IH]; simpl; [apply preserves_ret|].
    apply preserves_bind; [apply step_flags|intros _; exact IH]. }
  apply H. split; reflexivity.
Qed.

End Flags.

(** ** The suspended handshake *)

Ltac susp_leaf :=
  let w := fresh "w" in
  intros w (?Hc & ?Ha & ?Ht & ?Hm & ?Hp);
  unfold suspended; simpl;
  rewrite ?existsb_app, ?forallb_app; simpl;
  rewrite ?andb_false_r, ?orb_false_r, ?andb_true_r;
  repeat split; try assumption; auto.

Section Suspended.

Variable URL_origin : string -> option string.
Variable getRandomValues : nat -> list N.
Variable body : Callback -> JsVal -> list Action.

Hypothesis quiet_bodies :
  forall cb data, forallb quiet_action (body cb data) = true.

Lemma delayed_reactions p l :
  forallb snd l = true ->
  forallb (fun d : bool => d)
    (map snd (List.filter (fun t : PromiseId * bool => Nat.eqb (fst t) p) l)) = true.
Proof.
  induction l as [|[q d] l IH]; simpl; [auto|]. intros H.
  apply andb_prop in H. destruct H as [Hd Hl].
  destruct (Nat.eqb q p); simpl; [rewrite Hd|]; auto.
Qed.

Lemma add_channel_proc port fn l :
  existsb (fun pr : PortId * Receiver => is_connect_proc (snd pr)) l = false ->
  existsb (fun pr => is_connect_proc (snd pr))
    (add_port_receiver port (ChannelProc fn) l) = false.
Proof.
  intros H. unfold add_port_receiver.
  match goal with |- context [if ?c then _ else _] => destruct c end;
    [exact H|].
  rewrite existsb_app, H. reflexivity.
Qed.

Lemma call_resolver_suspended p v : preserves suspended (call_resolver p v).
Proof.
  unfold call_resolver. unfold_methods. pres susp_leaf.
  rewrite Hm. apply delayed_reactions. assumption.
Qed.

Lemma debug_log_suspended site : preserves suspended (debug_log site).
Proof. unfold_methods. pres susp_leaf. Qed.

Lemma log_suspended site : preserves suspended (log site).
Proof. unfold_methods. pres susp_leaf. Qed.

Lemma uncaught_suspended e : preserves suspended (emit (EUncaught e)).
Proof. unfold_methods. pres susp_leaf. Qed.

Lemma on_suspended topic cb : preserves suspended (on topic cb).
Proof. unfold_methods. pres susp_leaf. Qed.

Lemma off_suspended topic cb : preserves suspended (off topic cb).
Proof. unfold_methods. pres susp_leaf. Qed.

Lemma sendReply_suspended id topic data :
  preserves suspended (sendReply_ id topic data).
Proof. unfold_methods. pres susp_leaf. Qed.

Lemma send_suspended topic data :
  String.eqb topic (CONNECT_HANDSHAKE Topics) = false ->
  preserves suspended (send getRandomValues topic data).
Proof.
  intros Hq. unfold_methods. pres susp_leaf.
  simpl in Hq. rewrite Ha, Hq. reflexivity.
Qed.

Lemma exec_action_suspended id topic a :
  quiet_action a = true ->
  preserves suspended (exec_action getRandomValues id topic a).
Proof.
  destruct a as [t cb|t cb|d|t d| |]; simpl; intros Hq; try discriminate.
  - apply on_suspended.
  - apply off_suspended.
  - apply preserves_bind; [apply sendReply_suspended|intros; apply preserves_ret].
  - apply preserves_bind; [|intros; apply preserves_ret].
    apply send_suspended. apply negb_true_iff. exact Hq.
  - apply preserves_throw.
Qed.

Lemma dispatch_loop_suspended fuel r i message :
  preserves suspended (dispatch_loop getRandomValues body fuel r i message).
Proof.
  apply dispatch_loop_preserves. intros cb. unfold call_listener.
  apply preserves_bind; [pres susp_leaf|]. intros _.
  apply run_body_preserves. intros a Hin. apply exec_action_suspended.
  pose proof (quiet_bodies cb (env_data message)) as Hq.
  rewrite forallb_forall in Hq. apply Hq. exact Hin.
Qed.

Lemma onChannelMessageReceived_suspended fuel message :
  preserves suspended (onChannelMessageReceived_ getRandomValues body fuel message).
Proof.
  apply onChannelMessageReceived_preserves.
  - intros cb. unfold call_listener.
    apply preserves_bind; [pres susp_leaf|]. intros _.
    apply run_body_preserves. intros a Hin. apply exec_action_suspended.
    pose proof (quiet_bodies cb (env_data message)) as Hq.
    rewrite forallb_forall in Hq. apply Hq. exact Hin.
  - intros site. apply debug_log_suspended.
  - intros existing.
    apply preserves_bind; [pres susp_leaf|]. intros _.
    apply preserves_bind; [apply debug_log_suspended|]. intros _.
    apply call_resolver_suspended.
Qed.

Lemma isAllowedOrigin_suspended origin allowedOrigins :
  preserves suspended (isAllowedOrigin_ URL_origin origin allowedOrigins).
Proof.
  intros w H.
  destruct (isAllowedOrigin_cases URL_origin origin allowedOrigins w)
    as [[E _]|[E|E]]; rewrite E; exact H.
Qed.

Lemma onListenConnectionMessageReceived_suspended allowedOrigins p q ev :
  preserves suspended
    (onListenConnectionMessageReceived_ URL_origin allowedOrigins p q ev).
Proof.
  unfold onListenConnectionMessageReceived_. cbv zeta.
  apply preserves_bind; [apply debug_log_suspended|]. intros _.
  apply preserves_bind; [apply isAllowedOrigin_suspended|]. intros allowed.
  destruct (negb allowed); [apply log_suspended|].
  destruct (falsy (ev_data ev) || _); [apply log_suspended|].
  apply preserves_bind; [apply log_suspended|]. intros _.
  apply preserves_bind; [unfold this; pres susp_leaf|]. intros m.
  apply preserves_bind; [pres susp_leaf|]. intros _.
  apply preserves_bind; [pres susp_leaf|]. intros _.
  apply preserves_bind; [unfold new_id; pres susp_leaf|]. intros fn.
  apply preserves_bind; [pres susp_leaf|]. intros _.
  destruct (head (ev_ports ev)) as [port|]; [|apply preserves_throw].
  apply preserves_bind.
  { apply preserves_modify. intros w (Hc & Ha & Ht & Hm & Hp).
    unfold suspended. simpl. repeat split; try assumption.
    apply add_channel_proc. exact Hp. }
  intros _. apply preserves_bind; [unfold emit; pres susp_leaf|]. intros _.
  apply call_resolver_suspended.
Qed.

Lemma dispatch_window_suspended snapshot ev :
  preserves suspended (dispatch_window URL_origin snapshot ev).
Proof.
  induction snapshot as [|r rest IH]; simpl.
  - apply preserves_ret.
  - apply preserves_bind; [apply preserves_get|]. intros w.
    apply preserves_bind; [|intros _; exact IH].
    unfold when. destruct (existsb _ _); [|apply preserves_ret].
    apply preserves_uncaught; [|apply uncaught_suspended].
    destruct r; simpl; try apply preserves_ret.
    apply onListenConnectionMessageReceived_suspended.
Qed.

Lemma dispatch_port_suspended fuel port snapshot message :
  existsb (fun pr : PortId * Receiver => is_connect_proc (snd pr)) snapshot = false ->
  preserves suspended
    (dispatch_port getRandomValues body fuel port snapshot message).
Proof.
  induction snapshot as [|[port' r] rest IH]; simpl; intros H.
  - apply preserves_ret.
  - apply orb_false_elim in H. destruct H as [Hr Hrest].
    apply preserves_bind; [apply preserves_get|]. intros w.
    apply preserves_bind; [|intros _; apply IH; exact Hrest].
    unfold when. destruct (_ && _); [|apply preserves_ret].
    apply preserves_uncaught; [|apply uncaught_suspended].
    destruct r; simpl in *; try discriminate; try apply preserves_ret.
    apply onChannelMessageReceived_suspended.
Qed.

Lemma run_microtasks_suspended l :
  forallb (fun d : bool => d) l = true ->
  preserves suspended (run_microtasks getRandomValues l).
Proof.
  induction l as [|d l IH]; simpl; intros H.
  - apply preserves_ret.
  - apply andb_prop in H. destruct H as [Hd Hl]. subst d.
    apply preserves_bind; [|intros _; apply IH; exact Hl].
    apply preserves_uncaught; [|apply uncaught_suspended].
    simpl. apply debug_log_suspended.
Qed.

Lemma drain_suspended : preserves suspended (drain getRandomValues).
Proof.
  intros w H. unfold drain, bind, get, modify. simpl.
  assert (Hm : forallb (fun d : bool => d) (microtasks w) = true) by apply H.
  apply (run_microtasks_suspended (microtasks w) Hm).
  destruct H as (Hc & Ha & Ht & _ & Hp). repeat split; assumption.
Qed.

Lemma step_suspended fuel e :
  quiet_event e = true -> preserves suspended (step URL_origin getRandomValues body fuel e).
Proof.
  intros Hq. unfold step.
  apply preserves_bind; [|intros _; apply drain_suspended].
  destruct e as [ev|port message|t cb|t cb|t d|a d|c o|]; simpl in Hq;
    try discriminate.
  - intros w H. unfold bind, get. apply dispatch_window_suspended. exact H.
  - intros w H. unfold bind, get. apply dispatch_port_suspended; [apply H|exact H].
  - apply preserves_uncaught; [apply on_suspended|apply uncaught_suspended].
  - apply preserves_uncaught; [apply off_suspended|apply uncaught_suspended].
  - apply preserves_uncaught; [|apply uncaught_suspended].
    apply preserves_bind; [|intros; apply preserves_ret].
    apply send_suspended. apply negb_true_iff. exact Hq.
Qed.

Lemma run_events_suspended fuel events :
  forallb quiet_event events = true ->
  preserves suspended (run_events URL_origin getRandomValues body fuel events).
Proof.
  induction events as [|e events IH]; simpl; intros H.
  - apply preserves_ret.
  - apply andb_prop in H. destruct H as [He Hes].
    apply preserves_bind; [apply step_suspended; exact He|].
    intros _. apply IH. exact Hes.
Qed.

Lemma listen_delayed_suspended options allowedOrigins fuel :
  suspended (world_of (step URL_origin getRandomValues body fuel
                         (CallListen allowedOrigins true) (new_World options))).
Proof.
  destruct options as [[[]]|]; destruct allowedOrigins; repeat split.
Qed.

(** C2: a messenger started with [listen(allowedOrigins, true)] stays
    unconnected and posts no acknowledgment through every sequence of window
    messages, port messages and calls of [on], [off] and [send] (on other
    topics), whether or not the handshake broadcast is accepted on the way,
    as long as neither the page nor a subscriber calls
    [finishListenHandshake]; calling it on a messenger that holds a port
    posts the acknowledgment and sets [connected_]. *)
Theorem delayed_handshake_waits_for_finish :
  (forall options allowedOrigins fuel events,
      forallb quiet_event events = true ->
      let w0 := world_of (step URL_origin getRandomValues body fuel
                            (CallListen allowedOrigins true) (new_World options)) in
      let w := world_of (run_events URL_origin getRandomValues body fuel events w0) in
      connected_ (self w) = false /\ existsb is_ack (trace w) = false)
  /\ (forall w port,
         messagePort_ (self w) = Some port ->
         let w' := world_of (finishListenHandshake getRandomValues w) in
         connected_ (self w') = true
         /\ exists ack,
              trace w' = trace w ++ [EPortPost port ack]
              /\ is_ack (EPortPost port ack) = true).
Proof.
  split.
  - intros options allowedOrigins fuel events Hq w0 w.
    assert (H : suspended w).
    { apply run_events_suspended; [exact Hq|]. apply listen_delayed_suspended. }
    split; apply H.
  - intros w port E.
    unfold finishListenHandshake. unfold_methods.
    unfold bind, get, modify, ret. simpl.
    destruct (debug_ (self w)); simpl; rewrite E; simpl;
      (split; [reflexivity|]); eexists; split; reflexivity.
Qed.

End Suspended.

(** The handshake broadcast is accepted, a request arrives on the port and
    is answered by a subscriber; the listener is still not connected and has
    posted no acknowledgment.  Then [finishListenHandshake] connects it. *)
Lemma delayed_handshake_waits_for_finish_witness :
  let events := [CallOn "t" 1; WindowMessage Sample.handshake;
                 PortMessage 7 Sample.ping] in
  let w0 := world_of (step Sample.origin Sample.entropy Sample.echo_body 4
                        (CallListen (Some ["https://a.example"]) true)
                        (new_World None)) in
  let w := world_of (run_events Sample.origin Sample.entropy Sample.echo_body 4
                       events w0) in
  messagePort_ (self w) = Some 7
  /\ invoked (trace w) = [1]
  /\ (connected_ (self w) = false /\ existsb is_ack (trace w) = false)
  /\ connected_ (self (world_of (finishListenHandshake Sample.entropy w))) = true.
Proof.
  intros events w0 w.
  split; [reflexivity|]. split; [reflexivity|]. split.
  - apply (proj1 (delayed_handshake_waits_for_finish Sample.origin Sample.entropy
                    Sample.echo_body (fun _ _ => eq_refl))
             None (Some ["https://a.example"]) 4 events).
    reflexivity.
  - apply (proj2 (delayed_handshake_waits_for_finish Sample.origin Sample.entropy
                    Sample.echo_body (fun _ _ => eq_refl)) w 7).
    reflexivity.
Defined.

(** ** The alternate subscription checker *)

Import HelperFrame.

Lemma strict_eq_str_true v s : strict_eq_str v s = true <-> v = JStr s.
Proof.
  destruct v; simpl; try (split; [discriminate|intros H; discriminate H]).
  rewrite String.eqb_eq. split; [congruence|]. intros H. congruence.
Qed.

Lemma strict_eq_true_true v : strict_eq_true v = true <-> v = JBool true.
Proof.
  destruct v as [| |[]| | |]; simpl; split; intros H;
    try discriminate; try reflexivity.
Qed.

Lemma indexOf_contains s frag :
  frag <> "" ->
  negb (Z.eqb (indexOf s frag) (-1)) = true <-> contains s frag.
Proof.
  intros Hne. unfold indexOf, contains.
  destruct (String.index 0 frag s) as [n|] eqn:E.
  - split; [intros _|intros _].
    + exists n. eapply String.index_correct1. exact E.
    + apply negb_true_iff. apply Z.eqb_neq. lia.
  - split; [discriminate|]. intros [m Hm]. exfalso.
    apply (String.index_correct3 0 m frag s E Hne); [lia|exact Hm].
Qed.

Lemma is_subscribed_state_true subscriptionState :
  is_subscribed_state subscriptionState = Some true
  <-> five_conjuncts subscriptionState.
Proof.
  unfold is_subscribed_state, five_conjuncts.
  destruct (is_nullish subscriptionState) eqn:En.
  { split; [discriminate|]. intros (H & _).
    destruct subscriptionState; discriminate. }
  destruct (strict_eq_str (prop subscriptionState "notificationPermission") "granted")
    eqn:E1; simpl.
  2:{ split; [discriminate|]. intros (H & _).
      apply strict_eq_str_true in H. congruence. }
  destruct (strict_eq_true (prop subscriptionState "serviceWorkerIsControllingFrame"))
    eqn:E2; simpl.
  2:{ split; [discriminate|]. intros (_ & H & _).
      apply strict_eq_true_true in H. congruence. }
  destruct (strict_eq_str (prop subscriptionState "serviceWorkerState") "activated")
    eqn:E3; simpl.
  2:{ split; [discriminate|]. intros (_ & _ & H & _).
      apply strict_eq_str_true in H. congruence. }
  destruct (strict_eq_true (prop subscriptionState "serviceWorkerSubscriptionState"))
    eqn:E4; simpl.
  2:{ split; [discriminate|]. intros (_ & _ & _ & H & _).
      apply strict_eq_true_true in H. congruence. }
  apply strict_eq_str_true in E1, E3. apply strict_eq_true_true in E2, E4.
  split.
  - intros H. repeat (split; [assumption|]).
    destruct (prop subscriptionState "serviceWorkerUrl") as [| | | |url|];
      try discriminate.
    exists url. split; [reflexivity|].
    apply indexOf_contains; [discriminate|]. congruence.
  - intros (_ & _ & _ & _ & url & Hu & Hc). rewrite Hu.
    f_equal. apply indexOf_contains; [discriminate|exact Hc].
Qed.

Section CheckerRun.

Variable URL_origin : string -> option string.
Variable getRandomValues : nat -> list N.
Variable remote : string -> option (list Event).
Variable fuel : nat.

Abbreviation isSubscribedToAltOrigin :=
  (isSubscribedToAltOrigin URL_origin getRandomValues remote fuel).
Abbreviation run_loop := (run_loop URL_origin getRandomValues remote fuel).
Abbreviation run := (run URL_origin getRandomValues remote fuel).

Lemma evaluated_target_has_origin url b :
  isSubscribedToAltOrigin url = Fulfilled b -> exists o, URL_origin url = Some o.
Proof.
  unfold isSubscribedToAltOrigin, HelperFrame.isSubscribedToAltOrigin,
    subscriptionStatePromise.
  cbv zeta.
  destruct (on _ _ _); try discriminate.
  destruct (URL_origin url) as [o|]; [eauto|discriminate].
Qed.

Lemma run_is_run_loop urls : run urls = run_loop urls.
Proof. destruct urls; reflexivity. Qed.

Lemma run_loop_all_unsubscribed urls :
  (forall url, In url urls -> isSubscribedToAltOrigin url = Fulfilled false) ->
  run_loop urls = Fulfilled tt.
Proof.
  induction urls as [|url rest IH]; intros H; simpl; [reflexivity|].
  assert (Hu : isSubscribedToAltOrigin url = Fulfilled false)
    by (apply H; left; reflexivity).
  destruct (evaluated_target_has_origin url false Hu) as [o Ho].
  rewrite Hu, Ho. apply IH. intros u Hin. apply H. right. exact Hin.
Qed.

Lemma run_loop_reaches_subscribed before url after :
  (forall u, In u before -> isSubscribedToAltOrigin u = Fulfilled false) ->
  isSubscribedToAltOrigin url = Fulfilled true ->
  run_loop (before ++ url :: after) = Pending.
Proof.
  induction before as [|u rest IH]; intros H Hs; simpl.
  - destruct (evaluated_target_has_origin url true Hs) as [o Ho].
    rewrite Hs, Ho. reflexivity.
  - assert (Hu : isSubscribedToAltOrigin u = Fulfilled false)
      by (apply H; left; reflexivity).
    destruct (evaluated_target_has_origin u false Hu) as [o Ho].
    rewrite Hu, Ho. apply IH; [|exact Hs].
    intros u' Hin. apply H. right. exact Hin.
Qed.

Lemma run_loop_with_subscribed urls url :
  In url urls ->
  isSubscribedToAltOrigin url = Fulfilled true ->
  run_loop urls <> Fulfilled tt.
Proof.
  induction urls as [|u rest IH]; intros Hin Hs; [destruct Hin|]. simpl.
  destruct (isSubscribedToAltOrigin u) as [[]|e|] eqn:Eu; try discriminate.
  - destruct (URL_origin u); discriminate.
  - destruct (URL_origin u); [|discriminate].
    destruct Hin as [->|Hin]; [congruence|]. apply IH; assumption.
Qed.

End CheckerRun.

Example probe_of_unsubscribed_origin :
  isSubscribedToAltOrigin Sample.origin Sample.entropy Sample.remote 1
    "https://x.example/probe" = Fulfilled false.
Proof. reflexivity. Qed.

Example probe_of_subscribed_origin :
  isSubscribedToAltOrigin Sample.origin Sample.entropy Sample.remote 1
    "https://y.example/probe" = Fulfilled true.
Proof. reflexivity. Qed.

Example probe_without_reply :
  isSubscribedToAltOrigin Sample.origin Sample.entropy Sample.remote 1
    "https://z.example/probe" = Pending.
Proof. reflexivity. Qed.

(** ** The helper frame around the checker *)

Section HelperRun.

Variable URL_origin : string -> option string.
Variable getRandomValues : nat -> list N.
Variable remote : string -> option (list Event).
Variable fuel : nat.
Variable body : Callback -> JsVal -> list Action.

Abbreviation isSubscribedToAltOrigin :=
  (isSubscribedToAltOrigin URL_origin getRandomValues remote fuel).
Abbreviation subscriptionStatePromise :=
  (subscriptionStatePromise URL_origin getRandomValues remote fuel).
Abbreviation run := (run URL_origin getRandomValues remote fuel).
Abbreviation runAmpWebPushHelperFrame :=
  (runAmpWebPushHelperFrame URL_origin getRandomValues remote fuel body).
Abbreviation run_events := (run_events URL_origin getRandomValues body fuel).

Lemma new_World_suspended options : suspended (new_World options).
Proof. repeat split. Qed.

Lemma listen_delayed_preserves allowedOrigins :
  preserves suspended (listen allowedOrigins true).
Proof. unfold listen. unfold_methods. pres susp_leaf. Qed.

Lemma listenPartially_suspended allowedOrigin parentOrigin :
  preserves suspended (listenPartially allowedOrigin parentOrigin).
Proof.
  unfold listenPartially.
  repeat (apply preserves_bind; [apply on_suspended|intros _]).
  apply preserves_bind.
  - unfold getParentOrigin_. pres susp_leaf.
  - intros origin. apply preserves_bind; [|intros; apply preserves_ret].
    apply listen_delayed_preserves.
Qed.

Lemma helper_frame_stays_suspended parentOrigin urlsToCheck inbound :
  (forall cb data, forallb quiet_action (body cb data) = true) ->
  forallb quiet_event inbound = true ->
  run (checker_urls urlsToCheck) <> Fulfilled tt ->
  suspended (world_of (runAmpWebPushHelperFrame parentOrigin urlsToCheck inbound)).
Proof.
  intros Hb Hq Hrun.
  unfold runAmpWebPushHelperFrame, HelperFrame.runAmpWebPushHelperFrame. cbv zeta.
  match goal with
  | |- suspended (world_of (?m ?w)) =>
      cut (preserves suspended m);
      [intros H; apply H; apply new_World_suspended|]
  end.
  apply preserves_bind; [apply listenPartially_suspended|intros _].
  apply preserves_bind; [apply drain_suspended|intros _].
  apply preserves_bind; [apply run_events_suspended; assumption|intros _].
  destruct (HelperFrame.run _ _ _ _ _) as [[]|e|];
    [contradiction|apply preserves_ret|apply preserves_ret].
Qed.

Lemma probe_verdict url b :
  isSubscribedToAltOrigin url = Fulfilled b
  <-> exists subscriptionState,
        subscriptionStatePromise url = Fulfilled subscriptionState
        /\ is_subscribed_state subscriptionState = Some b.
Proof.
  unfold isSubscribedToAltOrigin, HelperFrame.isSubscribedToAltOrigin.
  destruct (HelperFrame.subscriptionStatePromise _ _ _ _ url) as [st|e|].
  - split.
    + intros H. exists st. split; [reflexivity|].
      destruct (is_subscribed_state st) as [b'|]; [|discriminate].
      congruence.
    + intros (st' & E & H). injection E as <-. rewrite H. reflexivity.
  - split; [discriminate|]. intros (st & E & _). discriminate.
  - split; [discriminate|]. intros (st & E & _). discriminate.
Qed.

Lemma finish_without_port w :
  messagePort_ (self w) = None ->
  exists w',
    finishListenHandshake getRandomValues w = Throw TypeError w'
    /\ connected_ (self w') = connected_ (self w)
    /\ trace w' = trace w.
Proof.
  intros E. unfold finishListenHandshake, send. unfold_methods.
  unfold bind, get, modify, ret, throw. simpl.
  destruct (debug_ (self w)); simpl; rewrite E; simpl;
    (eexists; split; [reflexivity|]); split; reflexivity.
Qed.

(** C3: a target is evaluated as subscribed exactly when the five conditions
    hold of the state that its frame reported, and as not subscribed exactly
    when the return expression is false of that state.  When the loop
    reaches a target that is evaluated as subscribed, [run] stays pending
    for ever; with such a target anywhere in the list [run] is never
    fulfilled, and the helper frame, which waits for it, stays unconnected
    and posts no acknowledgment whatever reaches its messenger meanwhile and
    afterwards.  When every target is evaluated as not subscribed, [run] is
    fulfilled and the function that awaited it calls
    [finishListenHandshake] on the messenger as it is then.  With the port
    of an accepted handshake this connects the messenger and posts the
    acknowledgment; without one, as when the checker is done before the
    parent page has connected, the call throws a TypeError and neither
    connects nor acknowledges. *)
Theorem checker_freezes_or_lets_handshake_finish :
  (forall subscriptionState,
      is_subscribed_state subscriptionState = Some true
      <-> five_conjuncts subscriptionState)
  /\ (forall url b,
         isSubscribedToAltOrigin url = Fulfilled b
         <-> exists subscriptionState,
               subscriptionStatePromise url = Fulfilled subscriptionState
               /\ is_subscribed_state subscriptionState = Some b)
  /\ (forall before url after,
         (forall u, In u before -> isSubscribedToAltOrigin u = Fulfilled false) ->
         isSubscribedToAltOrigin url = Fulfilled true ->
         run (before ++ url :: after) = Pending)
  /\ (forall urlsToCheck url parentOrigin inbound later,
         In url (checker_urls urlsToCheck) ->
         isSubscribedToAltOrigin url = Fulfilled true ->
         (forall cb data, forallb quiet_action (body cb data) = true) ->
         forallb quiet_event inbound = true ->
         forallb quiet_event later = true ->
         run (checker_urls urlsToCheck) <> Fulfilled tt
         /\ let w := world_of
                       (run_events later
                          (world_of (runAmpWebPushHelperFrame parentOrigin
                                       urlsToCheck inbound))) in
            connected_ (self w) = false /\ existsb is_ack (trace w) = false)
  /\ (forall urls,
         (forall url, In url urls -> isSubscribedToAltOrigin url = Fulfilled false) ->
         run urls = Fulfilled tt)
  /\ (forall urlsToCheck parentOrigin inbound w,
         (forall url, In url (checker_urls urlsToCheck) ->
            isSubscribedToAltOrigin url = Fulfilled false) ->
         (listenPartially None parentOrigin ;;
          drain getRandomValues ;;
          run_events inbound) (new_World (Some {| opt_debug := true |})) = Ok tt w ->
         let r := runAmpWebPushHelperFrame parentOrigin urlsToCheck inbound in
         r = finishListenHandshake getRandomValues w
         /\ (forall port,
               messagePort_ (self w) = Some port ->
               connected_ (self (world_of r)) = true
               /\ existsb is_ack (trace (world_of r)) = true)
         /\ (messagePort_ (self w) = None ->
             exists w',
               r = Throw TypeError w'
               /\ connected_ (self w') = connected_ (self w)
               /\ trace w' = trace w)).
Proof.
  split; [exact is_subscribed_state_true|].
  split; [exact probe_verdict|].
  split; [|split; [|split]].
  - intros before url after Hb Hs. rewrite run_is_run_loop.
    apply run_loop_reaches_subscribed; assumption.
  - intros urlsToCheck url parentOrigin inbound later Hin Hs Hbody Hq Hl.
    assert (Hrun : run (checker_urls urlsToCheck) <> Fulfilled tt).
    { rewrite run_is_run_loop. eapply run_loop_with_subscribed; eassumption. }
    split; [exact Hrun|]. intros w.
    assert (H : suspended w).
    { apply run_events_suspended; [assumption..|].
      apply helper_frame_stays_suspended; assumption. }
    split; apply H.
  - intros urls H. rewrite run_is_run_loop.
    apply run_loop_all_unsubscribed. exact H.
  - intros urlsToCheck parentOrigin inbound w Hall Hw r.
    assert (Hrun : run (checker_urls urlsToCheck) = Fulfilled tt).
    { rewrite run_is_run_loop. apply run_loop_all_unsubscribed. exact Hall. }
    assert (Er : r = finishListenHandshake getRandomValues w).
    { subst r. unfold runAmpWebPushHelperFrame, HelperFrame.runAmpWebPushHelperFrame.
      cbv zeta. rewrite Hrun. unfold bind in *.
      destruct (listenPartially None parentOrigin _) as [[] wa|e wa|wa];
        try discriminate.
      destruct (drain getRandomValues wa) as [[] wb|e wb|wb]; try discriminate.
      rewrite Hw. reflexivity. }
    split; [exact Er|]. rewrite Er. split.
    + intros port Hport.
      unfold finishListenHandshake. unfold_methods.
      unfold bind, get, modify, ret. simpl.
      destruct (debug_ (self w)); simpl; rewrite Hport; simpl;
        (split; [reflexivity|]); rewrite existsb_app; simpl;
        apply orb_true_r.
    + apply finish_without_port.
Qed.

End HelperRun.

(** The second scenario of the specification: x.example reports no
    permission, y.example reports a subscription, and the parent page has
    already had its handshake accepted.  With both targets the checker
    freezes and the helper frame never connects; with x.example alone it
    completes and the helper frame connects. *)
Lemma checker_freezes_or_lets_handshake_finish_witness :
  let x := "https://x.example/probe" in
  let y := "https://y.example/probe" in
  let run := HelperFrame.run Sample.origin Sample.entropy Sample.remote 1 in
  let helper := runAmpWebPushHelperFrame Sample.origin Sample.entropy Sample.remote 1
                  Sample.echo_body (Some "https://a.example") in
  let inbound := [WindowMessage Sample.handshake] in
  run [x; y] = Pending
  /\ connected_ (self (world_of (helper (Some [x; y]) inbound))) = false
  /\ run [x] = Fulfilled tt
  /\ connected_ (self (world_of (helper (Some [x]) inbound))) = true.
Proof.
  intros x y run helper inbound.
  pose proof (checker_freezes_or_lets_handshake_finish Sample.origin Sample.entropy
                Sample.remote 1 Sample.echo_body)
    as (_ & _ & Hfreeze & Hnever & Hdone & Hfinish).
  split; [|split; [|split]].
  - apply (Hfreeze [x] y []).
    + intros u [<-|[]]. vm_compute. reflexivity.
    + vm_compute. reflexivity.
  - apply (Hnever (Some [x; y]) y (Some "https://a.example") inbound []).
    + right. left. reflexivity.
    + vm_compute. reflexivity.
    + intros cb data. reflexivity.
    + reflexivity.
    + reflexivity.
  - apply (Hdone [x]). intros url [<-|[]]. vm_compute. reflexivity.
  - apply (proj1 (proj2 (Hfinish (Some [x]) (Some "https://a.example") inbound
             (world_of ((listenPartially None (Some "https://a.example") ;;
                         drain Sample.entropy ;;
                         run_events Sample.origin Sample.entropy Sample.echo_body 1
                           inbound) (new_World (Some {| opt_debug := true |}))))
             ltac:(intros url [<-|[]]; vm_compute; reflexivity)
             ltac:(vm_compute; reflexivity))) 7).
    vm_compute. reflexivity.
Defined.

(** C3, where the code fails: with no URL to check the checker is done at
    once, before the parent page has sent its handshake.  The call of
    [finishListenHandshake] then throws, and the handshake that arrives
    afterwards is accepted and never acknowledged. *)
Lemma checker_without_targets_breaks_handshake :
  let r := runAmpWebPushHelperFrame Sample.origin Sample.entropy Sample.remote 1
             Sample.echo_body (Some "https://a.example") (Some []) [] in
  let w := world_of (run_events Sample.origin Sample.entropy Sample.echo_body 1
                       [WindowMessage Sample.handshake] (world_of r)) in
  HelperFrame.run Sample.origin Sample.entropy Sample.remote 1 [] = Fulfilled tt
  /\ (exists w', r = Throw TypeError w')
  /\ messagePort_ (self w) = Some 7
  /\ connected_ (self w) = false
  /\ existsb is_ack (trace w) = false.
Proof.
  intros r w. split; [reflexivity|]. split; [eexists; vm_compute; reflexivity|].
  split; [vm_compute; reflexivity|]. split; vm_compute; reflexivity.
Defined.

(** * Further properties of the messenger *)

(** ** The verdict of [isAllowedOrigin_] *)

Section OriginVerdict.

Variable URL_origin : string -> option string.

Abbreviation isAllowedOrigin_loop := (isAllowedOrigin_loop URL_origin).
Abbreviation isAllowedOrigin_ := (isAllowedOrigin_ URL_origin).

Lemma isAllowedOrigin_loop_true o allowedOrigins w :
  isAllowedOrigin_loop o allowedOrigins w = Ok true w
  <-> exists before allowedOrigin after,
        allowedOrigins = before ++ allowedOrigin :: after
        /\ Forall (other_origin URL_origin o) before
        /\ URL_origin allowedOrigin = Some o.
Proof.
  induction allowedOrigins as [|a rest IH]; simpl.
  - split; [discriminate|]. intros (before & x & after & E & _).
    destruct before; discriminate.
  - unfold bind, new_URL_origin.
    destruct (URL_origin a) as [x|] eqn:Ea; simpl.
    + destruct (String.eqb x o) eqn:Ex.
      * apply String.eqb_eq in Ex. subst x. split; [intros _|reflexivity].
        exists [], a, rest. auto.
      * apply String.eqb_neq in Ex. rewrite IH. split.
        -- intros (before & y & after & E & Hb & Hy).
           exists (a :: before), y, after. subst rest. split; [reflexivity|].
           split; [|exact Hy]. constructor; [|exact Hb]. exists x. auto.
        -- intros (before & y & after & E & Hb & Hy).
           destruct before as [|b before]; simpl in E; inversion E; subst.
           ++ congruence.
           ++ exists before, y, after. inversion Hb; subst. auto.
    + split; [discriminate|]. intros (before & y & after & E & Hb & Hy).
      destruct before as [|b before]; simpl in E; inversion E; subst.
      * congruence.
      * inversion Hb as [|? ? (x & Hx & _) ?]; subst. congruence.
Qed.

Lemma isAllowedOrigin_loop_false o allowedOrigins w :
  isAllowedOrigin_loop o allowedOrigins w = Ok false w
  <-> Forall (other_origin URL_origin o) allowedOrigins.
Proof.
  induction allowedOrigins as [|a rest IH]; simpl.
  - split; [constructor|reflexivity].
  - unfold bind, new_URL_origin.
    destruct (URL_origin a) as [x|] eqn:Ea; simpl.
    + destruct (String.eqb x o) eqn:Ex.
      * apply String.eqb_eq in Ex. subst x. split; [discriminate|].
        intros H. inversion H as [|? ? (y & Hy & Hne) ?]; subst. congruence.
      * apply String.eqb_neq in Ex. rewrite IH. split.
        -- intros H. constructor; [exists x; auto|exact H].
        -- intros H. inversion H. assumption.
    + split; [discriminate|].
      intros H. inversion H as [|? ? (y & Hy & _) ?]; subst. congruence.
Qed.

Lemma isAllowedOrigin_false origin allowedOrigins w :
  isAllowedOrigin_ origin allowedOrigins w = Ok false w
  <-> no_match URL_origin origin allowedOrigins.
Proof.
  unfold isAllowedOrigin_, WindowMessenger.isAllowedOrigin_, bind,
    new_URL_origin, no_match.
  destruct (URL_origin origin) as [o|] eqn:Eo; simpl.
  - rewrite isAllowedOrigin_loop_false. split.
    + intros H. exists o. auto.
    + intros (o' & Ho & H). inversion Ho; subst o'. exact H.
  - split; [discriminate|]. intros (o & Ho & _). discriminate.
Qed.

Lemma isAllowedOrigin_true origin allowedOrigins w :
  isAllowedOrigin_ origin allowedOrigins w = Ok true w
  <-> first_match URL_origin origin allowedOrigins.
Proof.
  unfold isAllowedOrigin_, WindowMessenger.isAllowedOrigin_, bind,
    new_URL_origin, first_match.
  destruct (URL_origin origin) as [o|] eqn:Eo; simpl.
  - rewrite isAllowedOrigin_loop_true. split.
    + intros (before & a & after & H). exists o, before, a, after. auto.
    + intros (o' & before & a & after & Ho & H). inversion Ho; subst o'.
      exists before, a, after. exact H.
  - split; [discriminate|]. intros (o & _ & _ & _ & Ho & _). discriminate.
Qed.

(** X1: [isAllowedOrigin_] never changes the world and has three outcomes.
    It returns true exactly when the sender origin parses and the first
    allow-list entry that is unparseable or has that origin does have it
    (what follows that entry is not looked at); it returns false exactly
    when the sender origin and every entry parse and no entry has the
    sender's origin; in every other case [new URL] throws a TypeError. *)
Theorem isAllowedOrigin_verdict :
  forall origin allowedOrigins w,
    (isAllowedOrigin_ origin allowedOrigins w = Ok true w
     <-> first_match URL_origin origin allowedOrigins)
    /\ (isAllowedOrigin_ origin allowedOrigins w = Ok false w
        <-> no_match URL_origin origin allowedOrigins)
    /\ (isAllowedOrigin_ origin allowedOrigins w = Throw TypeError w
        <-> ~ first_match URL_origin origin allowedOrigins
            /\ ~ no_match URL_origin origin allowedOrigins).
Proof.
  intros origin allowedOrigins w.
  pose proof (isAllowedOrigin_true origin allowedOrigins w) as Ht.
  assert (Hf : isAllowedOrigin_ origin allowedOrigins w = Ok false w
               <-> no_match URL_origin origin allowedOrigins).
  { unfold isAllowedOrigin_, WindowMessenger.isAllowedOrigin_, bind,
      new_URL_origin, no_match.
    destruct (URL_origin origin) as [o|] eqn:Eo; simpl.
    - rewrite isAllowedOrigin_loop_false. split.
      + intros H. exists o. auto.
      + intros (o' & Ho & H). inversion Ho; subst o'. exact H.
    - split; [discriminate|]. intros (o & Ho & _). discriminate. }
  split; [exact Ht|]. split; [exact Hf|].
  split.
  - intros E. split; intros H; [apply Ht in H|apply Hf in H]; congruence.
  - intros [Nt Nf].
    destruct (isAllowedOrigin_cases URL_origin origin allowedOrigins w)
      as [[E _]|[E|E]]; [apply Ht in E|apply Hf in E|exact E]; contradiction.
Qed.

End OriginVerdict.

(** An entry after the matching one may be unparseable; one before it makes
    the check throw. *)
Lemma isAllowedOrigin_verdict_witness :
  let w := new_World None in
  isAllowedOrigin_ Sample.origin "https://a.example/x"
    ["https://b.example"; "https://a.example"; "*"] w = Ok true w
  /\ isAllowedOrigin_ Sample.origin "https://a.example/x"
       ["https://b.example"; "https://c.example"] w = Ok false w
  /\ isAllowedOrigin_ Sample.origin "https://a.example/x"
       ["*"; "https://a.example"] w = Throw TypeError w.
Proof.
  intros w. split; [|split].
  - apply (proj1 (isAllowedOrigin_verdict Sample.origin _ _ w)).
    exists "https://a.example", ["https://b.example"], "https://a.example", ["*"].
    repeat split.
    constructor; [|constructor]. exists "https://b.example". split; [reflexivity|discriminate].
  - apply (proj1 (proj2 (isAllowedOrigin_verdict Sample.origin _ _ w))).
    exists "https://a.example". split; [reflexivity|].
    constructor; [|constructor; [|constructor]].
    + exists "https://b.example". split; [reflexivity|discriminate].
    + exists "https://c.example". split; [reflexivity|discriminate].
  - apply (proj2 (proj2 (isAllowedOrigin_verdict Sample.origin _ _ w))).
    split.
    + intros (o & before & a & after & _ & E & Hb & Ha).
      destruct before as [|b before]; simpl in E; inversion E; subst.
      * vm_compute in Ha. discriminate.
      * inversion Hb as [|? ? (x & Hx & _) ?]; subst. vm_compute in Hx. discriminate.
    + intros (o & _ & H). inversion H as [|? ? (x & Hx & _) ?]; subst.
      vm_compute in Hx. discriminate.
Defined.

(** ** What the listener does with a broadcast *)

Section HandshakeOutcome.

Variable URL_origin : string -> option string.

Abbreviation onListenConnectionMessageReceived_ :=
  (onListenConnectionMessageReceived_ URL_origin).

Lemma carries_handshake_dec message :
  carries_handshake message
  <-> falsy message
      || negb (strict_eq_str (prop message "topic") (CONNECT_HANDSHAKE Topics))
      = false.
Proof.
  unfold carries_handshake. rewrite orb_false_iff, negb_false_iff. tauto.
Qed.

Lemma listen_handler_outcome w allowedOrigins resolvePromise rejectPromise ev :
  let r := onListenConnectionMessageReceived_ allowedOrigins resolvePromise
             rejectPromise ev w in
  exists w0,
    (isAllowedOrigin_ URL_origin (ev_origin ev) allowedOrigins w0
     = Throw TypeError w0 /\ fails_on w r)
    \/ (isAllowedOrigin_ URL_origin (ev_origin ev) allowedOrigins w0 = Ok false w0
        /\ discards w r)
    \/ (isAllowedOrigin_ URL_origin (ev_origin ev) allowedOrigins w0 = Ok true w0
        /\ (carries_handshake (ev_data ev) \/ discards w r)).
Proof.
  intros r.
  destruct (debug_log_only_logs
              "Window message for listen() connection received:" w)
    as (w0 & Ed & Hl).
  exists w0.
  destruct (isAllowedOrigin_cases URL_origin (ev_origin ev) allowedOrigins w0)
    as [[H Ha]|[H|H]].
  - right. right. split; [exact H|].
    destruct (falsy (ev_data ev)) eqn:Ef;
      [|destruct (strict_eq_str (prop (ev_data ev) "topic")
                    (CONNECT_HANDSHAKE Topics)) eqn:Et];
      [right|left; split; assumption|right];
      subst r;
      unfold onListenConnectionMessageReceived_,
        WindowMessenger.onListenConnectionMessageReceived_;
      cbv zeta; unfold bind at 1; rewrite Ed; unfold bind at 1; rewrite H;
      simpl negb; cbv iota; rewrite Ef; rewrite ?Et; simpl; cbv iota;
      (eexists; split; [reflexivity|]);
      (eapply only_logged_trans; [exact Hl|apply only_logged_log]).
  - right. left. split; [exact H|].
    subst r.
    unfold onListenConnectionMessageReceived_,
      WindowMessenger.onListenConnectionMessageReceived_.
    cbv zeta. unfold bind at 1. rewrite Ed. unfold bind at 1. rewrite H.
    simpl negb. cbv iota. eexists. split; [reflexivity|].
    eapply only_logged_trans; [exact Hl|apply only_logged_log].
  - left. split; [exact H|].
    subst r.
    unfold onListenConnectionMessageReceived_,
      WindowMessenger.onListenConnectionMessageReceived_.
    cbv zeta. unfold bind at 1. rewrite Ed. unfold bind at 1. rewrite H.
    exists w0. split; [reflexivity|exact Hl].
Qed.

(** C6, amended: the receiver that [listen] registers accepts a broadcast
    only if the normalised sender origin equals the normalised origin of an
    allow-list entry and the message carries the reserved topic.  A
    broadcast whose sender origin parses and differs from the origin of
    every entry of an allow-list whose entries all parse, and one that
    passes the origin check and does not carry the reserved topic, are
    discarded: the handler returns and the world it leaves differs from the
    one it found by console output alone.  When [new URL] rejects the sender
    origin, or an entry that is looked at before a match, nothing is
    discarded: the handler throws a TypeError, the world again the same but
    for console output. *)
Theorem handshake_needs_allowed_origin_and_topic :
  forall w allowedOrigins resolvePromise rejectPromise ev,
    let r := onListenConnectionMessageReceived_ allowedOrigins resolvePromise
               rejectPromise ev w in
    (~ only_logged w (world_of r) ->
     origin_allowed URL_origin (ev_origin ev) allowedOrigins
     /\ carries_handshake (ev_data ev))
    /\ (no_match URL_origin (ev_origin ev) allowedOrigins
        \/ (first_match URL_origin (ev_origin ev) allowedOrigins
            /\ ~ carries_handshake (ev_data ev)) ->
        discards w r)
    /\ (~ first_match URL_origin (ev_origin ev) allowedOrigins ->
        ~ no_match URL_origin (ev_origin ev) allowedOrigins ->
        fails_on w r).
Proof.
  intros w allowedOrigins resolvePromise rejectPromise ev r.
  split; [|split].
  - intros N.
    destruct (listen_handshake_cases URL_origin w allowedOrigins resolvePromise
                rejectPromise ev) as [H|H]; [contradiction|exact H].
  - intros Hc.
    destruct (listen_handler_outcome w allowedOrigins resolvePromise
                rejectPromise ev) as (w0 & [[E H]|[[E H]|[E H]]]).
    + exfalso. destruct Hc as [Hn|[Hf _]].
      * apply (isAllowedOrigin_false URL_origin) with (w := w0) in Hn. congruence.
      * apply (isAllowedOrigin_true URL_origin) with (w := w0) in Hf. congruence.
    + exact H.
    + destruct H as [H|H]; [|exact H]. exfalso. destruct Hc as [Hn|[_ Hf]].
      * apply (isAllowedOrigin_false URL_origin) with (w := w0) in Hn. congruence.
      * contradiction.
  - intros Nt Nf.
    destruct (listen_handler_outcome w allowedOrigins resolvePromise
                rejectPromise ev) as (w0 & [[E H]|[[E H]|[E H]]]).
    + exact H.
    + exfalso. apply Nf. apply (isAllowedOrigin_false URL_origin _ _ w0). exact E.
    + exfalso. apply Nt. apply (isAllowedOrigin_true URL_origin _ _ w0). exact E.
Qed.

End HandshakeOutcome.

(** A broadcast from an origin outside the allow-list leaves the listener as
    it was; the same broadcast from the allowed origin is accepted. *)
Lemma handshake_needs_allowed_origin_and_topic_witness :
  let w := world_of (listen (Some ["https://a.example/"]) true (new_World None)) in
  let foreign := {| ev_data := ev_data Sample.handshake;
                    ev_origin := "https://evil.example";
                    ev_ports := [7] |} in
  discards w
    (onListenConnectionMessageReceived_ Sample.origin
       ["https://a.example/"] 0 0 foreign w)
  /\ messagePort_ (self (world_of (onListenConnectionMessageReceived_ Sample.origin
                                    ["https://a.example/"] 0 0 Sample.handshake w)))
     = Some 7.
Proof.
  intros w foreign. split; [|reflexivity].
  apply (proj1 (proj2 (handshake_needs_allowed_origin_and_topic Sample.origin w
                         ["https://a.example/"] 0 0 foreign))).
  left. exists "https://evil.example". split; [reflexivity|].
  constructor; [|constructor].
  exists "https://a.example". split; [reflexivity|discriminate].
Defined.

(** C6, as stated: a broadcast from a document with an opaque origin,
    which the browser reports as the string null, is from no origin of the
    allow-list, and it is not discarded: the handler throws, and the event
    loop is left with an uncaught TypeError, which is more than console
    output. *)
Lemma broadcast_from_opaque_origin_is_not_discarded :
  let w := world_of (run_events Sample.origin Sample.entropy Sample.no_body 0
                       [CallListen (Some ["https://a.example/"]) true]
                       (new_World None)) in
  let opaque := {| ev_data := ev_data Sample.handshake;
                   ev_origin := "null";
                   ev_ports := [7] |} in
  let w' := world_of (step Sample.origin Sample.entropy Sample.no_body 0
                        (WindowMessage opaque) w) in
  ~ origin_allowed Sample.origin (ev_origin opaque) ["https://a.example/"]
  /\ onListenConnectionMessageReceived_ Sample.origin ["https://a.example/"]
       0 0 opaque w = Throw TypeError w
  /\ ~ discards w (onListenConnectionMessageReceived_ Sample.origin
                     ["https://a.example/"] 0 0 opaque w)
  /\ trace w' = trace w ++ [EUncaught TypeError]
  /\ ~ only_logged w w'.
Proof.
  intros w opaque w'. split; [|split; [reflexivity|split; [|split; [reflexivity|]]]].
  - intros (a & o & _ & _ & H). vm_compute in H. discriminate.
  - intros (w1 & E & _). vm_compute in E. discriminate.
  - intros (logs & E). apply (f_equal trace) in E. vm_compute in E. discriminate.
Defined.

(** ** Acceptance of the handshake by the listener *)

Section Acceptance.

Variable URL_origin : string -> option string.
Variable getRandomValues : nat -> list N.
Variable body : Callback -> JsVal -> list Action.

Abbreviation onListenConnectionMessageReceived_ :=
  (onListenConnectionMessageReceived_ URL_origin).
Abbreviation step := (step URL_origin getRandomValues body).
Abbreviation run_events := (run_events URL_origin getRandomValues body).

Lemma debug_log_result site w :
  exists w0,
    debug_log site w = Ok tt w0
    /\ w0 = (if debug_ (self w) then set_console (console w ++ [site]) w else w).
Proof.
  unfold debug_log, this, when, log, bind, get, modify, ret. simpl.
  destruct (debug_ (self w)); eexists; split; reflexivity.
Qed.

(** X2: a broadcast that passes the origin check, carries the reserved topic
    and transfers a port is accepted: the receiver held in
    [onListenConnectionMessageReceivedProc_] leaves the window, the first
    transferred port becomes [messagePort_], a fresh channel receiver is
    registered on it, the port is started and the resolver of [listen] is
    called; [connected_], the pending exchanges and the subscriptions are
    left as they were. *)
Theorem allowed_handshake_is_accepted :
  forall w allowedOrigins resolvePromise rejectPromise ev port rest,
    first_match URL_origin (ev_origin ev) allowedOrigins ->
    carries_handshake (ev_data ev) ->
    ev_ports ev = port :: rest ->
    exists w',
      onListenConnectionMessageReceived_ allowedOrigins resolvePromise
        rejectPromise ev w = Ok tt w'
      /\ window_receivers w'
         = remove_receiver (onListenConnectionMessageReceivedProc_ (self w))
             (window_receivers w)
      /\ messagePort_ (self w') = Some port
      /\ onChannelMessageReceivedProc_ (self w') = Some (ChannelProc (fresh w))
      /\ port_receivers w'
         = add_port_receiver port (ChannelProc (fresh w)) (port_receivers w)
      /\ trace w' = trace w ++ [EPortStart port; ECallResolver resolvePromise SVoid]
      /\ connected_ (self w') = connected_ (self w)
      /\ messages_ (self w') = messages_ (self w)
      /\ listeners_ (self w') = listeners_ (self w)
      /\ arrays w' = arrays w.
Proof.
  intros w allowedOrigins p q ev port rest Hfm [Hf Ht] Hp.
  pose proof (fun w => proj2 (isAllowedOrigin_true URL_origin
                                (ev_origin ev) allowedOrigins w) Hfm) as Hall.
  unfold onListenConnectionMessageReceived_,
    WindowMessenger.onListenConnectionMessageReceived_.
  cbv zeta. unfold bind at 1.
  destruct (debug_log_result "Window message for listen() connection received:" w)
    as (w0 & Ed & E0).
  rewrite Ed. unfold bind at 1. rewrite Hall. simpl negb. cbv iota.
  rewrite Hf, Ht. simpl orb. cbv iota. rewrite Hp.
  unfold_methods. unfold bind, get, modify, ret. simpl.
  destruct (existsb (Nat.eqb p) (settled w0)); simpl;
    eexists; (split; [reflexivity|]); simpl;
    subst w0; destruct (debug_ (self w)); simpl;
    rewrite <- ?app_assoc; repeat split.
Qed.

(** X3: the same broadcast without a transferred port is not accepted, but
    it is not discarded either: the receiver has already left the window and
    [messagePort_] has been overwritten with undefined when the TypeError is
    thrown, and the resolver of [listen] is not called. *)
Theorem handshake_without_port_disables_listener :
  forall w allowedOrigins resolvePromise rejectPromise ev,
    first_match URL_origin (ev_origin ev) allowedOrigins ->
    carries_handshake (ev_data ev) ->
    ev_ports ev = [] ->
    exists w',
      onListenConnectionMessageReceived_ allowedOrigins resolvePromise
        rejectPromise ev w = Throw TypeError w'
      /\ window_receivers w'
         = remove_receiver (onListenConnectionMessageReceivedProc_ (self w))
             (window_receivers w)
      /\ messagePort_ (self w') = None
      /\ port_receivers w' = port_receivers w
      /\ trace w' = trace w.
Proof.
  intros w allowedOrigins p q ev Hfm [Hf Ht] Hp.
  pose proof (fun w => proj2 (isAllowedOrigin_true URL_origin
                                (ev_origin ev) allowedOrigins w) Hfm) as Hall.
  unfold onListenConnectionMessageReceived_,
    WindowMessenger.onListenConnectionMessageReceived_.
  cbv zeta. unfold bind at 1.
  destruct (debug_log_result "Window message for listen() connection received:" w)
    as (w0 & Ed & E0).
  rewrite Ed. unfold bind at 1. rewrite Hall. simpl negb. cbv iota.
  rewrite Hf, Ht. simpl orb. cbv iota. rewrite Hp.
  unfold_methods. unfold bind, get, modify, ret, throw. simpl.
  eexists; (split; [reflexivity|]); simpl;
    subst w0; destruct (debug_ (self w)); simpl; repeat split.
Qed.

Lemma deaf_without_receiver w fuel events :
  window_receivers w = [] ->
  microtasks w = [] ->
  Forall (fun e => exists ev, e = WindowMessage ev) events ->
  run_events fuel events w = Ok tt w.
Proof.
  intros Hr Hm Hev.
  induction Hev as [|e events (ev & ->) _ IH]; [reflexivity|].
  simpl. unfold bind at 1.
  assert (Hs : step fuel (WindowMessage ev) w = Ok tt w).
  { unfold step, WindowMessenger.step, drain, bind, get, modify, ret.
    rewrite Hr. simpl. rewrite Hm. simpl. destruct w; simpl in *. subst.
    reflexivity. }
  rewrite Hs. exact IH.
Qed.

Lemma handshake_with_port_releases w allowedOrigins resolvePromise rejectPromise
    ev port rest :
  first_match URL_origin (ev_origin ev) allowedOrigins ->
  carries_handshake (ev_data ev) ->
  ev_ports ev = port :: rest ->
  exists w',
    onListenConnectionMessageReceived_ allowedOrigins resolvePromise
      rejectPromise ev w = Ok tt w'
    /\ window_receivers w'
       = remove_receiver (onListenConnectionMessageReceivedProc_ (self w))
           (window_receivers w).
Proof.
  intros Hfm [Hf Ht] Hp.
  pose proof (fun w => proj2 (isAllowedOrigin_true URL_origin
                                (ev_origin ev) allowedOrigins w) Hfm) as Hall.
  unfold onListenConnectionMessageReceived_,
    WindowMessenger.onListenConnectionMessageReceived_.
  cbv zeta. unfold bind at 1.
  destruct (debug_log_result "Window message for listen() connection received:" w)
    as (w0 & Ed & E0).
  rewrite Ed. unfold bind at 1. rewrite Hall. simpl negb. cbv iota.
  rewrite Hf, Ht. simpl orb. cbv iota. rewrite Hp.
  unfold_methods. unfold bind, get, modify, ret. simpl.
  destruct (existsb (Nat.eqb resolvePromise) (settled w0)); simpl;
    eexists; (split; [reflexivity|]); simpl;
    subst w0; destruct (debug_ (self w)); reflexivity.
Qed.

Lemma handshake_without_port_releases w allowedOrigins resolvePromise
    rejectPromise ev :
  first_match URL_origin (ev_origin ev) allowedOrigins ->
  carries_handshake (ev_data ev) ->
  ev_ports ev = [] ->
  exists w',
    onListenConnectionMessageReceived_ allowedOrigins resolvePromise
      rejectPromise ev w = Throw TypeError w'
    /\ window_receivers w'
       = remove_receiver (onListenConnectionMessageReceivedProc_ (self w))
           (window_receivers w).
Proof.
  intros Hfm [Hf Ht] Hp.
  pose proof (fun w => proj2 (isAllowedOrigin_true URL_origin
                                (ev_origin ev) allowedOrigins w) Hfm) as Hall.
  unfold onListenConnectionMessageReceived_,
    WindowMessenger.onListenConnectionMessageReceived_.
  cbv zeta. unfold bind at 1.
  destruct (debug_log_result "Window message for listen() connection received:" w)
    as (w0 & Ed & E0).
  rewrite Ed. unfold bind at 1. rewrite Hall. simpl negb. cbv iota.
  rewrite Hf, Ht. simpl orb. cbv iota. rewrite Hp.
  unfold_methods. unfold bind, get, modify, ret, throw. simpl.
  eexists; (split; [reflexivity|]); simpl;
    subst w0; destruct (debug_ (self w)); reflexivity.
Qed.

Lemma handshake_releases_receiver w allowedOrigins resolvePromise rejectPromise ev :
  first_match URL_origin (ev_origin ev) allowedOrigins ->
  carries_handshake (ev_data ev) ->
  exists w',
    (onListenConnectionMessageReceived_ allowedOrigins resolvePromise
       rejectPromise ev w = Ok tt w'
     \/ onListenConnectionMessageReceived_ allowedOrigins resolvePromise
          rejectPromise ev w = Throw TypeError w')
    /\ window_receivers w'
       = remove_receiver (onListenConnectionMessageReceivedProc_ (self w))
           (window_receivers w).
Proof.
  intros Hfm Hc. destruct (ev_ports ev) as [|port rest] eqn:Hp.
  - destruct (handshake_without_port_releases w allowedOrigins resolvePromise
                rejectPromise ev Hfm Hc Hp) as (w' & E & H).
    exists w'. split; [right; exact E|exact H].
  - destruct (handshake_with_port_releases w allowedOrigins resolvePromise
                rejectPromise ev port rest Hfm Hc Hp) as (w' & E & H).
    exists w'. split; [left; exact E|exact H].
Qed.

Ltac deaf_leaf := intros ? [? ?]; split; simpl; assumption.

Lemma run_microtasks_deaf l : preserves deaf (run_microtasks getRandomValues l).
Proof.
  induction l as [|delay l IH]; simpl; [apply preserves_ret|].
  apply preserves_bind; [|intros _; exact IH].
  destruct delay; unfold_methods; pres deaf_leaf.
Qed.

Lemma drain_deaf w :
  window_receivers w = [] -> deaf (world_of (drain getRandomValues w)).
Proof.
  intros Hr. unfold drain, bind, get, modify. simpl.
  apply run_microtasks_deaf. split; [exact Hr|reflexivity].
Qed.

(** X4: a listener hears one handshake.  On a new messenger, [listen]
    puts one receiver on the window; the first broadcast that passes the
    origin check and carries the reserved topic makes the handler take that
    receiver off again, whether the broadcast is accepted or fails for want
    of a port.  From then on no broadcast changes anything: the window has
    no receiver of the messenger left, and no later handshake, allowed or
    not, is looked at. *)
Theorem listener_hears_one_handshake :
  forall options allowedOrigins delay fuel ev events,
    first_match URL_origin (ev_origin ev) allowedOrigins ->
    carries_handshake (ev_data ev) ->
    Forall (fun e => exists ev', e = WindowMessage ev') events ->
    let listening :=
      world_of (step fuel (CallListen (Some allowedOrigins) delay)
                  (new_World options)) in
    let w := world_of (step fuel (WindowMessage ev) listening) in
    window_receivers listening = [ListenProc 1 allowedOrigins 0 0]
    /\ window_receivers w = []
    /\ run_events fuel events w = Ok tt w.
Proof.
  intros options allowedOrigins delay fuel ev events Hfm Hc Hev listening w.
  assert (Hl : window_receivers listening = [ListenProc 1 allowedOrigins 0 0]
               /\ onListenConnectionMessageReceivedProc_ (self listening)
                  = Some (ListenProc 1 allowedOrigins 0 0)).
  { subst listening. destruct options as [[[]]|]; split; reflexivity. }
  destruct Hl as [Hl Hp]. split; [exact Hl|].
  assert (Hd : deaf w).
  { subst w. unfold step, WindowMessenger.step.
    unfold bind at 1. unfold bind at 1, get at 1. rewrite Hl.
    unfold dispatch_window. unfold bind at 1, get at 1. rewrite Hl.
    simpl existsb. unfold when. unfold bind at 1. unfold uncaught.
    unfold invoke_window_receiver.
    destruct (handshake_releases_receiver listening allowedOrigins 0 0 ev Hfm Hc)
      as (w' & [E|E] & Hw); rewrite E; rewrite Hp, Hl in Hw; simpl in Hw.
    - unfold ret. apply drain_deaf. exact Hw.
    - unfold emit, modify, bind, ret. apply drain_deaf. exact Hw. }
  destruct Hd as [Hr Hm]. split; [exact Hr|].
  apply deaf_without_receiver; assumption.
Qed.

End Acceptance.

(** A fresh listener accepts the handshake of the sample page; a second
    handshake, from whatever origin, then changes nothing. *)
Lemma allowed_handshake_is_accepted_witness :
  let w := world_of (listen (Some ["https://a.example/"]) false (new_World None)) in
  exists w',
    onListenConnectionMessageReceived_ Sample.origin ["https://a.example/"] 0 0
      Sample.handshake w = Ok tt w'
    /\ window_receivers w' = []
    /\ messagePort_ (self w') = Some 7
    /\ port_receivers w' = [(7, ChannelProc 2)]
    /\ trace w' = [EPortStart 7; ECallResolver 0 SVoid].
Proof.
  intros w.
  destruct (allowed_handshake_is_accepted Sample.origin w ["https://a.example/"]
              0 0 Sample.handshake 7 [])
    as (w' & E & Hw & Hp & _ & Hr & Ht & _).
  - exists "https://a.example", [], "https://a.example/", []. repeat split.
    constructor.
  - split; reflexivity.
  - reflexivity.
  - exists w'. repeat split; assumption.
Defined.

Lemma handshake_without_port_disables_listener_witness :
  let w := world_of (listen (Some ["https://a.example/"]) false (new_World None)) in
  let ev := {| ev_data := ev_data Sample.handshake;
               ev_origin := "https://a.example"; ev_ports := [] |} in
  exists w',
    onListenConnectionMessageReceived_ Sample.origin ["https://a.example/"] 0 0 ev w
    = Throw TypeError w'
    /\ window_receivers w' = []
    /\ messagePort_ (self w') = None
    /\ trace w' = [].
Proof.
  intros w ev.
  destruct (handshake_without_port_disables_listener Sample.origin w
              ["https://a.example/"] 0 0 ev)
    as (w' & E & Hw & Hp & _ & Ht).
  - exists "https://a.example", [], "https://a.example/", []. repeat split.
    constructor.
  - split; reflexivity.
  - reflexivity.
  - exists w'. repeat split; assumption.
Defined.

Lemma listener_hears_one_handshake_witness :
  let listening :=
    world_of (step Sample.origin Sample.entropy Sample.no_body 1
                (CallListen (Some ["https://a.example/"]) false)
                (new_World None)) in
  let w := world_of (step Sample.origin Sample.entropy Sample.no_body 1
                       (WindowMessage Sample.handshake) listening) in
  window_receivers listening = [ListenProc 1 ["https://a.example/"] 0 0]
  /\ window_receivers w = []
  /\ run_events Sample.origin Sample.entropy Sample.no_body 1
       [WindowMessage Sample.handshake; WindowMessage Sample.handshake] w
     = Ok tt w.
Proof.
  apply (listener_hears_one_handshake Sample.origin Sample.entropy
           Sample.no_body None ["https://a.example/"] false 1 Sample.handshake
           [WindowMessage Sample.handshake; WindowMessage Sample.handshake]).
  - exists "https://a.example", [], "https://a.example/", []. repeat split.
    constructor.
  - split; reflexivity.
  - repeat constructor; eexists; reflexivity.
Defined.

(** ** The initiator's side of the handshake *)

Section Initiator.

Variable URL_origin : string -> option string.
Variable getRandomValues : nat -> list N.
Variable body : Callback -> JsVal -> list Action.

Abbreviation step := (step URL_origin getRandomValues body).

(** X5: while the receiver of [connect] is the one on the port, the first
    message that arrives there connects the messenger whatever it carries:
    no topic, id or reply flag is looked at.  The resolver of [connect] is
    called, the receiver is replaced by a channel receiver, and the message
    itself reaches no subscriber and no pending exchange. *)
Theorem first_port_message_connects :
  forall w fuel fn port origin p message,
    port_receivers w = [(port, ConnectProc fn port origin p)] ->
    onConnectConnectionMessageReceivedProc_ (self w)
    = Some (ConnectProc fn port origin p) ->
    microtasks w = [] ->
    thens w = [] ->
    exists w',
      step fuel (PortMessage port message) w = Ok tt w'
      /\ connected_ (self w') = true
      /\ port_receivers w' = [(port, ChannelProc (fresh w))]
      /\ trace w' = trace w ++ [ECallResolver p SVoid]
      /\ messages_ (self w') = messages_ (self w).
Proof.
  intros w fuel fn port origin p message Hr Hproc Hm Ht.
  unfold step, WindowMessenger.step, bind, get. cbv beta iota.
  rewrite Hr. simpl dispatch_port. unfold bind, get. cbv beta iota.
  rewrite Hr. simpl existsb. rewrite !Nat.eqb_refl. simpl andb. simpl orb.
  unfold when, uncaught, invoke_port_receiver,
    onConnectConnectionMessageReceived_, drain.
  unfold_methods. unfold bind, get, modify, ret. simpl.
  destruct (debug_ (self w)); simpl;
    destruct (existsb (Nat.eqb p) (settled w)); simpl;
    rewrite ?Hproc, ?Hr, ?Hm, ?Ht; simpl; rewrite ?Nat.eqb_refl; simpl;
    eexists; (split; [reflexivity|]); simpl; repeat split.
Qed.

End Initiator.

(** After [connect], an inbound message that is neither an acknowledgment
    nor a reply connects the initiator, and the subscriber of its topic is
    not called. *)
Lemma first_port_message_connects_witness :
  let w := world_of (run_events Sample.origin Sample.entropy Sample.no_body 1
                       [CallOn "t" 1; CallConnect (Some 0) (Some "*")]
                       (new_World None)) in
  exists w',
    step Sample.origin Sample.entropy Sample.no_body 1 (PortMessage 3 Sample.ping) w
    = Ok tt w'
    /\ connected_ (self w') = true
    /\ invoked (trace w') = [].
Proof.
  intros w.
  destruct (first_port_message_connects Sample.origin Sample.entropy Sample.no_body
              w 1 5 3 (Some "*") 1 Sample.ping)
    as (w' & E & Hc & _ & Ht & _); try reflexivity.
  exists w'. split; [exact E|]. split; [exact Hc|]. rewrite Ht. reflexivity.
Defined.

(** ** Subscribing and unsubscribing *)

Section OnOff.

Variable getRandomValues : nat -> list N.
Variable body : Callback -> JsVal -> list Action.

Lemma array_indexOf_lt cb l i : array_indexOf cb l = Some i -> i < length l.
Proof.
  revert i. induction l as [|x l IH]; simpl; intros i H; [discriminate|].
  destruct (Nat.eqb x cb).
  - inversion H. lia.
  - destruct (array_indexOf cb l) as [j|]; [|discriminate].
    inversion H. specialize (IH j eq_refl). lia.
Qed.

Lemma array_indexOf_app cb l :
  array_indexOf cb (l ++ [cb])
  = Some (match array_indexOf cb l with Some i => i | None => length l end).
Proof.
  induction l as [|x l IH]; simpl.
  - rewrite Nat.eqb_refl. reflexivity.
  - destruct (Nat.eqb x cb); [reflexivity|].
    rewrite IH. simpl. destruct (array_indexOf cb l); reflexivity.
Qed.

Lemma delete_last (l : list Callback) x : delete (length l) (l ++ [x]) = l.
Proof.
  induction l as [|y l IH]; simpl; [reflexivity|]. f_equal. exact IH.
Qed.

Lemma delete_app_lt (l : list Callback) x i :
  i < length l -> delete i (l ++ [x]) = delete i l ++ [x].
Proof.
  revert i. induction l as [|y l IH]; simpl; intros i H; [lia|].
  destruct i; [reflexivity|]. simpl. f_equal. apply IH. lia.
Qed.

(** X6: for a topic that has a list, or that finds nothing at all in
    [listeners_], [on(topic, cb)] followed by [off(topic, cb)] both return,
    and [off] removes the first occurrence of [cb] in the list, which is the
    one just added only when the callback was not subscribed before: an
    earlier subscription of the same callback is the one that goes, and the
    callback moves to the end.  After the two calls the list is still in
    the table, empty if need be. *)
Theorem off_after_on_removes_first_occurrence :
  forall w topic cb,
    (listeners_ (self w) !! topic = None -> Object_prototype topic = None) ->
    let subscribed :=
      match listeners_ (self w) !! topic with
      | Some r => array_at w r
      | None => []
      end in
    exists w1 w2 r,
      on topic cb w = Ok tt w1
      /\ off topic (Some cb) w1 = Ok tt w2
      /\ listeners_ (self w2) !! topic = Some r
      /\ array_at w2 r
         = match array_indexOf cb subscribed with
           | Some i => delete i subscribed ++ [cb]
           | None => subscribed
           end.
Proof.
  intros w topic cb Hp subscribed.
  destruct (on_appends w topic cb Hp) as (w1 & r & E1 & Hr & Ha).
  fold subscribed in Ha.
  exists w1. unfold off, bind, get, modify, ret. simpl. rewrite Hr, Ha.
  rewrite array_indexOf_app. eexists. exists r.
  split; [exact E1|]. split; [reflexivity|]. simpl. split; [exact Hr|].
  unfold array_at. simpl. rewrite lookup_insert_eq. simpl.
  destruct (array_indexOf cb subscribed) as [i|] eqn:Ei.
  - apply delete_app_lt. eapply array_indexOf_lt. exact Ei.
  - apply delete_last.
Qed.

(** Subscribed twice, then unsubscribed once: of [4; 9; 4] the first 4 is
    the one that goes. *)
Lemma off_after_on_removes_first_occurrence_witness :
  let w := world_of (run_events Sample.origin Sample.entropy Sample.no_body 0
                       [CallOn "t" 4; CallOn "t" 9] (new_World None)) in
  let subscribed :=
    match listeners_ (self w) !! "t" with
    | Some r => array_at w r
    | None => []
    end in
  subscribed = [4; 9]
  /\ exists w1 w2 r,
       on "t" 4 w = Ok tt w1
       /\ off "t" (Some 4) w1 = Ok tt w2
       /\ listeners_ (self w2) !! "t" = Some r
       /\ array_at w2 r
          = match array_indexOf 4 subscribed with
            | Some i => delete i subscribed ++ [4]
            | None => subscribed
            end.
Proof.
  intros w subscribed. split; [reflexivity|].
  apply (off_after_on_removes_first_occurrence w "t" 4).
  discriminate.
Defined.

(** X7: without a port, [send] throws a TypeError after having drawn an id:
    nothing is posted and no exchange is registered; [sendReply_] throws and
    changes nothing; [finishListenHandshake] throws before it sets
    [connected_]. *)
Theorem send_without_port_throws :
  forall w id topic data,
    messagePort_ (self w) = None ->
    (exists w',
        send getRandomValues topic data w = Throw TypeError w'
        /\ messages_ (self w') = messages_ (self w)
        /\ trace w' = trace w
        /\ rand_idx w' = S (rand_idx w))
    /\ sendReply_ id topic data w = Throw TypeError w
    /\ (exists w',
           finishListenHandshake getRandomValues w = Throw TypeError w'
           /\ connected_ (self w') = connected_ (self w)
           /\ trace w' = trace w).
Proof.
  intros w id topic data E. split; [|split].
  - unfold send. unfold_methods. unfold bind, get, modify, ret, throw. simpl.
    destruct (debug_ (self w)); simpl; rewrite E; eexists; repeat split.
  - unfold sendReply_. unfold_methods. unfold bind, get, ret, throw. simpl.
    rewrite E. reflexivity.
  - unfold finishListenHandshake, send. unfold_methods.
    unfold bind, get, modify, ret, throw. simpl.
    destruct (debug_ (self w)); simpl; rewrite E; eexists; repeat split.
Qed.

(** X8: an answer given through a reply function is a pending exchange of
    its own, registered under the id of the message it answers, in place of
    whatever was pending there; the peer's reply to it calls the resolver of
    the answer with a reply function for the same id and topic, so that a
    conversation goes on under one id. *)
Theorem reply_function_continues_conversation :
  forall w id topic data port,
    messagePort_ (self w) = Some port ->
    exists w1,
      sendReply_ id topic data w = Ok (fresh w) w1
      /\ messages_ (self w1)
         = <[id := {| pe_message := data; pe_topic := topic;
                      pe_promiseResolver := fresh w |}]> (messages_ (self w))
      /\ trace w1
         = trace w ++
           [EPortPost port {| env_id := id; env_topic := topic;
                              env_data := data; env_isReply := true |}]
      /\ forall fuel reply,
           env_id reply = id ->
           env_isReply reply = true ->
           trace (world_of (onChannelMessageReceived_ getRandomValues body
                              fuel reply w1))
           = trace w1 ++
             [ECallResolver (fresh w) (SReply (env_data reply) id topic)].
Proof.
  intros w id topic data port E.
  assert (H : exists w1,
             sendReply_ id topic data w = Ok (fresh w) w1
             /\ messages_ (self w1)
                = <[id := {| pe_message := data; pe_topic := topic;
                             pe_promiseResolver := fresh w |}]> (messages_ (self w))
             /\ trace w1
                = trace w ++
                  [EPortPost port {| env_id := id; env_topic := topic;
                                     env_data := data; env_isReply := true |}]).
  { unfold sendReply_. unfold_methods. unfold bind, get, modify, ret. simpl.
    rewrite E. simpl. eexists. repeat split. }
  destruct H as (w1 & E1 & Hm & Ht). exists w1.
  split; [exact E1|]. split; [exact Hm|]. split; [exact Ht|].
  intros fuel reply Hid Hr.
  destruct (reply_resolves getRandomValues body w1 fuel reply
              {| pe_message := data; pe_topic := topic;
                 pe_promiseResolver := fresh w |})
    as (w2 & E2 & _ & Ht2).
  - rewrite Hm, Hid. apply lookup_insert_eq.
  - exact Hr.
  - rewrite E2. simpl. rewrite Ht2, Hid. reflexivity.
Qed.

End OnOff.

(** With subscribers 1 and 2 on a topic, subscribing 1 again and
    unsubscribing it leaves 2 before 1; on a topic of its own the list is
    left empty. *)
Example off_after_on_reorders :
  let w := world_of (run_events Sample.origin Sample.entropy Sample.no_body 0
                       [CallOn "t" 1; CallOn "t" 2] (new_World None)) in
  array_at (world_of (off "t" (Some 1) (world_of (on "t" 1 w)))) 0 = [2; 1]
  /\ array_at (world_of (off "u" (Some 1) (world_of (on "u" 1 w)))) 2 = [].
Proof. intros w. split; reflexivity. Qed.

Lemma send_without_port_throws_witness :
  exists w',
    finishListenHandshake Sample.entropy (new_World None) = Throw TypeError w'
    /\ connected_ (self w') = false
    /\ trace w' = [].
Proof.
  apply (proj2 (proj2 (send_without_port_throws Sample.entropy (new_World None)
                         "0" "t" JNull eq_refl))).
Defined.

Lemma reply_function_continues_conversation_witness :
  let w := world_of (run_events Sample.origin Sample.entropy Sample.no_body 1
                       [CallListen (Some ["https://a.example"]) true;
                        WindowMessage Sample.handshake]
                       (new_World None)) in
  exists w1,
    sendReply_ "9" "t" (JNum 6) w = Ok (fresh w) w1
    /\ trace (world_of (onChannelMessageReceived_ Sample.entropy Sample.no_body 1
                          {| env_id := "9"; env_topic := "t"; env_data := JNum 7;
                             env_isReply := true |} w1))
       = trace w1 ++ [ECallResolver (fresh w) (SReply (JNum 7) "9" "t")].
Proof.
  intros w.
  destruct (reply_function_continues_conversation Sample.entropy Sample.no_body
              w "9" "t" (JNum 6) 7 eq_refl) as (w1 & E & _ & _ & H).
  exists w1. split; [exact E|]. apply H; reflexivity.
Defined.

(** ** Guards that hold, and subscribers that throw or never stop *)

Section Edges.

Variable URL_origin : string -> option string.
Variable getRandomValues : nat -> list N.
Variable body : Callback -> JsVal -> list Action.

Abbreviation dispatch_loop := (dispatch_loop getRandomValues body).
Abbreviation onChannelMessageReceived_ :=
  (onChannelMessageReceived_ getRandomValues body).

(** X9: once [connected_] is set, [listen] and [connect] (called with both
    arguments) reject their promise with "Already connected." and leave the
    messenger, the window and the ports as they were; [listen] with
    something that is no array does the same on a messenger that is not
    connected. *)
Theorem connected_messenger_rejects_listen_and_connect :
  (forall w allowedOrigins delay,
      connected_ (self w) = true ->
      exists w',
        listen allowedOrigins delay w = Ok (fresh w) w'
        /\ self w' = self w
        /\ window_receivers w' = window_receivers w
        /\ port_receivers w' = port_receivers w
        /\ microtasks w' = microtasks w
        /\ trace w' = trace w ++ [ECallReject (fresh w) "Already connected."])
  /\ (forall w target origin,
         connected_ (self w) = true ->
         origin <> "" ->
         exists w',
           connect URL_origin (Some target) (Some origin) w = Ok (fresh w) w'
           /\ self w' = self w
           /\ window_receivers w' = window_receivers w
           /\ port_receivers w' = port_receivers w
           /\ trace w' = trace w ++ [ECallReject (fresh w) "Already connected."])
  /\ (forall w delay,
         connected_ (self w) = false ->
         listening_ (self w) = false ->
         exists w',
           listen None delay w = Ok (fresh w) w'
           /\ self w' = self w
           /\ window_receivers w' = window_receivers w
           /\ trace w'
              = trace w ++
                [ECallReject (fresh w) "allowedOrigins should be a string array"]).
Proof.
  split; [|split].
  - intros w allowedOrigins delay Hc.
    unfold listen, executor. unfold_methods. unfold bind, get, modify, ret. simpl.
    rewrite Hc. simpl.
    destruct (existsb (Nat.eqb (fresh w)) (settled w)); simpl;
      eexists; (split; [reflexivity|]); simpl; repeat split;
      destruct w as [[]]; reflexivity.
  - intros w target origin Hc Ho.
    apply String.eqb_neq in Ho.
    unfold connect, executor, origin_missing, window_missing.
    unfold_methods. unfold bind, get, modify, ret. simpl.
    rewrite Ho. simpl. rewrite Hc. simpl.
    destruct (existsb (Nat.eqb (fresh w)) (settled w)); simpl;
      eexists; (split; [reflexivity|]); simpl; repeat split;
      destruct w as [[]]; reflexivity.
  - intros w delay Hc Hl.
    unfold listen, executor. unfold_methods. unfold bind, get, modify, ret. simpl.
    rewrite Hc, Hl. simpl.
    destruct (existsb (Nat.eqb (fresh w)) (settled w)); simpl;
      eexists; (split; [reflexivity|]); simpl; repeat split;
      destruct w as [[]]; reflexivity.
Qed.





End Edges.

Lemma connected_messenger_rejects_listen_and_connect_witness :
  let w := world_of (run_events Sample.origin Sample.entropy Sample.no_body 1
                       [CallListen (Some ["https://a.example/"]) false;
                        WindowMessage Sample.handshake] (new_World None)) in
  (exists w',
      listen (Some ["https://a.example/"]) false w = Ok (fresh w) w'
      /\ self w' = self w
      /\ window_receivers w' = window_receivers w
      /\ port_receivers w' = port_receivers w
      /\ microtasks w' = microtasks w
      /\ trace w' = trace w ++ [ECallReject (fresh w) "Already connected."])
  /\ (exists w',
         connect Sample.origin (Some 0) (Some "*") w = Ok (fresh w) w'
         /\ self w' = self w
         /\ window_receivers w' = window_receivers w
         /\ port_receivers w' = port_receivers w
         /\ trace w' = trace w ++ [ECallReject (fresh w) "Already connected."]).
Proof.
  intros w. split.
  - apply (proj1 (connected_messenger_rejects_listen_and_connect Sample.origin) w).
    reflexivity.
  - apply (proj1 (proj2 (connected_messenger_rejects_listen_and_connect
                           Sample.origin)) w); [reflexivity|discriminate].
Defined.



(** ** Exchanges that are never answered *)

Ltac pending_leaf := intros ? [? ?]; split; simpl; assumption.

Section Unanswered.

Variable URL_origin : string -> option string.
Variable getRandomValues : nat -> list N.
Variable body : Callback -> JsVal -> list Action.

Variable id : string.
Variable pe : PendingExchange.
Variable n : nat.

(** No id drawn from the n-th draw on is [id]. *)
Hypothesis later_ids_differ :
  forall k, n <= k -> join_bytes (getRandomValues k) <> id.

Abbreviation P := (still_pending id pe n).

Lemma send_pending topic data : preserves P (send getRandomValues topic data).
Proof.
  intros w [Hm Hn]. unfold send. unfold_methods.
  unfold bind, get, modify, ret, throw. simpl.
  destruct (debug_ (self w)); simpl;
    destruct (messagePort_ (self w)); simpl; split; simpl; try lia;
    try exact Hm;
    rewrite lookup_insert_ne by (apply later_ids_differ; exact Hn); exact Hm.
Qed.

Lemma sendReply_pending id' topic data :
  id' <> id -> preserves P (sendReply_ id' topic data).
Proof.
  intros Hne w [Hm Hn]. unfold sendReply_. unfold_methods.
  unfold bind, get, modify, ret, throw. simpl.
  destruct (messagePort_ (self w)); simpl; split; simpl; try exact Hn;
    try exact Hm.
  rewrite lookup_insert_ne by exact Hne. exact Hm.
Qed.

Lemma finishListenHandshake_pending :
  preserves P (finishListenHandshake getRandomValues).
Proof.
  unfold finishListenHandshake.
  apply preserves_bind; [apply send_pending|intros _; pres pending_leaf].
Qed.

Lemma listen_then_pending delay : preserves P (listen_then getRandomValues delay).
Proof.
  destruct delay; simpl.
  - unfold_methods. pres pending_leaf.
  - apply preserves_bind; [apply send_pending|intros _; pres pending_leaf].
Qed.

Lemma exec_action_pending id' topic a :
  id' <> id -> preserves P (exec_action getRandomValues id' topic a).
Proof.
  intros Hne. destruct a; simpl.
  - unfold_methods. pres pending_leaf.
  - unfold_methods. pres pending_leaf.
  - apply preserves_bind; [apply sendReply_pending; exact Hne|].
    intros; apply preserves_ret.
  - apply preserves_bind; [apply send_pending|intros; apply preserves_ret].
  - apply finishListenHandshake_pending.
  - apply preserves_throw.
Qed.

Lemma onChannelMessageReceived_pending fuel message :
  env_id message <> id ->
  preserves P (onChannelMessageReceived_ getRandomValues body fuel message).
Proof.
  intros Hne. apply onChannelMessageReceived_preserves.
  - intros cb. unfold call_listener.
    apply preserves_bind; [pres pending_leaf|]. intros _.
    apply run_body_preserves. intros a _. apply exec_action_pending. exact Hne.
  - intros site. unfold_methods. pres pending_leaf.
  - intros existing. apply preserves_bind.
    { apply preserves_modify. intros w [Hm Hn]. split; [|exact Hn]. simpl.
      rewrite lookup_delete_ne by exact Hne. exact Hm. }
    intros _. unfold_methods. pres pending_leaf.
Qed.

Lemma onListenConnectionMessageReceived_pending allowedOrigins p q ev :
  preserves P (onListenConnectionMessageReceived_ URL_origin allowedOrigins p q ev).
Proof.
  unfold onListenConnectionMessageReceived_. cbv zeta.
  apply preserves_bind; [unfold_methods; pres pending_leaf|]. intros _.
  apply preserves_bind.
  { intros w H.
    destruct (isAllowedOrigin_cases URL_origin (ev_origin ev) allowedOrigins w)
      as [[E _]|[E|E]]; rewrite E; exact H. }
  intros allowed. unfold_methods. pres pending_leaf.
Qed.

Lemma step_pending fuel e :
  spares id e = true ->
  preserves P (step URL_origin getRandomValues body fuel e).
Proof.
  intros Hs. unfold step. apply preserves_bind.
  - destruct e as [ev|port message|t cb|t cb|t d|a d|c o|].
    + apply preserves_bind; [apply preserves_get|]. intros w0.
      induction (window_receivers w0) as [|r rest IH]; simpl;
        [apply preserves_ret|].
      apply preserves_bind; [apply preserves_get|]. intros w1.
      apply preserves_bind; [|intros _; exact IH].
      unfold when. destruct (existsb _ _); [|apply preserves_ret].
      apply preserves_uncaught; [|intros; pres pending_leaf].
      destruct r; simpl; try apply preserves_ret.
      apply onListenConnectionMessageReceived_pending.
    + simpl in Hs. apply negb_true_iff, String.eqb_neq in Hs.
      apply preserves_bind; [apply preserves_get|]. intros w0.
      induction (port_receivers w0) as [|[port' r] rest IH]; simpl;
        [apply preserves_ret|].
      apply preserves_bind; [apply preserves_get|]. intros w1.
      apply preserves_bind; [|intros _; exact IH].
      unfold when. destruct (_ && _); [|apply preserves_ret].
      apply preserves_uncaught; [|intros; pres pending_leaf].
      destruct r; simpl; try apply preserves_ret.
      * unfold onConnectConnectionMessageReceived_. unfold_methods.
        pres pending_leaf.
      * apply onChannelMessageReceived_pending. exact Hs.
    + unfold_methods. pres pending_leaf.
    + unfold_methods. pres pending_leaf.
    + apply preserves_uncaught; [|intros; pres pending_leaf].
      apply preserves_bind; [apply send_pending|intros; apply preserves_ret].
    + unfold listen. unfold_methods. pres pending_leaf.
    + unfold connect. unfold_methods. pres pending_leaf.
    + apply preserves_uncaught; [|intros; pres pending_leaf].
      apply finishListenHandshake_pending.
  - intros _. unfold drain.
    apply preserves_bind; [apply preserves_get|]. intros w0.
    apply preserves_bind; [pres pending_leaf|]. intros _.
    induction (microtasks w0) as [|d l IH]; simpl; [apply preserves_ret|].
    apply preserves_bind; [|intros _; exact IH].
    apply preserves_uncaught; [|intros; pres pending_leaf].
    apply listen_then_pending.
Qed.

(** X12: a pending exchange is removed by nothing but a port message that
    carries its id.  Through every other sequence of events, calls of any
    method included, it stays in [messages_] as it is, for as long as no
    newly drawn id equals its own: there is no timeout and no cancellation. *)
Theorem unanswered_exchange_stays_pending :
  forall w fuel events,
    still_pending id pe n w ->
    forallb (spares id) events = true ->
    still_pending id pe n
      (world_of (run_events URL_origin getRandomValues body fuel events w)).
Proof.
  intros w fuel events Hp Hs. revert w Hp.
  change (preserves P (run_events URL_origin getRandomValues body fuel events)).
  induction events as [|e events IH]; simpl; [apply preserves_ret|].
  simpl in Hs. apply andb_prop in Hs. destruct Hs as [He Hes].
  apply preserves_bind; [apply step_pending; exact He|intros _; exact (IH Hes)].
Qed.

End Unanswered.

Lemma length_string_append (s1 s2 : string) :
  String.length (String.append s1 s2) = String.length s1 + String.length s2.
Proof. induction s1 as [|c s1 IH]; simpl; [reflexivity|]. rewrite IH. reflexivity. Qed.

Lemma numeral_nonempty (b : N) :
  1 <= String.length (NilZero.string_of_uint (N.to_uint b)).
Proof.
  unfold NilZero.string_of_uint.
  destruct (N.to_uint b); simpl; lia.
Qed.

(** An id has at least one character for each byte drawn. *)
Lemma join_bytes_length (bs : list N) : length bs <= String.length (join_bytes bs).
Proof.
  unfold join_bytes.
  induction bs as [|b bs IH]; simpl; [lia|].
  pose proof (numeral_nonempty b) as Hb.
  destruct (map _ bs) eqn:E.
  - destruct bs; [simpl; lia|discriminate].
  - rewrite !length_string_append. simpl in *. lia.
Qed.

(** The listener answers message 9 and draws ids for two requests of its
    own; the answer is still pending under id 9 after further traffic. *)
Lemma unanswered_exchange_stays_pending_witness :
  let w0 := world_of (run_events Sample.origin Sample.entropy Sample.no_body 1
                        [CallListen (Some ["https://a.example"]) true;
                         WindowMessage Sample.handshake]
                        (new_World None)) in
  let w := world_of (sendReply_ "9" "t" (JNum 6) w0) in
  let pe := {| pe_message := JNum 6; pe_topic := "t"; pe_promiseResolver := 3 |} in
  let events := [CallSend "u" JNull; CallOn "t" 1;
                 PortMessage 7 {| env_id := "5"; env_topic := "t";
                                  env_data := JNull; env_isReply := false |};
                 PortMessage 7 {| env_id := "8"; env_topic := "t";
                                  env_data := JNull; env_isReply := true |};
                 CallFinishListenHandshake] in
  messages_ (self (world_of (run_events Sample.origin Sample.entropy Sample.echo_body
                               2 events w))) !! "9" = Some pe.
Proof.
  intros w0 w pe events.
  apply (unanswered_exchange_stays_pending Sample.origin Sample.entropy
           Sample.echo_body "9" pe 0).
  - intros k _ E.
    pose proof (join_bytes_length (Sample.entropy k)) as Hl.
    rewrite E in Hl. unfold Sample.entropy in Hl.
    rewrite repeat_length in Hl. simpl in Hl. lia.
  - split; [reflexivity|lia].
  - reflexivity.
Defined.

(** ** A checker that completes before the handshake has arrived *)

Section EarlyFinish.

Variable URL_origin : string -> option string.
Variable getRandomValues : nat -> list N.
Variable remote : string -> option (list Event).
Variable fuel : nat.
Variable body : Callback -> JsVal -> list Action.

Abbreviation run := (HelperFrame.run URL_origin getRandomValues remote fuel).
Abbreviation runAmpWebPushHelperFrame :=
  (runAmpWebPushHelperFrame URL_origin getRandomValues remote fuel body).
Abbreviation run_events := (run_events URL_origin getRandomValues body fuel).

Lemma finish_without_port_suspended w :
  suspended w ->
  messagePort_ (self w) = None ->
  suspended (world_of (finishListenHandshake getRandomValues w))
  /\ forall w', finishListenHandshake getRandomValues w <> Ok tt w'.
Proof.
  intros (Hc & Ha & Ht & Hm & Hp) E.
  unfold finishListenHandshake, send. unfold_methods.
  unfold bind, get, modify, ret, throw. simpl.
  destruct (debug_ (self w)); simpl; rewrite E; simpl;
    (split; [repeat split; assumption|discriminate]).
Qed.

(** X13: [finishListenHandshake] is called as soon as the checker is done,
    whether or not the parent page has connected by then.  If the messenger
    of the helper frame holds no port at that moment (as with an empty list
    of URLs, which completes at once), the call throws and
    [runAmpWebPushHelperFrame] fails; the listener stays as suspended as
    before, so that a handshake accepted later is never acknowledged. *)
Theorem checker_done_before_handshake_never_acknowledges :
  forall parentOrigin urlsToCheck inbound later,
    (forall cb data, forallb quiet_action (body cb data) = true) ->
    forallb quiet_event inbound = true ->
    forallb quiet_event later = true ->
    run (checker_urls urlsToCheck) = Fulfilled tt ->
    has_port (world_of ((listenPartially None parentOrigin ;;
                         drain getRandomValues ;;
                         run_events inbound)
                          (new_World (Some {| opt_debug := true |})))) = false ->
    let r := runAmpWebPushHelperFrame parentOrigin urlsToCheck inbound in
    (forall w', r <> Ok tt w')
    /\ let w := world_of (run_events later (world_of r)) in
       connected_ (self w) = false /\ existsb is_ack (trace w) = false.
Proof.
  intros parentOrigin urlsToCheck inbound later Hb Hq Hl Hrun Hport r.
  set (prefix := listenPartially None parentOrigin ;;
                 drain getRandomValues ;; run_events inbound) in *.
  set (w0 := new_World (Some {| opt_debug := true |})) in *.
  assert (Hpre : suspended (world_of (prefix w0))).
  { assert (H : preserves suspended prefix).
    { apply preserves_bind; [apply listenPartially_suspended|intros _].
      apply preserves_bind; [apply drain_suspended|intros _].
      apply run_events_suspended; assumption. }
    apply H. apply new_World_suspended. }
  assert (Er : r = match prefix w0 with
                   | Ok _ w' => finishListenHandshake getRandomValues w'
                   | Throw e w' => Throw e w'
                   | OutOfFuel w' => OutOfFuel w'
                   end).
  { subst r prefix.
    unfold runAmpWebPushHelperFrame, HelperFrame.runAmpWebPushHelperFrame.
    cbv zeta. fold w0. rewrite Hrun. unfold bind.
    destruct (listenPartially None parentOrigin w0) as [[] wa|e wa|wa];
      try reflexivity.
    destruct (drain getRandomValues wa); reflexivity. }
  assert (H : suspended (world_of r) /\ forall w', r <> Ok tt w').
  { rewrite Er. destruct (prefix w0) as [[] w1|e w1|w1]; simpl in *.
    - apply finish_without_port_suspended; [exact Hpre|].
      unfold has_port in Hport. destruct (messagePort_ (self w1)); [discriminate|].
      reflexivity.
    - split; [exact Hpre|discriminate].
    - split; [exact Hpre|discriminate]. }
  destruct H as [Hs Hne]. split; [exact Hne|]. intros w.
  assert (Hw : suspended w).
  { apply run_events_suspended; assumption. }
  split; apply Hw.
Qed.

End EarlyFinish.

(** With no URL to check, the helper frame fails at once; the handshake of
    the parent page is then accepted and never acknowledged. *)
Lemma checker_done_before_handshake_never_acknowledges_witness :
  let r := runAmpWebPushHelperFrame Sample.origin Sample.entropy Sample.remote 1
             Sample.echo_body (Some "https://a.example") (Some []) [] in
  let w := world_of (run_events Sample.origin Sample.entropy Sample.echo_body 1
                       [WindowMessage Sample.handshake] (world_of r)) in
  messagePort_ (self w) = Some 7
  /\ (connected_ (self w) = false /\ existsb is_ack (trace w) = false).
Proof.
  intros r w. split; [vm_compute; reflexivity|].
  apply (checker_done_before_handshake_never_acknowledges Sample.origin
           Sample.entropy Sample.remote 1 Sample.echo_body
           (Some "https://a.example") (Some []) [] [WindowMessage Sample.handshake]).
  - intros cb data. reflexivity.
  - reflexivity.
  - reflexivity.
  - reflexivity.
  - vm_compute. reflexivity.
Defined.

(** * The remote frame and the checker *)

Import Page.

(** X14: the state that [getSubscriptionState] reports is one the checker
    can evaluate: the return expression of [isSubscribedToAltOrigin] never
    throws on it, because the worker URL is a string whenever the frame is
    reported as controlled.  The verdict is "subscribed" exactly when the
    permission is granted, the page has an activated controller whose script
    URL contains the expected fragment, and the worker answered [true]. *)
Theorem remote_state_is_evaluated_without_error :
  forall page workerReply subscriptionState,
    RemoteFrame.getSubscriptionState page workerReply = Fulfilled subscriptionState ->
    (exists verdict, is_subscribed_state subscriptionState = Some verdict)
    /\ (is_subscribed_state subscriptionState = Some true
        <-> permission page = "granted"
            /\ serviceWorker page = true
            /\ exists worker,
                 controller page = Some worker
                 /\ state worker = "activated"
                 /\ workerReply = Some (JBool true)
                 /\ contains (scriptURL worker) "OneSignalSDKWorker.js").
Proof.
  intros page workerReply st H.
  unfold RemoteFrame.getSubscriptionState in H. cbv zeta in H.
  assert (Hunknown :
            forall p, is_subscribed_state
                        (RemoteFrame.subscription_state (JStr p)
                           JUndefined JUndefined JUndefined JUndefined)
                      = Some false).
  { intros p. unfold is_subscribed_state. simpl.
    destruct (String.eqb p "granted"); reflexivity. }
  destruct (serviceWorker page) eqn:Es.
  - destruct (controller page) as [worker|] eqn:Ec.
    + destruct workerReply as [reply|]; [|discriminate].
      inversion H; subst st; clear H. split.
      * unfold is_subscribed_state. simpl.
        destruct (String.eqb (permission page) "granted"); simpl; eauto.
        destruct (String.eqb (state worker) "activated"); simpl; eauto.
        destruct (strict_eq_true reply); simpl; eauto.
      * rewrite is_subscribed_state_true. unfold five_conjuncts. simpl. split.
        -- intros (Hp & _ & Hs & Hr & url & Hu & Hc).
           inversion Hp. inversion Hs. inversion Hu; subst url.
           repeat (split; [reflexivity|]). exists worker.
           repeat split; congruence.
        -- intros (Hp & _ & worker' & Hw & Hs & Hr & Hc).
           inversion Hw; subst worker'. inversion Hr; subst reply.
           rewrite Hp, Hs. repeat (split; [reflexivity|]).
           exists (scriptURL worker). split; [reflexivity|exact Hc].
    + inversion H; subst st; clear H. split; [rewrite Hunknown; eauto|].
      rewrite Hunknown. split; [discriminate|].
      intros (_ & _ & worker & Hw & _). discriminate.
  - inversion H; subst st; clear H. split; [rewrite Hunknown; eauto|].
    rewrite Hunknown. split; [discriminate|].
    intros (_ & Hs & _). discriminate.
Qed.

Lemma remote_state_is_evaluated_without_error_witness :
  let page := {| permission := "granted"; serviceWorker := true;
                 controller := Some {| scriptURL := "https://y.example/OneSignalSDKWorker.js";
                                       state := "activated" |} |} in
  exists subscriptionState,
    RemoteFrame.getSubscriptionState page (Some (JBool true))
    = Fulfilled subscriptionState
    /\ is_subscribed_state subscriptionState = Some true.
Proof.
  intros page. eexists. split; [reflexivity|].
  apply (proj2 (remote_state_is_evaluated_without_error page (Some (JBool true))
                  _ eq_refl)).
  split; [reflexivity|]. split; [reflexivity|].
  eexists. repeat split. exists 18. reflexivity.
Defined.

(** * The subscribers of the helper frame *)

Import HelperSubscribers.

Section HelperSubscribersSpec.

Variable URL_origin : string -> option string.
Variable getRandomValues : nat -> list N.
Variable remote : string -> option (list Event).
Variable fuel : nat.
Variable page : Page.

Abbreviation body := (helper_body page).
Abbreviation run_events := (run_events URL_origin getRandomValues body fuel).

Lemma helper_body_quiet cb message :
  forallb quiet_action (helper_body page cb message) = true.
Proof.
  destruct cb as [|[|[|[|cb]]]]; simpl; try reflexivity.
  - destruct (serviceWorker page); reflexivity.
  - destruct (registration_invalid message); [reflexivity|].
    destruct (serviceWorker page); reflexivity.
  - destruct (query_invalid message); reflexivity.
Qed.

(** X15: while they run, the four subscribers of the helper frame reply or
    throw and do nothing else with the messenger: none of them calls
    [finishListenHandshake], [send], [on] or [off].  The helper frame whose
    checker finds a subscribed origin therefore stays unconnected and posts
    no acknowledgment, whatever requests the parent page sends it. *)
Theorem helper_subscribers_leave_handshake_suspended :
  (forall cb message a,
      In a (helper_body page cb message) ->
      (exists payload, a = ActReply payload) \/ a = ActThrow)
  /\ (forall parentOrigin urlsToCheck url inbound later,
         In url (checker_urls urlsToCheck) ->
         isSubscribedToAltOrigin URL_origin getRandomValues remote fuel url
         = Fulfilled true ->
         forallb quiet_event inbound = true ->
         forallb quiet_event later = true ->
         let w := world_of
                    (run_events later
                       (world_of (runAmpWebPushHelperFrame URL_origin getRandomValues
                                    remote fuel body parentOrigin urlsToCheck
                                    inbound))) in
         connected_ (self w) = false /\ existsb is_ack (trace w) = false).
Proof.
  split.
  - intros cb message a Hin.
    destruct cb as [|[|[|[|cb]]]]; simpl in Hin.
    + destruct Hin as [<-|[]]. left. eauto.
    + destruct (serviceWorker page); destruct Hin as [<-|[]]; [left; eauto|right; reflexivity].
    + destruct (registration_invalid message);
        [destruct Hin as [<-|[]]; right; reflexivity|].
      destruct (serviceWorker page); [destruct Hin|].
      destruct Hin as [<-|[]]. right. reflexivity.
    + destruct (query_invalid message); [|destruct Hin].
      destruct Hin as [<-|[]]. right. reflexivity.
    + destruct Hin.
  - intros parentOrigin urlsToCheck url inbound later Hin Hs Hq Hl w.
    assert (H : suspended w).
    { apply run_events_suspended; [apply helper_body_quiet|exact Hl|].
      apply helper_frame_stays_suspended; [apply helper_body_quiet|exact Hq|].
      rewrite run_is_run_loop. eapply run_loop_with_subscribed; eassumption. }
    split; apply H.
Qed.

(** X16: every answer of the helper frame carries [success: true] and no
    error.  The permission and worker state subscribers post one reply
    envelope under the id and topic of the request; a registration that the
    browser refuses is answered like one that went through, with the text of
    the error as its result. *)
Theorem helper_replies_always_report_success :
  (forall w id topic message port,
      messagePort_ (self w) = Some port ->
      trace (world_of (run_body getRandomValues id topic (helper_body page 0 message) w))
      = trace w ++
        [EPortPost port
           {| env_id := id; env_topic := topic;
              env_data := reply_payload true JNull (JStr (permission page));
              env_isReply := true |}])
  /\ (forall w id topic message port,
         messagePort_ (self w) = Some port ->
         serviceWorker page = true ->
         trace (world_of (run_body getRandomValues id topic (helper_body page 1 message) w))
         = trace w ++
           [EPortPost port
              {| env_id := id; env_topic := topic;
                 env_data := reply_payload true JNull (serviceWorkerState page);
                 env_isReply := true |}])
  /\ (forall w id topic port toString outcome,
         messagePort_ (self w) = Some port ->
         trace (world_of (registration_settled toString
                            (fun d => sendReply_ id topic d ;; ret tt) outcome w))
         = trace w ++
           [EPortPost port
              {| env_id := id; env_topic := topic;
                 env_data :=
                   reply_payload true JNull
                     (match outcome with
                      | Registered => JNull
                      | Refused error => error_text toString error
                      end);
                 env_isReply := true |}])
  /\ (forall errorPayload successPayload,
         prop (reply_payload true errorPayload successPayload) "success" = JBool true
         /\ prop (reply_payload true errorPayload successPayload) "error" = JUndefined
         /\ prop (reply_payload true errorPayload successPayload) "result"
            = successPayload).
Proof.
  split; [|split; [|split]].
  - intros w id topic message port E. simpl.
    unfold exec_action. unfold_methods. unfold bind, get, modify, ret. simpl.
    rewrite E. reflexivity.
  - intros w id topic message port E Hs. simpl. rewrite Hs. simpl.
    unfold exec_action. unfold_methods. unfold bind, get, modify, ret. simpl.
    rewrite E. reflexivity.
  - intros w id topic port toString outcome E.
    destruct outcome; unfold registration_settled, replyToFrameWithPayload_;
      unfold_methods; unfold bind, get, modify, ret; simpl; rewrite E; reflexivity.
  - intros errorPayload successPayload. repeat split.
Qed.

End HelperSubscribersSpec.

(** The parent page connects and asks for the permission while the checker
    is frozen on y.example: the request is answered, the handshake is
    not. *)
Lemma helper_subscribers_leave_handshake_suspended_witness :
  let w := world_of
             (run_events Sample.origin Sample.entropy (helper_body Sample.page) 1
                [PortMessage 7 Sample.permission_request]
                (world_of
                   (runAmpWebPushHelperFrame Sample.origin Sample.entropy
                      Sample.remote 1 (helper_body Sample.page)
                      (Some "https://a.example")
                      (Some ["https://y.example/probe"])
                      [WindowMessage Sample.handshake]))) in
  invoked (trace w) = [0]
  /\ (connected_ (self w) = false /\ existsb is_ack (trace w) = false).
Proof.
  intros w. split; [vm_compute; reflexivity|]. subst w.
  apply (proj2 (helper_subscribers_leave_handshake_suspended Sample.origin
                  Sample.entropy Sample.remote 1 Sample.page)
           (Some "https://a.example") (Some ["https://y.example/probe"])
           "https://y.example/probe"
           [WindowMessage Sample.handshake]
           [PortMessage 7 Sample.permission_request]).
  - left. reflexivity.
  - vm_compute. reflexivity.
  - reflexivity.
  - reflexivity.
Defined.

Lemma helper_replies_always_report_success_witness :
  let w := world_of (run_events Sample.origin Sample.entropy Sample.no_body 1
                       [CallListen (Some ["https://a.example"]) true;
                        WindowMessage Sample.handshake] (new_World None)) in
  let refused := Refused (JObj [("message", JStr "denied")]) in
  trace (world_of (registration_settled (fun _ => "Error")
                     (fun d => sendReply_ "4" "topic-service-worker-registration" d ;;
                               ret tt) refused w))
  = trace w ++
    [EPortPost 7
       {| env_id := "4"; env_topic := "topic-service-worker-registration";
          env_data := JObj [("success", JBool true); ("error", JUndefined);
                            ("result", JStr "denied")];
          env_isReply := true |}].
Proof.
  intros w refused.
  apply (proj1 (proj2 (proj2 (helper_replies_always_report_success
                                Sample.entropy Sample.page)))
           w "4" "topic-service-worker-registration" 7 (fun _ => "Error") refused).
  reflexivity.
Defined.

(** * The query string parser *)

Import Utils.

Lemma span_length p s :
  String.length (fst (span p s)) + String.length (snd (span p s))
  = String.length s.
Proof.
  induction s as [|c s IH]; simpl; [reflexivity|].
  destruct (p c); [|reflexivity].
  destruct (span p s) as [taken left]. simpl in *. lia.
Qed.

Lemma pair_here_shorter s group1 group2 rest :
  pair_here s = Some (group1, group2, rest) ->
  String.length rest < String.length s.
Proof.
  unfold pair_here. pose proof (span_length name_char s) as Hn.
  destruct (span name_char s) as [name left]. simpl in Hn.
  destruct name as [|c name]; [discriminate|]. simpl in Hn.
  destruct left as [|d left'].
  - intros H. injection H as _ _ <-. simpl. lia.
  - destruct (Ascii.eqb d "=").
    + pose proof (span_length value_char left') as Hv.
      destruct (span value_char left') as [value left'']. simpl in Hv.
      intros H. injection H as _ _ <-. simpl in Hn. lia.
    + intros H. injection H as _ _ <-. lia.
Qed.

Lemma match_here_shorter at_start s group1 group2 rest :
  match_here at_start s = Some (group1, group2, rest) ->
  String.length rest < String.length s.
Proof.
  unfold match_here.
  destruct at_start; destruct s as [|c s']; simpl; try discriminate;
    repeat match goal with
    | |- context [pair_here ?x] =>
        destruct (pair_here x) as [[[? ?] ?]|] eqn:?
    | |- context [if ?b then _ else _] => destruct b
    end;
    intros H; try discriminate; inversion H; subst;
    repeat match goal with
    | Hp : pair_here _ = Some _ |- _ => apply pair_here_shorter in Hp
    end;
    simpl in *; lia.
Qed.

Lemma search_shorter s : forall at_start group1 group2 rest,
  search at_start s = Some (group1, group2, rest) ->
  String.length rest < String.length s.
Proof.
  induction s as [|c s IH]; intros at_start group1 group2 rest; simpl.
  - destruct (match_here at_start "") as [m|] eqn:Hm; [|discriminate].
    intros H. injection H as ->. apply match_here_shorter in Hm. exact Hm.
  - destruct (match_here at_start (String c s)) as [m|] eqn:Hm.
    + intros H. injection H as ->. apply match_here_shorter in Hm. exact Hm.
    + intros H. apply IH in H. simpl. lia.
Qed.

Lemma drop_string_length n : forall s,
  String.length (drop_string n s) = String.length s - n.
Proof.
  induction n as [|n IH]; intros [|c s]; simpl; try reflexivity.
  apply IH.
Qed.

Section ParserSpec.

Variable decodeURIComponent : string -> option string.
Variable trim : string -> string.

Abbreviation exec_loop := (exec_loop decodeURIComponent trim).
Abbreviation parseQueryString := (parseQueryString decodeURIComponent trim).
Abbreviation location_parentOrigin :=
  (location_parentOrigin decodeURIComponent trim).
Abbreviation decoded := (decoded decodeURIComponent trim).

Lemma exec_loop_end len fuel : forall at_start s params,
  String.length s < fuel ->
  String.length s <= len ->
  loop_end len (String.length s) (exec_loop fuel len at_start s params).
Proof.
  induction fuel as [|fuel IH]; intros at_start s params Hf Hl; [lia|].
  simpl.
  destruct (search at_start s) as [[[group1 group2] rest]|] eqn:Hs;
    [|reflexivity].
  apply search_shorter in Hs.
  assert (Hstep : forall params',
             loop_end len (String.length s)
               (exec_loop fuel len false rest params')).
  { intros params'.
    pose proof (IH false rest params' ltac:(lia) ltac:(lia)) as H.
    destruct (exec_loop fuel len false rest params') as [[m| |] i];
      simpl in *; lia. }
  destruct (decodeURIComponent group1) as [name|]; [|simpl; lia].
  destruct group2 as [[|c v]|]; try apply Hstep.
  destruct (decodeURIComponent (String c v)); [apply Hstep|simpl; lia].
Qed.

(** X18: [parseQueryString] always comes to an end, whatever state the
    shared regular expression was left in.  When it returns the parameters
    of a query string that is not empty, the regular expression is back at
    index 0; for the empty query string it is not touched.  When
    [decodeURIComponent] throws, the regular expression stays at the end of
    the match that was being decoded, an index beyond the one the call
    started from and within the query string. *)
Theorem parseQueryString_ends_and_rewinds lastIndex queryString :
  match parseQueryString lastIndex queryString with
  | (Params _, lastIndex') =>
      lastIndex' = if String.eqb queryString "" then lastIndex else 0
  | (URIError, lastIndex') =>
      lastIndex < lastIndex' <= String.length queryString
  | (Unfinished, _) => False
  end.
Proof.
  unfold Utils.parseQueryString.
  destruct queryString as [|c q]; [reflexivity|].
  set (s := String c q).
  destruct (Nat.ltb_spec (String.length s) lastIndex) as [Hlt|Hle];
    [reflexivity|].
  pose proof (drop_string_length lastIndex s) as Hd.
  pose proof (exec_loop_end (String.length s) (S (String.length s))
                (Nat.eqb lastIndex 0) (drop_string lastIndex s) ∅
                ltac:(lia) ltac:(lia)) as H.
  destruct (exec_loop _ _ _ _ _) as [[m| |] i]; simpl in *; lia.
Qed.

Lemma search_without_ampersand s :
  all_chars value_char s = true -> search false s = None.
Proof.
  induction s as [|c s IH]; [reflexivity|].
  intros H. simpl in H. apply andb_prop in H. destruct H as [Hc Hs].
  unfold value_char in Hc. apply negb_true_iff in Hc.
  change (search false (String c s))
    with (match match_here false (String c s) with
          | Some m => Some m
          | None => search false s
          end).
  unfold match_here. rewrite Hc. apply IH. exact Hs.
Qed.

Lemma all_chars_drop p n : forall s,
  all_chars p s = true -> all_chars p (drop_string n s) = true.
Proof.
  induction n as [|n IH]; intros [|c s]; simpl; try reflexivity;
    try (intros H; exact H).
  intros H. apply andb_prop in H. apply IH. apply H.
Qed.

(** X19: the regular expression is shared by all calls, so a call in
    which [decodeURIComponent] throws spoils the next one.  After such a
    call, a query string without & (a single parameter, which a call
    with the regular expression at index 0 reads) is parsed to the empty
    object, and [getParentOrigin_] reads no parentOrigin from it and
    throws its Error.  That call rewinds the regular expression. *)
Theorem failed_decoding_hides_next_query failed lastIndex search w :
  parseQueryString 0 failed = (URIError, lastIndex) ->
  search <> "" ->
  all_chars value_char search = true ->
  parseQueryString lastIndex search = (Params ∅, 0)
  /\ location_parentOrigin lastIndex search w = Throw "Error" w.
Proof.
  intros Hf Hne Hamp.
  assert (Hi : 0 < lastIndex).
  { revert Hf. unfold Utils.parseQueryString.
    destruct failed as [|c q]; [discriminate|].
    set (s := String c q). change (Nat.ltb (String.length s) 0) with false.
    cbv iota. intros Hf.
    pose proof (exec_loop_end (String.length s) (S (String.length s))
                  (Nat.eqb 0 0) (drop_string 0 s) ∅
                  ltac:(simpl; lia) ltac:(simpl; lia)) as H.
    rewrite Hf in H. simpl in H. lia. }
  assert (Hp : parseQueryString lastIndex search = (Params ∅, 0)).
  { unfold Utils.parseQueryString.
    destruct search as [|c q]; [congruence|].
    destruct (Nat.ltb _ lastIndex); [reflexivity|].
    destruct (Nat.eqb_spec lastIndex 0) as [->|_]; [lia|].
    simpl. rewrite search_without_ampersand; [reflexivity|].
    apply all_chars_drop. exact Hamp. }
  split; [exact Hp|].
  unfold Utils.location_parentOrigin. rewrite Hp. reflexivity.
Qed.

Lemma span_app p s1 s2 :
  all_chars p s1 = true ->
  match s2 with EmptyString => True | String c _ => p c = false end ->
  span p (String.append s1 s2) = (s1, s2).
Proof.
  intros H1 H2. induction s1 as [|c s1 IH]; simpl.
  - destruct s2 as [|c s2]; [reflexivity|]. simpl. rewrite H2. reflexivity.
  - simpl in H1. apply andb_prop in H1. destruct H1 as [Hc H1].
    rewrite Hc, (IH H1). reflexivity.
Qed.

Lemma query_tail_head rest :
  match query_tail rest with
  | EmptyString => True
  | String c _ => value_char c = false
  end.
Proof. destruct rest; simpl; [exact I|reflexivity]. Qed.

Lemma pair_here_pair kv rest :
  well_formed kv = true ->
  pair_here (query_of (kv :: rest))
  = Some (fst kv, Some (snd kv), query_tail rest).
Proof.
  unfold well_formed. intros H.
  apply andb_prop in H. destruct H as [H Hv].
  apply andb_prop in H. destruct H as [Hne Hn].
  change (query_of (kv :: rest))
    with (String.append (fst kv)
            (String "=" (String.append (snd kv) (query_tail rest)))).
  unfold pair_here. rewrite (span_app _ _ _ Hn); [|reflexivity].
  destruct (fst kv) as [|c name]; [discriminate|].
  change (Ascii.eqb "=" "=") with true. cbv iota.
  rewrite (span_app _ _ _ Hv); [reflexivity|apply query_tail_head].
Qed.

Lemma search_here at_start s m :
  match_here at_start s = Some m -> search at_start s = Some m.
Proof. intros H. destruct s; unfold search; fold search; rewrite H; reflexivity. Qed.

Lemma search_next_pair kv rest :
  well_formed kv = true ->
  search false (query_tail (kv :: rest))
  = Some (fst kv, Some (snd kv), query_tail rest).
Proof.
  intros Hkv. apply search_here.
  change (match_here false (query_tail (kv :: rest)))
    with (pair_here (query_of (kv :: rest))).
  apply pair_here_pair. exact Hkv.
Qed.

Lemma search_first_pair c kv rest :
  prefix_char c ->
  well_formed kv = true ->
  search true (String c (query_of (kv :: rest)))
  = Some (fst kv, Some (snd kv), query_tail rest).
Proof.
  intros Hc Hkv. apply search_here. unfold match_here.
  assert (Hb : Ascii.eqb c "#" || Ascii.eqb c "?" = true)
    by (destruct Hc as [-> | ->]; reflexivity).
  rewrite Hb, (pair_here_pair kv rest Hkv). reflexivity.
Qed.

Lemma exec_loop_step fuel len at_start s params kv p rest :
  search at_start s = Some (fst kv, Some (snd kv), rest) ->
  decoded_pair decodeURIComponent trim kv = Some p ->
  exec_loop (S fuel) len at_start s params
  = exec_loop fuel len false rest (<[fst p := snd p]> params).
Proof.
  intros Hs Hd. simpl. rewrite Hs.
  unfold decoded_pair in Hd.
  destruct (decodeURIComponent (fst kv)) as [name|]; [|discriminate].
  destruct (snd kv) as [|c v].
  - injection Hd as <-. reflexivity.
  - destruct (decodeURIComponent (String c v)) as [d|]; [|discriminate].
    injection Hd as <-. reflexivity.
Qed.

Lemma exec_loop_pairs len : forall rest fuel params l,
  length rest < fuel ->
  forallb well_formed rest = true ->
  decoded rest = Some l ->
  exec_loop fuel len false (query_tail rest) params
  = (Params (assigned l params), 0).
Proof.
  induction rest as [|kv rest IH]; intros fuel params l Hf Hw Hd;
    (destruct fuel as [|fuel]; [simpl in Hf; lia|]).
  - injection Hd as <-. reflexivity.
  - simpl in Hw. apply andb_prop in Hw. destruct Hw as [Hkv Hw].
    simpl in Hd.
    destruct (decoded_pair decodeURIComponent trim kv) as [p|] eqn:Hp;
      [|discriminate].
    destruct (decoded rest) as [l'|] eqn:Hl; [|discriminate].
    injection Hd as <-.
    rewrite (exec_loop_step fuel len false _ params kv p (query_tail rest));
      [|apply search_next_pair; exact Hkv|exact Hp].
    apply (IH fuel _ l'); [simpl in Hf; lia|exact Hw|reflexivity].
Qed.

Lemma query_of_length pairs : length pairs <= String.length (query_of pairs).
Proof.
  induction pairs as [|kv rest IH]; simpl; [lia|].
  rewrite length_string_append. simpl. rewrite length_string_append.
  destruct rest as [|kv' rest']; simpl in *; lia.
Qed.

Lemma parse_pairs c pairs l :
  prefix_char c ->
  pairs <> [] ->
  forallb well_formed pairs = true ->
  decoded pairs = Some l ->
  parseQueryString 0 (String c (query_of pairs))
  = (Params (assigned l ∅), 0).
Proof.
  intros Hc Hne Hw Hd.
  destruct pairs as [|kv rest]; [congruence|].
  simpl in Hw. apply andb_prop in Hw. destruct Hw as [Hkv Hw].
  simpl in Hd.
  destruct (decoded_pair decodeURIComponent trim kv) as [p|] eqn:Hp;
    [|discriminate].
  destruct (decoded rest) as [l'|] eqn:Hl; [|discriminate].
  injection Hd as <-.
  unfold Utils.parseQueryString.
  set (s := String c (query_of (kv :: rest))).
  change (Nat.ltb (String.length s) 0) with false.
  change (Nat.eqb 0 0) with true. change (drop_string 0 s) with s.
  cbv iota. subst s.
  rewrite (exec_loop_step _ _ true _ ∅ kv p (query_tail rest));
    [| |exact Hp].
  - change (assigned (p :: l') ∅) with (assigned l' (<[fst p := snd p]> ∅)).
    apply exec_loop_pairs; [|exact Hw|exact Hl].
    pose proof (query_of_length (kv :: rest)) as Hq. simpl in *. lia.
  - apply search_first_pair; assumption.
Qed.

Lemma assigned_lookup key : forall l params,
  assigned l params !! key
  = match last_value key l with
    | Some v => Some v
    | None => params !! key
    end.
Proof.
  induction l as [|kv l IH]; intros params; [reflexivity|].
  unfold assigned in *. simpl. rewrite IH.
  destruct (last_value key l); [reflexivity|].
  destruct (String.eqb_spec (fst kv) key) as [->|Hne].
  - apply lookup_insert_eq.
  - apply lookup_insert_ne. exact Hne.
Qed.

(** X20: a query string made of one of the characters ? and # and of
    pairs name=value joined by &, where no name is empty or has = or &
    in it and no value has &, is read back pair by pair when the regular
    expression is at index 0 and the decoder accepts every name and every
    value that is not empty: the object returned has, for each name, the
    value of the last pair with that name (decoded and trimmed), and no
    other property; the regular expression is at index 0 again. *)
Theorem parseQueryString_reads_pairs_last_wins c pairs l :
  prefix_char c ->
  pairs <> [] ->
  forallb well_formed pairs = true ->
  decoded pairs = Some l ->
  exists params,
    parseQueryString 0 (String c (query_of pairs)) = (Params params, 0)
    /\ forall key, params !! key = last_value key l.
Proof.
  intros Hc Hne Hw Hd. exists (assigned l ∅).
  split; [apply parse_pairs; assumption|].
  intros key. rewrite assigned_lookup.
  destruct (last_value key l); [reflexivity|apply lookup_empty].
Qed.

(** X21: [getParentOrigin_] on a page whose [location.search] is such a
    query string returns the value of the last parentOrigin pair, and
    throws its Error when there is no such pair or when the last one has
    an empty value, whatever earlier pairs of that name say. *)
Theorem getParentOrigin_reads_last_parameter c pairs l w :
  prefix_char c ->
  pairs <> [] ->
  forallb well_formed pairs = true ->
  decoded pairs = Some l ->
  location_parentOrigin 0 (String c (query_of pairs)) w
  = match last_value "parentOrigin" l with
    | Some o => if String.eqb o "" then Throw "Error" w else Ok o w
    | None => Throw "Error" w
    end.
Proof.
  intros Hc Hne Hw Hd. unfold Utils.location_parentOrigin.
  rewrite (parse_pairs c pairs l Hc Hne Hw Hd). cbn [fst].
  rewrite assigned_lookup, lookup_empty.
  unfold HelperFrame.getParentOrigin_.
  destruct (last_value "parentOrigin" l) as [o|]; [|reflexivity].
  destruct (String.eqb o ""); reflexivity.
Qed.

End ParserSpec.

Lemma failed_decoding_hides_next_query_witness :
  Utils.parseQueryString Sample.decode Sample.no_trim 3
    "?parentOrigin=https://a.example" = (Params ∅, 0)
  /\ Utils.location_parentOrigin Sample.decode Sample.no_trim 3
       "?parentOrigin=https://a.example" (new_World None)
     = Throw "Error" (new_World None).
Proof.
  apply (failed_decoding_hides_next_query Sample.decode Sample.no_trim
           "a=%" 3 "?parentOrigin=https://a.example" (new_World None)).
  - vm_compute. reflexivity.
  - discriminate.
  - reflexivity.
Defined.

Lemma parseQueryString_reads_pairs_last_wins_witness :
  exists params,
    Utils.parseQueryString Sample.decode Sample.no_trim 0
      (String "?" (query_of [("a", "1"); ("b", ""); ("a", "2")]))
    = (Params params, 0)
    /\ forall key,
         params !! key = last_value key [("a", "1"); ("b", ""); ("a", "2")].
Proof.
  apply (parseQueryString_reads_pairs_last_wins Sample.decode Sample.no_trim
           "?" [("a", "1"); ("b", ""); ("a", "2")]
           [("a", "1"); ("b", ""); ("a", "2")]).
  - left. reflexivity.
  - discriminate.
  - reflexivity.
  - reflexivity.
Defined.

Lemma getParentOrigin_reads_last_parameter_witness :
  Utils.location_parentOrigin Sample.decode Sample.no_trim 0
    (String "?"
       (query_of [("parentOrigin", "https://a.example");
                  ("parentOrigin", "https://b.example")]))
    (new_World None)
  = match last_value "parentOrigin"
            [("parentOrigin", "https://a.example");
             ("parentOrigin", "https://b.example")] with
    | Some o =>
        if String.eqb o "" then Throw "Error" (new_World None)
        else Ok o (new_World None)
    | None => Throw "Error" (new_World None)
    end.
Proof.
  apply (getParentOrigin_reads_last_parameter Sample.decode Sample.no_trim
           "?" [("parentOrigin", "https://a.example");
                ("parentOrigin", "https://b.example")]
           [("parentOrigin", "https://a.example");
            ("parentOrigin", "https://b.example")] (new_World None)).
  - left. reflexivity.
  - discriminate.
  - reflexivity.
  - reflexivity.
Defined.

(** * The exchange with the service worker *)

Import WorkerBridge.

Lemma bridge_ok_new : bridge_ok new_Bridge.
Proof.
  unfold bridge_ok, new_Bridge.
  cbn [allowedWorkerMessageTopics_ topics fulfilled reactions answered].
  split; [reflexivity|].
  split; [intros t p H; rewrite lookup_empty in H; discriminate|].
  split; [intros p v H; rewrite lookup_empty in H; discriminate|].
  split; [intros p v []|constructor].
Qed.

Lemma query_step topic b :
  bridge_ok b ->
  bridge_step (Query topic) b
  = {| allowedWorkerMessageTopics_ :=
         <[topic := length (topics b)]> (allowedWorkerMessageTopics_ b);
       topics := topics b ++ [topic];
       fulfilled := fulfilled b;
       reactions := [];
       answered := answered b |}.
Proof.
  intros (Hr & _). unfold bridge_step, checkpoint. simpl. rewrite Hr.
  reflexivity.
Qed.

Lemma worker_step_miss event b :
  bridge_ok b ->
  allowedWorkerMessageTopics_ b !! command event = None ->
  bridge_step (FromWorker event) b = b.
Proof.
  intros (Hr & _) Hm.
  unfold bridge_step, onPageMessageReceivedFromServiceWorker_.
  rewrite Hm. unfold checkpoint. rewrite Hr. simpl.
  destruct b. simpl in Hr. rewrite Hr. reflexivity.
Qed.

Lemma worker_step_hit event b promise :
  bridge_ok b ->
  allowedWorkerMessageTopics_ b !! command event = Some promise ->
  bridge_step (FromWorker event) b
  = {| allowedWorkerMessageTopics_ :=
         delete (command event) (allowedWorkerMessageTopics_ b);
       topics := topics b;
       fulfilled := <[promise := payload event]> (fulfilled b);
       reactions := [];
       answered := answered b ++ [(promise, payload event)] |}.
Proof.
  intros (Hr & Ht & _) Hm. destruct (Ht _ _ Hm) as [Htopic Hf].
  unfold bridge_step, onPageMessageReceivedFromServiceWorker_.
  rewrite Hm. unfold resolve. rewrite Hf.
  unfold checkpoint. simpl. rewrite Hr. simpl.
  unfold reaction. simpl. rewrite Htopic, lookup_insert_eq. reflexivity.
Qed.

Lemma bridge_step_ok e b : bridge_ok b -> bridge_ok (bridge_step e b).
Proof.
  intros Hok. pose proof Hok as (Hr & Ht & Hf & Ha & Hn).
  destruct e as [topic|event].
  - rewrite (query_step _ _ Hok). unfold bridge_ok. simpl.
    split; [reflexivity|]. split; [|split; [|split]].
    + intros t p Hl. destruct (String.eqb_spec topic t) as [->|Hne].
      * rewrite lookup_insert_eq in Hl. injection Hl as <-.
        split; [apply list_lookup_middle; reflexivity|].
        destruct (fulfilled b !! length (topics b)) as [v|] eqn:Hv;
          [|reflexivity].
        apply Hf in Hv. lia.
      * rewrite lookup_insert_ne in Hl by exact Hne.
        destruct (Ht _ _ Hl) as [H1 H2].
        split; [apply lookup_app_l_Some; exact H1|exact H2].
    + intros p v Hv. apply Hf in Hv. rewrite length_app. simpl. lia.
    + exact Ha.
    + exact Hn.
  - destruct (allowedWorkerMessageTopics_ b !! command event) as [promise|]
      eqn:Hm.
    + rewrite (worker_step_hit _ _ _ Hok Hm).
      destruct (Ht _ _ Hm) as [Htopic Hnone].
      unfold bridge_ok. simpl.
      split; [reflexivity|]. split; [|split; [|split]].
      * intros t p Hl.
        destruct (String.eqb_spec (command event) t) as [<-|Hne].
        -- rewrite lookup_delete_eq in Hl. discriminate.
        -- rewrite lookup_delete_ne in Hl by exact Hne.
           destruct (Ht _ _ Hl) as [H1 H2]. split; [exact H1|].
           rewrite lookup_insert_ne; [exact H2|].
           intros ->. congruence.
      * intros p v Hv. destruct (Nat.eq_dec promise p) as [<-|Hne].
        -- apply lookup_lt_Some in Htopic. exact Htopic.
        -- rewrite lookup_insert_ne in Hv by exact Hne.
           apply (Hf _ _ Hv).
      * intros p v Hin. apply in_app_or in Hin.
        destruct Hin as [Hin|[Heq|[]]].
        -- pose proof (Ha _ _ Hin) as Hv.
           rewrite lookup_insert_ne; [exact Hv|]. intros ->. congruence.
        -- injection Heq as <- <-. apply lookup_insert_eq.
      * rewrite map_app. simpl. apply NoDup_app.
        split; [exact Hn|]. split; [|apply NoDup_singleton].
        intros p Hp Hp'. apply list_elem_of_singleton in Hp'. subst p.
        apply list_elem_of_In, in_map_iff in Hp.
        destruct Hp as ([p v] & Hfst & Hin). simpl in Hfst. subst p.
        apply Ha in Hin. congruence.
    + rewrite (worker_step_miss _ _ Hok Hm). exact Hok.
Qed.

Lemma bridge_run_ok events : forall b,
  bridge_ok b -> bridge_ok (bridge_run events b).
Proof.
  induction events as [|e events IH]; intros b Hok; [exact Hok|].
  apply (IH (bridge_step e b)). apply bridge_step_ok. exact Hok.
Qed.

Lemma waiting_kept topic promise e b :
  bridge_ok b ->
  other_topic topic e = true ->
  waiting topic promise b ->
  waiting topic promise (bridge_step e b).
Proof.
  intros Hok He Hw. unfold waiting in *. destruct e as [t|event]; simpl in He.
  - rewrite (query_step _ _ Hok). simpl.
    apply negb_true_iff, String.eqb_neq in He.
    rewrite lookup_insert_ne by exact He. exact Hw.
  - apply negb_true_iff, String.eqb_neq in He.
    destruct (allowedWorkerMessageTopics_ b !! command event) as [m|] eqn:Hm.
    + rewrite (worker_step_hit _ _ _ Hok Hm). simpl.
      rewrite lookup_delete_ne by exact He. exact Hw.
    + rewrite (worker_step_miss _ _ Hok Hm). exact Hw.
Qed.

Lemma waiting_kept_run topic promise events : forall b,
  bridge_ok b ->
  forallb (other_topic topic) events = true ->
  waiting topic promise b ->
  waiting topic promise (bridge_run events b).
Proof.
  induction events as [|e events IH]; intros b Hok Hes Hw; [exact Hw|].
  simpl in Hes. apply andb_prop in Hes. destruct Hes as [He Hes].
  apply (IH (bridge_step e b)); [apply bridge_step_ok; exact Hok|exact Hes|].
  apply waiting_kept; assumption.
Qed.

(** X22: a query that is answered.  After a frame has asked the worker
    under a topic, and while it neither asks again under that topic nor
    hears from the worker under it, whatever else happens, the next message
    of the worker with that command is passed on as the answer of this
    query, and the topic leaves the table: a second message with the same
    command changes nothing. *)
Theorem worker_message_answers_waiting_query before topic mid value value' :
  forallb (other_topic topic) mid = true ->
  let asked :=
    messageServiceWorkerAndAwaitReply topic (bridge_run before new_Bridge) in
  let b :=
    bridge_run mid (bridge_step (Query topic) (bridge_run before new_Bridge)) in
  let b' :=
    bridge_step (FromWorker {| command := topic; payload := value |}) b in
  answered b' = answered b ++ [(fst asked, value)]
  /\ allowedWorkerMessageTopics_ b' !! topic = None
  /\ bridge_step (FromWorker {| command := topic; payload := value' |}) b' = b'.
Proof.
  intros Hmid asked b b'.
  pose proof (bridge_run_ok before _ bridge_ok_new) as Hok0.
  pose proof (bridge_step_ok (Query topic) _ Hok0) as Hok1.
  assert (Hw : waiting topic (fst asked) b).
  { apply waiting_kept_run; [exact Hok1|exact Hmid|].
    unfold waiting. rewrite (query_step _ _ Hok0). simpl.
    apply lookup_insert_eq. }
  pose proof (bridge_run_ok mid _ Hok1) as Hok.
  fold b in Hok.
  assert (Hb' : allowedWorkerMessageTopics_ b' !! topic = None
                /\ answered b' = answered b ++ [(fst asked, value)]).
  { subst b'.
    rewrite (worker_step_hit {| command := topic; payload := value |} b
               (fst asked) Hok Hw).
    simpl. split; [apply lookup_delete_eq|reflexivity]. }
  destruct Hb' as [Hgone Hans].
  split; [exact Hans|]. split; [exact Hgone|].
  apply worker_step_miss; [apply bridge_step_ok; exact Hok|exact Hgone].
Qed.

Lemma unfulfilled_kept topic promise e b :
  bridge_ok b ->
  not_from_worker topic e = true ->
  topics b !! promise = Some topic ->
  fulfilled b !! promise = None ->
  topics (bridge_step e b) !! promise = Some topic
  /\ fulfilled (bridge_step e b) !! promise = None.
Proof.
  intros Hok He Ht Hf. pose proof Hok as (_ & Hall & _).
  destruct e as [t|event]; simpl in He.
  - rewrite (query_step _ _ Hok). simpl.
    split; [apply lookup_app_l_Some; exact Ht|exact Hf].
  - apply negb_true_iff, String.eqb_neq in He.
    destruct (allowedWorkerMessageTopics_ b !! command event) as [m|] eqn:Hm.
    + rewrite (worker_step_hit _ _ _ Hok Hm). simpl.
      split; [exact Ht|]. rewrite lookup_insert_ne; [exact Hf|].
      intros ->. destruct (Hall _ _ Hm) as [Hc _]. congruence.
    + rewrite (worker_step_miss _ _ Hok Hm). split; assumption.
Qed.

Lemma unfulfilled_kept_run topic promise events : forall b,
  bridge_ok b ->
  forallb (not_from_worker topic) events = true ->
  topics b !! promise = Some topic ->
  fulfilled b !! promise = None ->
  topics (bridge_run events b) !! promise = Some topic
  /\ fulfilled (bridge_run events b) !! promise = None.
Proof.
  induction events as [|e events IH]; intros b Hok Hes Ht Hf;
    [split; assumption|].
  simpl in Hes. apply andb_prop in Hes. destruct Hes as [He Hes].
  destruct (unfulfilled_kept topic promise e b Hok He Ht Hf) as [Ht' Hf'].
  apply (IH (bridge_step e b)); [apply bridge_step_ok; exact Hok| | |];
    assumption.
Qed.

Lemma orphaned_kept topic promise e b :
  bridge_ok b ->
  orphaned topic promise b ->
  orphaned topic promise (bridge_step e b).
Proof.
  intros Hok (Ht & Hf & Hout). pose proof Hok as (_ & Hall & _).
  unfold orphaned. destruct e as [t|event].
  - rewrite (query_step _ _ Hok). simpl.
    split; [apply lookup_app_l_Some; exact Ht|]. split; [exact Hf|].
    destruct (String.eqb_spec t topic) as [->|Hne].
    + rewrite lookup_insert_eq. intros H. injection H as H.
      apply lookup_lt_Some in Ht. lia.
    + rewrite lookup_insert_ne by exact Hne. exact Hout.
  - destruct (allowedWorkerMessageTopics_ b !! command event) as [m|] eqn:Hm.
    + rewrite (worker_step_hit _ _ _ Hok Hm). simpl.
      destruct (Hall _ _ Hm) as [Hc _].
      split; [exact Ht|]. split.
      * rewrite lookup_insert_ne; [exact Hf|].
        intros ->. apply Hout. congruence.
      * destruct (String.eqb_spec (command event) topic) as [<-|Hne].
        -- rewrite lookup_delete_eq. discriminate.
        -- rewrite lookup_delete_ne by exact Hne. exact Hout.
    + rewrite (worker_step_miss _ _ Hok Hm). repeat split; assumption.
Qed.

Lemma orphaned_kept_run topic promise events : forall b,
  bridge_ok b ->
  orphaned topic promise b ->
  orphaned topic promise (bridge_run events b).
Proof.
  induction events as [|e events IH]; intros b Hok Ho; [exact Ho|].
  apply (IH (bridge_step e b)); [apply bridge_step_ok; exact Hok|].
  apply orphaned_kept; assumption.
Qed.

(** X23: a query that is never answered.  When a frame asks the worker
    under a topic, and asks again under the same topic before a message of
    the worker with that command has come, the second resolve function
    takes the place of the first in the table.  The first promise is then
    never fulfilled and its query never answered, whatever the worker sends
    afterwards. *)
Theorem repeated_topic_orphans_first_query before topic mid after :
  forallb (not_from_worker topic) mid = true ->
  let first :=
    fst (messageServiceWorkerAndAwaitReply topic
           (bridge_run before new_Bridge)) in
  let b :=
    bridge_run after
      (bridge_step (Query topic)
         (bridge_run mid
            (bridge_step (Query topic) (bridge_run before new_Bridge)))) in
  fulfilled b !! first = None
  /\ forall value, ~ In (first, value) (answered b).
Proof.
  intros Hmid first b.
  pose proof (bridge_run_ok before _ bridge_ok_new) as Hok0.
  pose proof (bridge_step_ok (Query topic) _ Hok0) as Hok1.
  pose proof (bridge_run_ok mid _ Hok1) as Hok2.
  pose proof (bridge_step_ok (Query topic) _ Hok2) as Hok3.
  pose proof (bridge_run_ok after _ Hok3) as Hok4.
  assert (H1 : topics (bridge_step (Query topic) (bridge_run before new_Bridge))
                 !! first = Some topic
               /\ fulfilled (bridge_step (Query topic)
                               (bridge_run before new_Bridge)) !! first = None).
  { destruct Hok1 as (_ & Hall & _). apply (Hall topic first).
    rewrite (query_step _ _ Hok0). simpl. apply lookup_insert_eq. }
  destruct H1 as [Ht1 Hf1].
  destruct (unfulfilled_kept_run topic first mid _ Hok1 Hmid Ht1 Hf1)
    as [Ht2 Hf2].
  assert (Ho : orphaned topic first b).
  { apply orphaned_kept_run; [exact Hok3|].
    apply lookup_lt_Some in Ht2 as Hlt.
    remember (bridge_run mid
                (bridge_step (Query topic) (bridge_run before new_Bridge)))
      as b2 eqn:Hb2.
    unfold orphaned. rewrite (query_step _ _ Hok2).
    cbn [allowedWorkerMessageTopics_ topics fulfilled].
    split; [apply lookup_app_l_Some; exact Ht2|]. split; [exact Hf2|].
    rewrite lookup_insert_eq. intros H. injection H as H.
    rewrite H in Hlt. apply Nat.lt_irrefl in Hlt. exact Hlt. }
  destruct Ho as (_ & Hf & _). split; [exact Hf|].
  intros value Hin. destruct Hok4 as (_ & _ & _ & Ha & _).
  apply Ha in Hin. fold b in Hin. congruence.
Qed.

Lemma topics_kept promise topic e b :
  bridge_ok b ->
  topics b !! promise = Some topic ->
  topics (bridge_step e b) !! promise = Some topic.
Proof.
  intros Hok Ht. destruct e as [t|event].
  - rewrite (query_step _ _ Hok). simpl. apply lookup_app_l_Some. exact Ht.
  - destruct (allowedWorkerMessageTopics_ b !! command event) as [m|] eqn:Hm.
    + rewrite (worker_step_hit _ _ _ Hok Hm). exact Ht.
    + rewrite (worker_step_miss _ _ Hok Hm). exact Ht.
Qed.

Lemma topics_kept_run promise topic events : forall b,
  bridge_ok b ->
  topics b !! promise = Some topic ->
  topics (bridge_run events b) !! promise = Some topic.
Proof.
  induction events as [|e events IH]; intros b Hok Ht; [exact Ht|].
  apply (IH (bridge_step e b)); [apply bridge_step_ok; exact Hok|].
  apply topics_kept; assumption.
Qed.

Lemma topics_from_queries promise topic events : forall b,
  bridge_ok b ->
  topics (bridge_run events b) !! promise = Some topic ->
  topics b !! promise = Some topic \/ In (Query topic) events.
Proof.
  induction events as [|e events IH]; intros b Hok Ht; [left; exact Ht|].
  destruct (IH (bridge_step e b) (bridge_step_ok e b Hok) Ht) as [H|H];
    [|right; right; exact H].
  destruct e as [t|event].
  - rewrite (query_step _ _ Hok) in H. simpl in H.
    apply lookup_app_Some in H. destruct H as [H|[_ H]]; [left; exact H|].
    right. left. apply list_lookup_singleton_Some in H.
    destruct H as [_ ->]. reflexivity.
  - left.
    destruct (allowedWorkerMessageTopics_ b !! command event) as [m|] eqn:Hm.
    + rewrite (worker_step_hit _ _ _ Hok Hm) in H. exact H.
    + rewrite (worker_step_miss _ _ Hok Hm) in H. exact H.
Qed.

Lemma answered_from_worker promise value events : forall b,
  bridge_ok b ->
  In (promise, value) (answered (bridge_run events b)) ->
  In (promise, value) (answered b)
  \/ exists topic,
       topics (bridge_run events b) !! promise = Some topic
       /\ In (FromWorker {| command := topic; payload := value |}) events.
Proof.
  induction events as [|e events IH]; intros b Hok Hin; [left; exact Hin|].
  pose proof (bridge_step_ok e b Hok) as Hok'.
  destruct (IH (bridge_step e b) Hok' Hin) as [H|(topic & Ht & H)];
    [|right; exists topic; split; [exact Ht|right; exact H]].
  destruct e as [t|event].
  - left. rewrite (query_step _ _ Hok) in H. exact H.
  - destruct (allowedWorkerMessageTopics_ b !! command event) as [m|] eqn:Hm.
    + pose proof Hok as (_ & Hall & _). destruct (Hall _ _ Hm) as [Hc _].
      rewrite (worker_step_hit _ _ _ Hok Hm) in H. simpl in H.
      apply in_app_or in H. destruct H as [H|[H|[]]]; [left; exact H|].
      injection H as <- <-. right. exists (command event). split.
      * change (bridge_run (FromWorker event :: events) b)
          with (bridge_run events (bridge_step (FromWorker event) b)).
        apply topics_kept_run; [exact Hok'|].
        apply topics_kept; assumption.
      * left. destruct event. reflexivity.
    + left. rewrite (worker_step_miss _ _ Hok Hm) in H. exact H.
Qed.

(** X24: where answers come from.  Whatever a frame asks and whatever the
    worker sends, a query that is answered was asked under some topic, the
    answer is the payload of a message that the worker sent with that topic
    as its command, and the query is answered once. *)
Theorem answers_pass_on_worker_messages events promise value :
  In (promise, value) (answered (bridge_run events new_Bridge)) ->
  (exists topic,
     topics (bridge_run events new_Bridge) !! promise = Some topic
     /\ In (Query topic) events
     /\ In (FromWorker {| command := topic; payload := value |}) events)
  /\ count_occ Nat.eq_dec
       (map fst (answered (bridge_run events new_Bridge))) promise = 1.
Proof.
  intros Hin. split.
  - destruct (answered_from_worker promise value events new_Bridge
                bridge_ok_new Hin) as [[]|(topic & Ht & Hw)].
    exists topic. split; [exact Ht|]. split; [|exact Hw].
    destruct (topics_from_queries promise topic events new_Bridge
                bridge_ok_new Ht) as [H|H]; [discriminate|exact H].
  - pose proof (bridge_run_ok events _ bridge_ok_new) as (_ & _ & _ & _ & Hn).
    apply NoDup_ListNoDup in Hn.
    apply (proj1 (NoDup_count_occ' Nat.eq_dec _) Hn).
    apply (in_map fst) in Hin. exact Hin.
Qed.

Lemma worker_message_answers_waiting_query_witness :
  let asked :=
    messageServiceWorkerAndAwaitReply "amp-web-push-subscription-state"
      (bridge_run [Query "a"] new_Bridge) in
  let b :=
    bridge_run
      [FromWorker {| command := "a"; payload := JNull |}; Query "b"]
      (bridge_step (Query "amp-web-push-subscription-state")
         (bridge_run [Query "a"] new_Bridge)) in
  let b' :=
    bridge_step
      (FromWorker {| command := "amp-web-push-subscription-state";
                     payload := JBool true |}) b in
  answered b' = answered b ++ [(fst asked, JBool true)]
  /\ allowedWorkerMessageTopics_ b' !! "amp-web-push-subscription-state"
     = None
  /\ bridge_step
       (FromWorker {| command := "amp-web-push-subscription-state";
                      payload := JNull |}) b' = b'.
Proof.
  apply (worker_message_answers_waiting_query [Query "a"]
           "amp-web-push-subscription-state"
           [FromWorker {| command := "a"; payload := JNull |}; Query "b"]
           (JBool true) JNull).
  reflexivity.
Defined.

Lemma repeated_topic_orphans_first_query_witness :
  let first :=
    fst (messageServiceWorkerAndAwaitReply "amp-web-push-subscription-state"
           (bridge_run [Query "a"] new_Bridge)) in
  let b :=
    bridge_run
      [FromWorker {| command := "amp-web-push-subscription-state";
                     payload := JBool true |};
       FromWorker {| command := "amp-web-push-subscription-state";
                     payload := JBool false |}]
      (bridge_step (Query "amp-web-push-subscription-state")
         (bridge_run [FromWorker {| command := "a"; payload := JNull |}]
            (bridge_step (Query "amp-web-push-subscription-state")
               (bridge_run [Query "a"] new_Bridge)))) in
  fulfilled b !! first = None
  /\ forall value, ~ In (first, value) (answered b).
Proof.
  apply (repeated_topic_orphans_first_query [Query "a"]
           "amp-web-push-subscription-state"
           [FromWorker {| command := "a"; payload := JNull |}]
           [FromWorker {| command := "amp-web-push-subscription-state";
                          payload := JBool true |};
            FromWorker {| command := "amp-web-push-subscription-state";
                          payload := JBool false |}]).
  reflexivity.
Defined.

Lemma answers_pass_on_worker_messages_witness :
  (exists topic,
     topics
       (bridge_run
          [Query "t"; FromWorker {| command := "t"; payload := JBool true |}]
          new_Bridge) !! 0 = Some topic
     /\ In (Query topic)
          [Query "t"; FromWorker {| command := "t"; payload := JBool true |}]
     /\ In (FromWorker {| command := topic; payload := JBool true |})
          [Query "t"; FromWorker {| command := "t"; payload := JBool true |}])
  /\ count_occ Nat.eq_dec
       (map fst
          (answered
             (bridge_run
                [Query "t";
                 FromWorker {| command := "t"; payload := JBool true |}]
                new_Bridge))) 0 = 1.
Proof.
  apply (answers_pass_on_worker_messages
           [Query "t"; FromWorker {| command := "t"; payload := JBool true |}]
           0 (JBool true)).
  vm_compute. left. reflexivity.
Defined.
